(** * TurboCache-JS: a shallow embedding of the caching engine

    The first part of the file follows the TypeScript sources, one module
    for each source file:

    - [core/interfaces.ts]: [CacheStats], [ICacheAdapter], [WrapOptions]
    - [adapters/memory-adapter.ts]: [MemoryAdapter]
    - [adapters/multi-tier-adapter.ts]: [MultiTierAdapter]
    - [core/cache-manager.ts]: [CacheManager]
    - [utils/key-generator.ts]: [KeyGenerator]
    - [decorators/cache-manager-accessor.ts]: [CacheManagerAccessor]
    - [decorators/turbocache-evict.decorator.ts],
      [decorators/turbocache-put.decorator.ts],
      [decorators/turbocache.decorator.ts] and [decorators/types.ts]:
      [TurboCacheEvict], [TurboCachePut], [TurboCache] and their options

    The second part states and proves what the specification says about
    them (C1 to C10) and further properties of the code (X1 to X30).

    Modelling conventions.
    - A JavaScript [number] is an integer of [Z]; fractions, NaN and the
      loss of precision above 2^53 are outside the model, and the text
      of a number beyond the safe range is left to the host.
    - A JavaScript string is a [string] of 8-bit characters; the two line
      terminators above that range are outside the model.
    - [Date.now()] is read once per call of a public method and handed to
      the call as its first argument (see [Async]).
    - An [async] method is a function from the clock reading and the state
      of the object to a completion and the state it leaves behind; a
      rejected promise keeps the mutations done before the rejection.
      Calls do not interleave: every adapter call runs to its end before
      the next one starts, as the calls of [MemoryAdapter] do, which
      never wait. *)

From Stdlib Require Import ZArith List String Ascii Bool Lia.
From Stdlib Require Import DecimalString.
Import ListNotations.

Local Open Scope string_scope.
Local Open Scope Z_scope.

(** ** JavaScript values, errors and completions *)

#[local] Set Warnings "-register-all".

Inductive JsVal : Type :=
| JUndefined
| JNull
| JBool (b : bool)
| JNum (n : Z)
| JStr (s : string)
| JArr (items : list JsVal)
| JObj (fields : list (string * JsVal)).

(** [v !== null] *)
Definition not_null (v : JsVal) : bool :=
  match v with JNull => false | _ => true end.

(** [v === null || v === undefined] *)
Definition nullish (v : JsVal) : bool :=
  match v with JNull | JUndefined => true | _ => false end.

Inductive JsError : Type :=
| Thrown (message : string).

Inductive Completion (A : Type) : Type :=
| Resolved (a : A)
| Rejected (e : JsError).
Arguments Resolved {A} a.
Arguments Rejected {A} e.

(** The parts of the host the sources call and do not define. *)
Class JsRuntime : Type := {
  (** [JSON.stringify v]; [None] is the [undefined] result *)
  JSON_stringify : JsVal -> option string;
  (** [v[prop]] on a value that is neither null nor undefined *)
  getProperty : JsVal -> string -> JsVal;
  (** [createHash('md5').update(s).digest('hex').substring(0, 16)] *)
  md5_hex16 : string -> string;
  (** [String(n)] for an integer beyond the safe range, where the host
      picks the digits and, from 10^21, the exponent notation *)
  Number_toString : Z -> string
}.

(** The decimal digits of an integer, with a minus sign when negative. *)
Definition decimal (n : Z) : string := NilZero.string_of_int (Z.to_int n).

(** ** Asynchronous methods as state passing *)

Definition Async (S A : Type) : Type := Z -> S -> Completion A * S.

Definition ret {S A} (a : A) : Async S A :=
  fun _ s => (Resolved a, s).

Definition throw {S A} (e : JsError) : Async S A :=
  fun _ s => (Rejected e, s).

Definition bind {S A B} (m : Async S A) (k : A -> Async S B) : Async S B :=
  fun now s =>
    match m now s with
    | (Resolved a, s') => k a now s'
    | (Rejected e, s') => (Rejected e, s')
    end.

(** [try { m } catch (error) { h error }] *)
Definition try_catch {S A} (m : Async S A) (h : JsError -> Async S A)
  : Async S A :=
  fun now s =>
    match m now s with
    | (Resolved a, s') => (Resolved a, s')
    | (Rejected e, s') => h e now s'
    end.

(** [p.catch(err => console.error(..))] on a promise that is not awaited:
    the call has run, its rejection is dropped. *)
Definition fire_and_forget {S A} (m : Async S A) : Async S unit :=
  fun now s => (Resolved tt, snd (m now s)).

Declare Scope async_scope.
Delimit Scope async_scope with async.
Notation "x <- m ;; k" := (bind m (fun x => k))
  (at level 61, m at next level, right associativity) : async_scope.
Notation "m ;;; k" := (bind m (fun _ => k))
  (at level 61, right associativity) : async_scope.
Local Open Scope async_scope.

(** ** The insertion-ordered [Map<string, V>] of JavaScript *)

Module JsMap.
Section WithValue.
Context {V : Type}.

Definition t : Type := list (string * V).

Definition empty : t := [].

Fixpoint get (k : string) (m : t) : option V :=
  match m with
  | [] => None
  | (k', v) :: m' => if String.eqb k k' then Some v else get k m'
  end.

Definition has (k : string) (m : t) : bool :=
  match get k m with Some _ => true | None => false end.

(** An existing key keeps its place, a new key goes last. *)
Fixpoint set (k : string) (v : V) (m : t) : t :=
  match m with
  | [] => [(k, v)]
  | (k', v') :: m' =>
      if String.eqb k k' then (k, v) :: m' else (k', v') :: set k v m'
  end.

Definition delete (k : string) (m : t) : t :=
  filter (fun p => negb (String.eqb k (fst p))) m.

Definition size (m : t) : Z := Z.of_nat (List.length m).

Definition keys (m : t) : list string := map fst m.

  (** [m.keys().next().value] *)
Definition first_key (m : t) : option string :=
    match m with
    | [] => None
    | (k, _) :: _ => Some k
    end.
End WithValue.
Arguments t : clear implicits.
End JsMap.

(** ** core/interfaces.ts *)

Module CacheStats.
Record t : Type := mk {
    hits : Z;
    misses : Z;
    keys : Z;
    memory : Z;
    uptime : Z
  }.
End CacheStats.

(** [key: string | string[]] *)
Inductive KeyArg : Type :=
| OneKey (k : string)
| ManyKeys (ks : list string).

Module ICacheAdapter.
Class t (S : Type) : Type := {
    get : string -> Async S JsVal;
    set : string -> JsVal -> option Z -> Async S unit;
    delete : KeyArg -> Async S unit;
    clear : option string -> Async S unit;
    has : string -> Async S bool;
    mget : list string -> Async S (JsMap.t JsVal);
    mset : JsMap.t JsVal -> option Z -> Async S unit;
    keys : option string -> Async S (list string);
    stats : Async S CacheStats.t
  }.
End ICacheAdapter.

(** Truthiness of an optional number and of an optional string. *)
Definition truthy_num (n : option Z) : bool :=
  match n with Some z => negb (z =? 0) | None => false end.

Definition truthy_str (s : option string) : bool :=
  match s with Some s => negb (String.eqb s "") | None => false end.

(** [a || b] on numbers *)
Definition num_or (a : option Z) (b : Z) : Z :=
  match a with Some z => if z =? 0 then b else z | None => b end.

(** [a ?? b] on numbers *)
Definition num_coalesce (a : option Z) (b : Z) : Z :=
  match a with Some z => z | None => b end.

(** ** adapters/memory-adapter.ts *)

Module MemoryAdapter.

Record CacheEntry : Type := mkEntry {
  value : JsVal;
  expiresAt : Z
}.

Record MemoryAdapterOptions : Type := mkOptions {
  max : option Z;
  maxSize : option Z
}.

Record t : Type := mk {
  cache : JsMap.t CacheEntry;
  options : MemoryAdapterOptions;
  hits : Z;
  misses : Z;
  startTime : Z
}.

Definition with_cache (c : JsMap.t CacheEntry) (s : t) : t :=
  mk c (options s) (hits s) (misses s) (startTime s).

Definition hit (s : t) : t :=
  mk (cache s) (options s) (hits s + 1) (misses s) (startTime s).

Definition miss (s : t) : t :=
  mk (cache s) (options s) (hits s) (misses s + 1) (startTime s).

(** [constructor(options = {})], run when the clock shows [now].
    The periodic [setInterval] sweep is [cleanup], called from outside. *)
Definition constructor (opts : MemoryAdapterOptions) (now : Z) : t :=
  mk JsMap.empty
     (mkOptions (Some (num_or (max opts) 1000)) (maxSize opts))
     0 0 now.

(** [entry.expiresAt && entry.expiresAt < Date.now()] *)
Definition expired (entry : CacheEntry) (now : Z) : bool :=
  negb (expiresAt entry =? 0) && (expiresAt entry <? now).

Definition get (key : string) : Async t JsVal :=
  fun now s =>
    match JsMap.get key (cache s) with
    | None => (Resolved JNull, miss s)
    | Some entry =>
        if expired entry now
        then (Resolved JNull, miss (with_cache (JsMap.delete key (cache s)) s))
        else (Resolved (value entry), hit s)
    end.

(** The [if (firstKey)] test of [set]: a string is truthy when it is
    not empty, [undefined] is falsy. *)
Definition truthy_key (k : option string) : bool := truthy_str k.

Definition evict_oldest (c : JsMap.t CacheEntry) : JsMap.t CacheEntry :=
  match JsMap.first_key c with
  | Some firstKey =>
      if truthy_key (Some firstKey) then JsMap.delete firstKey c else c
  | None => c
  end.

Definition set (key : string) (v : JsVal) (ttl : option Z) : Async t unit :=
  fun now s =>
    let c :=
      if truthy_num (max (options s))
         && (num_coalesce (max (options s)) 0 <=? JsMap.size (cache s))
         && negb (JsMap.has key (cache s))
      then evict_oldest (cache s)
      else cache s in
    let expiresAt :=
      if truthy_num ttl then now + num_coalesce ttl 0 * 1000 else 0 in
    (Resolved tt, with_cache (JsMap.set key (mkEntry v expiresAt) c) s).

Definition delete (key : KeyArg) : Async t unit :=
  fun _ s =>
    match key with
    | ManyKeys ks =>
        (Resolved tt,
         with_cache (fold_left (fun c k => JsMap.delete k c) ks (cache s)) s)
    | OneKey k => (Resolved tt, with_cache (JsMap.delete k (cache s)) s)
    end.

(** *** [patternToRegex]: every character is escaped to itself except
    [*], which becomes [.*]; the result is anchored at both ends. *)
Inductive RegexTok : Type :=
| Lit (c : ascii)
| AnyRun.

Fixpoint patternToRegex (pattern : string) : list RegexTok :=
  match pattern with
  | EmptyString => []
  | String c rest =>
      (if Ascii.eqb c "*" then AnyRun else Lit c) :: patternToRegex rest
  end.

(** [.] does not match a line terminator. *)
Definition line_terminator (c : ascii) : bool :=
  Ascii.eqb c "010" || Ascii.eqb c "013".

(** [regex.test(key)] for [^...$] *)
Fixpoint regex_test (r : list RegexTok) (key : string) : bool :=
  match r with
  | [] => String.eqb key ""
  | Lit c :: r' =>
      match key with
      | String d key' => Ascii.eqb c d && regex_test r' key'
      | EmptyString => false
      end
  | AnyRun :: r' =>
      (fix run (k : string) : bool :=
         regex_test r' k
         || match k with
            | String d k' => negb (line_terminator d) && run k'
            | EmptyString => false
            end) key
  end.

Definition clear (pattern : option string) : Async t unit :=
  fun _ s =>
    match pattern with
    | Some p =>
        if truthy_str pattern then
          let regex := patternToRegex p in
          let keysToDelete := filter (regex_test regex) (JsMap.keys (cache s)) in
          (Resolved tt,
           with_cache
             (fold_left (fun c k => JsMap.delete k c) keysToDelete (cache s)) s)
        else (Resolved tt, with_cache JsMap.empty s)
    | None => (Resolved tt, with_cache JsMap.empty s)
    end.

Definition has (key : string) : Async t bool :=
  fun now s =>
    match JsMap.get key (cache s) with
    | None => (Resolved false, s)
    | Some entry =>
        if expired entry now
        then (Resolved false, with_cache (JsMap.delete key (cache s)) s)
        else (Resolved true, s)
    end.

Fixpoint mget_loop (keys : list string) (results : JsMap.t JsVal)
  : Async t (JsMap.t JsVal) :=
  match keys with
  | [] => ret results
  | key :: keys' =>
      v <- get key ;;
      mget_loop keys' (if not_null v then JsMap.set key v results else results)
  end.

Definition mget (keys : list string) : Async t (JsMap.t JsVal) :=
  mget_loop keys JsMap.empty.

Fixpoint mset (entries : JsMap.t JsVal) (ttl : option Z) : Async t unit :=
  match entries with
  | [] => ret tt
  | (key, v) :: entries' => set key v ttl ;;; mset entries' ttl
  end.

Definition keys (pattern : option string) : Async t (list string) :=
  fun _ s =>
    let allKeys := JsMap.keys (cache s) in
    match pattern with
    | Some p =>
        if truthy_str pattern
        then (Resolved (filter (regex_test (patternToRegex p)) allKeys), s)
        else (Resolved allKeys, s)
    | None => (Resolved allKeys, s)
    end.

Definition cleanup (now : Z) (s : t) : t :=
  let keysToDelete :=
    JsMap.keys (filter (fun p => expired (snd p) now) (cache s)) in
  with_cache (fold_left (fun c k => JsMap.delete k c) keysToDelete (cache s)) s.

Section WithRuntime.
Context {rt : JsRuntime}.

(** [JSON.stringify(entry.value).length] raises a [TypeError] when
    [JSON.stringify] answers [undefined]. *)
Fixpoint estimateMemoryUsage (c : JsMap.t CacheEntry) (size : Z)
  : Completion Z :=
  match c with
  | [] => Resolved size
  | (key, entry) :: c' =>
      match JSON_stringify (value entry) with
      | Some valueStr =>
          estimateMemoryUsage c'
            (size + Z.of_nat (String.length key) * 2
                  + Z.of_nat (String.length valueStr) * 2 + 16)
      | None => Rejected (Thrown "TypeError")
      end
  end.

Definition stats : Async t CacheStats.t :=
  fun now s =>
    let s' := cleanup now s in
    match estimateMemoryUsage (cache s') 0 with
    | Resolved mem =>
        (Resolved (CacheStats.mk (hits s') (misses s')
                     (JsMap.size (cache s')) mem (now - startTime s')), s')
    | Rejected e => (Rejected e, s')
    end.

#[global] Instance adapter : ICacheAdapter.t t := {
  ICacheAdapter.get := get;
  ICacheAdapter.set := set;
  ICacheAdapter.delete := delete;
  ICacheAdapter.clear := clear;
  ICacheAdapter.has := has;
  ICacheAdapter.mget := mget;
  ICacheAdapter.mset := mset;
  ICacheAdapter.keys := keys;
  ICacheAdapter.stats := stats
}.
End WithRuntime.

End MemoryAdapter.

(** ** adapters/multi-tier-adapter.ts *)

Module MultiTierAdapter.
Section WithTiers.
Context {S1 S2 : Type} {A1 : ICacheAdapter.t S1} {A2 : ICacheAdapter.t S2}.

Record MultiTierOptions : Type := mkOptions {
  opt_l1 : S1;
  opt_l2 : S2;
  opt_l1TTL : option Z;
  opt_l2TTL : option Z
}.

Record t : Type := mk {
  l1 : S1;
  l2 : S2;
  l1TTL : Z;
  l2TTL : Z
}.

Definition constructor (options : MultiTierOptions) : t :=
  mk (opt_l1 options) (opt_l2 options)
     (num_or (opt_l1TTL options) 300)
     (num_or (opt_l2TTL options) 3600).

(** [this.l1.method(..)] and [this.l2.method(..)] *)
Definition on_l1 {A} (m : Async S1 A) : Async t A :=
  fun now s =>
    let (r, s1) := m now (l1 s) in (r, mk s1 (l2 s) (l1TTL s) (l2TTL s)).

Definition on_l2 {A} (m : Async S2 A) : Async t A :=
  fun now s =>
    let (r, s2) := m now (l2 s) in (r, mk (l1 s) s2 (l1TTL s) (l2TTL s)).

(** [await Promise.all([a, b])]: both calls are made, in this order,
    whatever the first one answers; the first rejection is raised. *)
Definition promise_all {S A B} (a : Async S A) (b : Async S B)
  : Async S (A * B) :=
  fun now s =>
    let (ra, sa) := a now s in
    let (rb, sb) := b now sa in
    match ra, rb with
    | Resolved x, Resolved y => (Resolved (x, y), sb)
    | Rejected e, _ => (Rejected e, sb)
    | _, Rejected e => (Rejected e, sb)
    end.

Definition get (key : string) : Async t JsVal :=
  fun now s =>
    (l1Value <- on_l1 (ICacheAdapter.get key) ;;
     if not_null l1Value then ret l1Value
     else
       l2Value <- on_l2 (ICacheAdapter.get key) ;;
       if not_null l2Value then
         fire_and_forget
           (on_l1 (ICacheAdapter.set key l2Value (Some (l1TTL s)))) ;;;
         ret l2Value
       else ret JNull) now s.

Definition set (key : string) (v : JsVal) (ttl : option Z) : Async t unit :=
  fun now s =>
    (promise_all
       (on_l1 (ICacheAdapter.set key v (Some (num_or ttl (l1TTL s)))))
       (on_l2 (ICacheAdapter.set key v (Some (num_or ttl (l2TTL s))))) ;;;
     ret tt) now s.

Definition delete (key : KeyArg) : Async t unit :=
  promise_all (on_l1 (ICacheAdapter.delete key))
              (on_l2 (ICacheAdapter.delete key)) ;;;
  ret tt.

Definition clear (pattern : option string) : Async t unit :=
  promise_all (on_l1 (ICacheAdapter.clear pattern))
              (on_l2 (ICacheAdapter.clear pattern)) ;;;
  ret tt.

Definition has (key : string) : Async t bool :=
  l1Has <- on_l1 (ICacheAdapter.has key) ;;
  if (l1Has : bool) then ret true else on_l2 (ICacheAdapter.has key).

Definition mget (keys : list string) : Async t (JsMap.t JsVal) :=
  fun now s =>
    (l1Results <- on_l1 (ICacheAdapter.mget keys) ;;
     let missingKeys :=
       filter (fun key => negb (JsMap.has key l1Results)) keys in
     if (List.length missingKeys =? 0)%nat then ret l1Results
     else
       l2Results <- on_l2 (ICacheAdapter.mget missingKeys) ;;
       (if 0 <? JsMap.size l2Results
        then fire_and_forget
               (on_l1 (ICacheAdapter.mset l2Results (Some (l1TTL s))))
        else ret tt) ;;;
       ret (fold_left (fun combined p => JsMap.set (fst p) (snd p) combined)
                      l2Results l1Results)) now s.

Definition mset (entries : JsMap.t JsVal) (ttl : option Z) : Async t unit :=
  fun now s =>
    (promise_all
       (on_l1 (ICacheAdapter.mset entries (Some (num_or ttl (l1TTL s)))))
       (on_l2 (ICacheAdapter.mset entries (Some (num_or ttl (l2TTL s))))) ;;;
     ret tt) now s.

Definition keys (pattern : option string) : Async t (list string) :=
  on_l2 (ICacheAdapter.keys pattern).

(** The record [stats] builds from the two tiers' statistics. *)
Definition combine_stats (l1Stats l2Stats : CacheStats.t) : CacheStats.t :=
  CacheStats.mk
    (CacheStats.hits l1Stats + CacheStats.hits l2Stats)
    (Z.max (CacheStats.misses l1Stats) (CacheStats.misses l2Stats))
    (CacheStats.keys l2Stats)
    (CacheStats.memory l1Stats
     + (if 0 <? CacheStats.memory l2Stats
        then CacheStats.memory l2Stats else 0))
    (Z.min (CacheStats.uptime l1Stats) (CacheStats.uptime l2Stats)).

Definition stats : Async t CacheStats.t :=
  p <- promise_all (on_l1 ICacheAdapter.stats) (on_l2 ICacheAdapter.stats) ;;
  ret (combine_stats (fst p) (snd p)).

#[global] Instance adapter : ICacheAdapter.t t := {
  ICacheAdapter.get := get;
  ICacheAdapter.set := set;
  ICacheAdapter.delete := delete;
  ICacheAdapter.clear := clear;
  ICacheAdapter.has := has;
  ICacheAdapter.mget := mget;
  ICacheAdapter.mset := mset;
  ICacheAdapter.keys := keys;
  ICacheAdapter.stats := stats
}.
End WithTiers.
Arguments t : clear implicits.
Arguments MultiTierOptions : clear implicits.
End MultiTierAdapter.

(** ** core/cache-manager.ts *)

(** [fallback?: any | (() => any)]. A function receives [Some e] when it
    is called with the error [e] and [None] when it is called with no
    argument. *)
Inductive Fallback : Type :=
| FallbackValue (v : JsVal)
| FallbackFunction (f : option JsError -> Completion JsVal).

Record WrapOptions : Type := mkWrapOptions {
  wrap_ttl : option Z;
  wrap_condition : option (JsVal -> Completion bool);
  wrap_fallback : Fallback
}.

(** [options.fallback !== undefined] *)
Definition fallback_defined (f : Fallback) : bool :=
  match f with
  | FallbackValue JUndefined => false
  | _ => true
  end.

Module CacheManager.
Section WithAdapter.
Context {S : Type} {A : ICacheAdapter.t S}.

Record CacheConfig : Type := mkConfig {
  cfg_namespace : option string;
  cfg_defaultTTL : option Z;
  cfg_enableMetrics : option bool
}.

Record t : Type := mk {
  adapter : S;
  namespace : string;
  defaultTTL : Z;
  enableMetrics : bool
}.

Definition constructor (adapter : S) (config : CacheConfig) : t :=
  mk adapter
     (match cfg_namespace config with Some ns => ns | None => "" end)
     (num_or (cfg_defaultTTL config) 3600)
     (match cfg_enableMetrics config with Some b => b | None => false end).

(** [this.adapter.method(..)] *)
Definition on_adapter {R} (m : Async S R) : Async t R :=
  fun now s =>
    let (r, a) := m now (adapter s) in
    (r, mk a (namespace s) (defaultTTL s) (enableMetrics s)).

Definition buildKey (s : t) (key : string) : string :=
  if String.eqb (namespace s) "" then key
  else (namespace s ++ ":" ++ key)%string.

Definition removeNamespace (s : t) (fullKey : string) : string :=
  if String.eqb (namespace s) "" then fullKey
  else
    let prefix := (namespace s ++ ":")%string in
    if String.prefix prefix fullKey
    then String.substring (String.length prefix)
           (String.length fullKey - String.length prefix) fullKey
    else fullKey.

Definition get (key : string) : Async t JsVal :=
  fun now s => on_adapter (ICacheAdapter.get (buildKey s key)) now s.

Definition set (key : string) (v : JsVal) (ttl : option Z) : Async t unit :=
  fun now s =>
    let fullKey := buildKey s key in
    let effectiveTTL := num_coalesce ttl (defaultTTL s) in
    on_adapter (ICacheAdapter.set fullKey v (Some effectiveTTL)) now s.

Definition delete (key : KeyArg) : Async t unit :=
  fun now s =>
    match key with
    | ManyKeys ks =>
        on_adapter (ICacheAdapter.delete (ManyKeys (map (buildKey s) ks))) now s
    | OneKey k =>
        on_adapter (ICacheAdapter.delete (OneKey (buildKey s k))) now s
    end.

Definition clear (pattern : option string) : Async t unit :=
  fun now s =>
    let fullPattern :=
      match pattern with
      | Some p => if truthy_str pattern then Some (buildKey s p) else None
      | None => None
      end in
    on_adapter (ICacheAdapter.clear fullPattern) now s.

Definition has (key : string) : Async t bool :=
  fun now s => on_adapter (ICacheAdapter.has (buildKey s key)) now s.

Definition mget (keys : list string) : Async t (JsMap.t JsVal) :=
  fun now s =>
    (results <- on_adapter (ICacheAdapter.mget (map (buildKey s) keys)) ;;
     ret (fold_left
            (fun normalized p =>
               JsMap.set (removeNamespace s (fst p)) (snd p) normalized)
            results JsMap.empty)) now s.

Definition mset (entries : JsMap.t JsVal) (ttl : option Z) : Async t unit :=
  fun now s =>
    let fullEntries :=
      fold_left (fun m p => JsMap.set (buildKey s (fst p)) (snd p) m)
                entries JsMap.empty in
    let effectiveTTL := num_coalesce ttl (defaultTTL s) in
    on_adapter (ICacheAdapter.mset fullEntries (Some effectiveTTL)) now s.

(** [!options?.condition || options.condition(value)] *)
Definition shouldCache (options : option WrapOptions) (v : JsVal)
  : Async t bool :=
  match options with
  | Some o =>
      match wrap_condition o with
      | Some condition => fun _ s => (condition v, s)
      | None => ret true
      end
  | None => ret true
  end.

(** The [catch] block of [wrap]. *)
Definition handle_fallback (options : option WrapOptions) (error : JsError)
  : Async t JsVal :=
  match options with
  | Some o =>
      if fallback_defined (wrap_fallback o) then
        match wrap_fallback o with
        | FallbackFunction f => fun _ s => (f None, s)
        | FallbackValue v => ret v
        end
      else throw error
  | None => throw error
  end.

Definition wrap (key : string) (factory : Async t JsVal)
           (options : option WrapOptions) : Async t JsVal :=
  cached <- get key ;;
  if not_null cached then ret cached
  else
    try_catch
      (v <- factory ;;
       should <- shouldCache options v ;;
       (if (should : bool)
        then set key v (match options with
                        | Some o => wrap_ttl o
                        | None => None
                        end)
        else ret tt) ;;;
       ret v)
      (handle_fallback options).

Definition stats : Async t CacheStats.t := on_adapter ICacheAdapter.stats.

Definition keys (pattern : option string) : Async t (list string) :=
    fun now s =>
      let fullPattern :=
        match pattern with
        | Some p => if truthy_str pattern then Some (buildKey s p) else None
        | None => None
        end in
      (fullKeys <- on_adapter (ICacheAdapter.keys fullPattern) ;;
       ret (map (removeNamespace s) fullKeys)) now s.
End WithAdapter.
Arguments t : clear implicits.
End CacheManager.

(** ** utils/key-generator.ts *)

Module KeyGenerator.

(** What the scan of a key pattern meets: a character of literal text,
    or a [#{selector}] token with its selector. *)
Inductive Segment : Type :=
| Text (c : ascii)
| Token (expr : string).

Section WithRuntime.
Context {rt : JsRuntime}.

Definition is_digit (c : ascii) : bool :=
  let n := nat_of_ascii c in ((48 <=? n) && (n <=? 57))%nat.

Fixpoint all_digits (s : string) : bool :=
  match s with
  | EmptyString => true
  | String c s' => is_digit c && all_digits s'
  end.

(** [/^\d+$/.test(s)] *)
Definition is_index (s : string) : bool :=
  negb (String.eqb s "") && all_digits s.

(** [parseInt(s, 10)] on a string of digits *)
Fixpoint parseInt_from (acc : nat) (s : string) : nat :=
  match s with
  | EmptyString => acc
  | String c s' => parseInt_from (10 * acc + (nat_of_ascii c - 48))%nat s'
  end.

Definition parseInt (s : string) : nat := parseInt_from 0 s.

(** [args[index]] *)
Definition arg_at (args : list JsVal) (index : nat) : JsVal :=
  nth index args JUndefined.

(** [expr.includes('.')] *)
Fixpoint includes_dot (s : string) : bool :=
  match s with
  | EmptyString => false
  | String c s' => Ascii.eqb c "." || includes_dot s'
  end.

(** [expr.split('.')]: the first part and the parts after it *)
Fixpoint split_dot (s : string) : string * list string :=
  match s with
  | EmptyString => (EmptyString, [])
  | String c s' =>
      let (first, others) := split_dot s' in
      if Ascii.eqb c "." then (EmptyString, first :: others)
      else (String c first, others)
  end.

(** [String(n)] for an integer: the decimal digits within the safe range,
    [Number.MAX_SAFE_INTEGER] either way, and the host's text beyond. *)
Definition string_of_number (n : Z) : string :=
  if Z.abs n <=? 9007199254740991 then decimal n else Number_toString n.

Definition stringify (v : JsVal) : string :=
  match v with
  | JNull | JUndefined => ""
  | JStr s => s
  | JNum n => string_of_number n
  | JBool b => if b then "true" else "false"
  | JArr _ | JObj _ =>
      match JSON_stringify v with
      | Some s => s
      | None => "undefined"
      end
  end.

(** The [for (const prop of parts)] loop of [evaluatePropertyAccess]. *)
Fixpoint navigate (v : JsVal) (parts : list string) : string :=
  match parts with
  | [] => stringify v
  | prop :: parts' =>
      if nullish v then "" else navigate (getProperty v prop) parts'
  end.

Definition evaluatePropertyAccess (expr : string) (args : list JsVal)
  : string :=
  let (first, others) := split_dot expr in
  if is_index first
  then navigate (arg_at args (parseInt first)) others
  else navigate (arg_at args 0) (first :: others).

Definition evaluateExpression (expr : string) (args : list JsVal)
  : string :=
  if is_index expr then stringify (arg_at args (parseInt expr))
  else if includes_dot expr then evaluatePropertyAccess expr args
  else stringify (arg_at args 0).

(** *** The global replace over [/#\{([^}]+)\}/g] *)

(** The characters up to the first closing brace. *)
Fixpoint read_selector (s : string) : option string :=
  match s with
  | EmptyString => None
  | String c s' =>
      if Ascii.eqb c "}" then Some EmptyString
      else option_map (String c) (read_selector s')
  end.

(** A match of the pattern at the head of [s]: the captured selector. *)
Definition match_token (s : string) : option string :=
  match s with
  | String c1 (String c2 rest) =>
      if Ascii.eqb c1 "#" && Ascii.eqb c2 "{" then
        match read_selector rest with
        | Some expr => if String.eqb expr "" then None else Some expr
        | None => None
        end
      else None
  | _ => None
  end.

(** [pattern.replace(regex, callback)] walks the pattern from left to
    right: text outside a match is kept, each match is handed to the
    callback. [skip] counts the characters of the current match still
    to pass. *)
Fixpoint scan (skip : nat) (s : string) : list Segment :=
  match s with
  | EmptyString => []
  | String c rest =>
      match skip with
      | Datatypes.S n => scan n rest
      | O =>
          match match_token s with
          | Some expr => Token expr :: scan (String.length expr + 2) rest
          | None => Text c :: scan O rest
          end
      end
  end.

Definition replacement (args : list JsVal) (seg : Segment) : string :=
  match seg with
  | Text c => String c EmptyString
  | Token expr => evaluateExpression expr args
  end.

Definition render (args : list JsVal) (segs : list Segment) : string :=
  fold_right String.append EmptyString (map (replacement args) segs).

Definition parseExpression (pattern : string) (args : list JsVal)
  : string :=
  render args (scan O pattern).

Definition hashArgs (args : list JsVal) : string :=
  match JSON_stringify (JArr args) with
  | Some str => md5_hex16 str
  | None =>
      md5_hex16 (string_of_number (Z.of_nat (List.length args)))
  end.

Definition defaultKey (methodName : string) (args : list JsVal) : string :=
  (methodName ++ ":" ++ hashArgs args)%string.

Definition generate (pattern : option string) (args : list JsVal)
             (methodName : string) : string :=
    match pattern with
    | Some p =>
        if truthy_str pattern then parseExpression p args
        else defaultKey methodName args
    | None => defaultKey methodName args
    end.
End WithRuntime.
End KeyGenerator.

(** ** decorators/cache-manager-accessor.ts *)

Module CacheManagerAccessor.

Definition not_found : JsError :=
  Thrown ("CacheManager not found. Either inject CacheManager in your class constructor, "
          ++ "or call setGlobalCacheManager() before using decorators.").

Section WithManager.
Context {M : Type}.

(** The three places a manager is looked for: the [cacheManager]
    property of the instance, its [CACHE_MANAGER_KEY] property and the
    module's [globalCacheManager]. [None] is a place that is unset or
    holds a falsy value. *)
Record Places : Type := mkPlaces {
  cacheManager : option M;
  keyed : option M;
  globalCacheManager : option M
}.

Definition setGlobalCacheManager (manager : M) (p : Places) : Places :=
  mkPlaces (cacheManager p) (keyed p) (Some manager).

Definition getGlobalCacheManager (p : Places) : option M :=
  globalCacheManager p.

Definition getCacheManager (p : Places) : Completion M :=
  match cacheManager p with
  | Some m => Resolved m
  | None =>
      match keyed p with
      | Some m => Resolved m
      | None =>
          match globalCacheManager p with
          | Some m => Resolved m
          | None => Rejected not_found
          end
      end
  end.

Definition setCacheManager (manager : M) (p : Places) : Places :=
  mkPlaces (cacheManager p) (Some manager) (globalCacheManager p).
End WithManager.
Arguments Places : clear implicits.

(** A decorated method runs against the manager [getCacheManager] finds
    for its instance; the state of such a call is that manager, or
    [None] when none is found. [located body] is
    [const cacheManager = getCacheManager(this); body]. *)
Definition located {S A : Type} (body : Async S A) : Async (option S) A :=
  fun now found =>
    match found with
    | Some m => let (r, m') := body now m in (r, Some m')
    | None => (Rejected not_found, None)
    end.
End CacheManagerAccessor.

(** ** decorators/turbocache-evict.decorator.ts *)

Record TurboCacheEvictOptions : Type := mkEvictOptions {
  evict_key : option string;
  evict_allEntries : bool;
  evict_beforeInvocation : bool;
  evict_namespace : option string;
  evict_condition : option (JsVal -> list JsVal -> Completion bool)
}.

Module TurboCacheEvict.
Section WithManager.
Context {rt : JsRuntime} {S : Type} {A : ICacheAdapter.t S}.

Definition evictCache (result : JsVal) (args : list JsVal)
           (options : TurboCacheEvictOptions) (propertyKey : string)
  : Async (CacheManager.t S) unit :=
  proceed <- match evict_condition options with
             | Some condition => fun _ s => (condition result args, s)
             | None => ret true
             end ;;
  if negb proceed then ret tt
  else if evict_allEntries options
  then CacheManager.clear (evict_namespace options)
  else if truthy_str (evict_key options)
  then CacheManager.delete
         (OneKey (KeyGenerator.generate (evict_key options) args propertyKey))
  else ret tt.

  (** The function the decorator installs as [descriptor.value]. *)
Definition decorated (options : TurboCacheEvictOptions)
             (propertyKey : string)
             (originalMethod : list JsVal -> Async (CacheManager.t S) JsVal)
             (args : list JsVal) : Async (option (CacheManager.t S)) JsVal :=
  CacheManagerAccessor.located
    ((if evict_beforeInvocation options
      then evictCache JNull args options propertyKey
      else ret tt) ;;;
     try_catch
       (result <- originalMethod args ;;
        (if negb (evict_beforeInvocation options)
         then evictCache result args options propertyKey
         else ret tt) ;;;
        ret result)
       (fun error =>
          if evict_beforeInvocation options then throw error else throw error)).
End WithManager.
End TurboCacheEvict.

(** ** Test doubles and sample data *)

(** A runtime for closed examples: property lookup reads the fields of an
    object literal; the examples below never reach [JSON.stringify], the
    digest or a number beyond the safe range. *)
Fixpoint lookup_field (fields : list (string * JsVal)) (prop : string)
  : JsVal :=
  match fields with
  | [] => JUndefined
  | (name, v) :: fields' =>
      if String.eqb name prop then v else lookup_field fields' prop
  end.

Definition example_runtime : JsRuntime := {|
  JSON_stringify := fun _ => None;
  getProperty := fun v prop =>
    match v with
    | JObj fields => lookup_field fields prop
    | _ => JUndefined
    end;
  md5_hex16 := fun s => s;
  Number_toString := decimal
|}.

(** An adapter double, as a mock of [ICacheAdapter] in a unit test: every
    lookup misses, [stats] answers the record it was given, and [set]
    rejects when it was told to. It stands for a remote adapter such as
    [KeyvAdapter], whose [set] rejects with CONNECTION_ERROR when the
    store fails and whose [stats] reports -1 for a memory size it does
    not know. *)
Module StubAdapter.
Record t : Type := mk {
    answer : CacheStats.t;
    set_rejects : bool;
    set_calls : Z
  }.

Definition connection_error : JsError := Thrown "CONNECTION_ERROR".

Definition set (key : string) (v : JsVal) (ttl : option Z) : Async t unit :=
  fun _ s =>
    let s' := mk (answer s) (set_rejects s) (set_calls s + 1) in
    if set_rejects s then (Rejected connection_error, s')
    else (Resolved tt, s').

#[global] Instance adapter : ICacheAdapter.t t := {
  ICacheAdapter.get := fun _ => ret JNull;
  ICacheAdapter.set := set;
  ICacheAdapter.delete := fun _ => ret tt;
  ICacheAdapter.clear := fun _ => ret tt;
  ICacheAdapter.has := fun _ => ret false;
  ICacheAdapter.mget := fun _ => ret JsMap.empty;
  ICacheAdapter.mset := fun _ _ => ret tt;
  ICacheAdapter.keys := fun _ => ret [];
  ICacheAdapter.stats := fun _ s => (Resolved (answer s), s)
}.
End StubAdapter.

(** [await a; await b] on a store, each call with its own clock reading. *)
Definition after {S A} (m : Async S A) (now : Z) (s : S) : S := snd (m now s).

Definition outcome {S A} (m : Async S A) (now : Z) (s : S) : Completion A :=
  fst (m now s).

(** [new MemoryAdapter({ max: 2 })] *)
Definition store_max2 : MemoryAdapter.t :=
  MemoryAdapter.constructor (MemoryAdapter.mkOptions (Some 2) None) 0.

(** ** Histories of calls on a [MemoryAdapter] *)

(** The calls that can change a memory adapter, each with its clock
    reading where the method reads the clock. [OpSweep] is [cleanup]:
    the timer runs it, and [stats()] runs it before it counts. *)
Inductive Op : Type :=
| OpGet (key : string) (now : Z)
| OpHas (key : string) (now : Z)
| OpMget (keys : list string) (now : Z)
| OpSet (key : string) (v : JsVal) (ttl : option Z) (now : Z)
| OpMset (entries : JsMap.t JsVal) (ttl : option Z) (now : Z)
| OpDelete (key : KeyArg)
| OpClear (pattern : option string)
| OpSweep (now : Z).

Definition run_op (s : MemoryAdapter.t) (op : Op) : MemoryAdapter.t :=
  match op with
  | OpGet key now => after (MemoryAdapter.get key) now s
  | OpHas key now => after (MemoryAdapter.has key) now s
  | OpMget keys now => after (MemoryAdapter.mget keys) now s
  | OpSet key v ttl now => after (MemoryAdapter.set key v ttl) now s
  | OpMset entries ttl now => after (MemoryAdapter.mset entries ttl) now s
  | OpDelete key => after (MemoryAdapter.delete key) 0 s
  | OpClear pattern => after (MemoryAdapter.clear pattern) 0 s
  | OpSweep now => MemoryAdapter.cleanup now s
  end.

Definition run (ops : list Op) (s : MemoryAdapter.t) : MemoryAdapter.t :=
  fold_left run_op ops s.

(** The call stores under [k]. *)
Definition overwrites (k : string) (op : Op) : bool :=
  match op with
  | OpSet key _ _ _ => String.eqb key k
  | OpMset entries _ _ => existsb (fun p => String.eqb (fst p) k) entries
  | _ => false
  end.

(** The key that [set(key, ..)] evicts from [s], when it evicts one. *)
Definition evicted_by (key : string) (s : MemoryAdapter.t) : option string :=
  if truthy_num (MemoryAdapter.max (MemoryAdapter.options s))
     && (num_coalesce (MemoryAdapter.max (MemoryAdapter.options s)) 0
         <=? JsMap.size (MemoryAdapter.cache s))
     && negb (JsMap.has key (MemoryAdapter.cache s))
  then
    match JsMap.first_key (MemoryAdapter.cache s) with
    | Some firstKey =>
        if MemoryAdapter.truthy_key (Some firstKey) then Some firstKey
        else None
    | None => None
    end
  else None.

(** [set(key, ..)] on [s] overwrites the entry of [k] or evicts it. *)
Definition set_disturbs (k key : string) (s : MemoryAdapter.t) : bool :=
  String.eqb key k
  || match evicted_by key s with
     | Some firstKey => String.eqb firstKey k
     | None => false
     end.

Fixpoint mset_disturbs (k : string) (entries : JsMap.t JsVal)
         (ttl : option Z) (now : Z) (s : MemoryAdapter.t) : bool :=
  match entries with
  | [] => false
  | (key, v) :: entries' =>
      set_disturbs k key s
      || mset_disturbs k entries' ttl now
           (after (MemoryAdapter.set key v ttl) now s)
  end.

(** The call, made on [s], deletes, overwrites or evicts the entry of
    [k]. Reads are not in the list: what a read removes is an expired
    entry. *)
Definition disturbs (k : string) (s : MemoryAdapter.t) (op : Op) : bool :=
  match op with
  | OpSet key _ _ _ => set_disturbs k key s
  | OpMset entries ttl now => mset_disturbs k entries ttl now s
  | OpDelete (OneKey key) => String.eqb key k
  | OpDelete (ManyKeys ks) => existsb (String.eqb k) ks
  | OpClear pattern =>
      match pattern with
      | Some p =>
          if truthy_str pattern
          then MemoryAdapter.regex_test (MemoryAdapter.patternToRegex p) k
          else true
      | None => true
      end
  | OpGet _ _ | OpHas _ _ | OpMget _ _ | OpSweep _ => false
  end.

(** No call of the history deletes, overwrites or evicts the entry of [k]. *)
Fixpoint undisturbed (k : string) (ops : list Op) (s : MemoryAdapter.t)
  : bool :=
  match ops with
  | [] => true
  | op :: ops' => negb (disturbs k s op) && undisturbed k ops' (run_op s op)
  end.

(** The call stores under the empty string. *)
Definition stores_empty_key (op : Op) : bool := overwrites EmptyString op.

(** A store bounded at [N] that is within its bound and holds no entry
    under the empty string. *)
Definition within_bound (N : Z) (s : MemoryAdapter.t) : Prop :=
  MemoryAdapter.max (MemoryAdapter.options s) = Some N
  /\ JsMap.size (MemoryAdapter.cache s) <= N
  /\ ~ In EmptyString (JsMap.keys (MemoryAdapter.cache s)).

(** An entry for [k] that holds [v] and carries no expiry. *)
Definition stored_for_good (k : string) (v : JsVal) (s : MemoryAdapter.t)
  : Prop :=
  JsMap.get k (MemoryAdapter.cache s) = Some (MemoryAdapter.mkEntry v 0).

(** A [Map] holds a key once. *)
Definition well_formed (s : MemoryAdapter.t) : Prop :=
  NoDup (JsMap.keys (MemoryAdapter.cache s)).

(** The entry stored under [key], if any. *)
Definition entry_of (key : string) (s : MemoryAdapter.t)
  : option MemoryAdapter.CacheEntry :=
  JsMap.get key (MemoryAdapter.cache s).

(** What a read can do to the entry of [k]: leave it, or remove it. *)
Definition kept_or_gone (k : string) (s s' : MemoryAdapter.t) : Prop :=
  entry_of k s' = entry_of k s \/ entry_of k s' = None.

(** The counters after a call, against the counters before it. *)
Definition counted_hit (s s' : MemoryAdapter.t) : Prop :=
  MemoryAdapter.hits s' = MemoryAdapter.hits s + 1
  /\ MemoryAdapter.misses s' = MemoryAdapter.misses s.

Definition counted_miss (s s' : MemoryAdapter.t) : Prop :=
  MemoryAdapter.hits s' = MemoryAdapter.hits s
  /\ MemoryAdapter.misses s' = MemoryAdapter.misses s + 1.

Definition counted_nothing (s s' : MemoryAdapter.t) : Prop :=
  MemoryAdapter.hits s' = MemoryAdapter.hits s
  /\ MemoryAdapter.misses s' = MemoryAdapter.misses s.

(** Whether [key] has an entry that is not expired at clock reading
    [now]. *)
Definition present_unexpired (key : string) (now : Z) (s : MemoryAdapter.t)
  : bool :=
  match entry_of key s with
  | Some entry => negb (MemoryAdapter.expired entry now)
  | None => false
  end.

(** How many of the listed keys pass a test, a key counting as often as
    it is listed. *)
Definition count_where (test : string -> bool) (keys : list string) : Z :=
  Z.of_nat (List.length (filter test keys)).

(** ** The sentences of the specification that the code departs from,
    written as they stand *)

(** "At or after the expiry instant [get] is absent and [has] is false." *)
Definition expired_at_or_after_instant : Prop :=
  forall (s : MemoryAdapter.t) (k : string) (v : JsVal) (ttl t0 t : Z),
    0 < ttl ->
    t0 + ttl * 1000 <= t ->
    let s1 := after (MemoryAdapter.set k v (Some ttl)) t0 s in
    outcome (MemoryAdapter.get k) t s1 = Resolved JNull
    /\ outcome (MemoryAdapter.has k) t s1 = Resolved false.

(** "Each resolved [has] increments exactly one of the two counters." *)
Definition has_counts_once : Prop :=
  forall (s : MemoryAdapter.t) (k : string) (now : Z),
    let s' := after (MemoryAdapter.has k) now s in
    MemoryAdapter.hits s' + MemoryAdapter.misses s'
    = MemoryAdapter.hits s + MemoryAdapter.misses s + 1.

(** "[clear(pattern)] goes to the cold tier only: it deletes no entry
    from the hot tier." Both tiers are memory adapters here. *)
Definition clear_pattern_spares_hot_tier : Prop :=
  forall (rt : JsRuntime)
         (s : MultiTierAdapter.t MemoryAdapter.t MemoryAdapter.t)
         (pattern : string) (now : Z),
    MemoryAdapter.cache
      (MultiTierAdapter.l1 (after (MultiTierAdapter.clear (Some pattern)) now s))
    = MemoryAdapter.cache (MultiTierAdapter.l1 s).

(** A tiered store over two doubles that answer the given statistics. *)
Definition tiers_answering (st1 st2 : CacheStats.t)
  : MultiTierAdapter.t StubAdapter.t StubAdapter.t :=
  MultiTierAdapter.constructor
    (MultiTierAdapter.mkOptions
       (StubAdapter.mk st1 false 0) (StubAdapter.mk st2 false 0) None None).

(** "For every pair of tier statistics, memory is the sum of both." *)
Definition tiered_memory_is_sum : Prop :=
  forall (st1 st2 : CacheStats.t) (now : Z),
  exists st,
    outcome MultiTierAdapter.stats now (tiers_answering st1 st2) = Resolved st
    /\ CacheStats.hits st = CacheStats.hits st1 + CacheStats.hits st2
    /\ CacheStats.misses st
       = Z.max (CacheStats.misses st1) (CacheStats.misses st2)
    /\ CacheStats.keys st = CacheStats.keys st2
    /\ CacheStats.memory st = CacheStats.memory st1 + CacheStats.memory st2.

(** A memory adapter holding [user:1], [user:2] and [order:1]. *)
Definition store_with_users : MemoryAdapter.t :=
  run [OpSet "user:1" (JStr "Alice") None 1;
       OpSet "user:2" (JStr "Bob") None 2;
       OpSet "order:1" (JNum 42) None 3]
      (MemoryAdapter.constructor (MemoryAdapter.mkOptions None None) 0).

(** A hot tier holding [user:1] over an empty cold tier. *)
Definition hot_user1 : MultiTierAdapter.t MemoryAdapter.t MemoryAdapter.t :=
  MultiTierAdapter.constructor
    (MultiTierAdapter.mkOptions
       (after (MemoryAdapter.set "user:1" (JStr "Alice") None) 1 store_max2)
       store_max2 None None).

(** The ttl [wrap] hands to [set]: [options?.ttl]. *)
Definition ttl_of (options : option WrapOptions) : option Z :=
  match options with
  | Some o => wrap_ttl o
  | None => None
  end.

(** A condition that, when there is one, answers without raising. *)
Definition condition_answers (options : option WrapOptions) (v : JsVal)
  : Prop :=
  match options with
  | Some o =>
      match wrap_condition o with
      | Some condition => exists b, condition v = Resolved b
      | None => True
      end
  | None => True
  end.

(** "If the lookup misses and compute returns [v], [wrap] returns [v]
    even when the store that follows fails." *)
Definition store_failure_never_masks : Prop :=
  forall (S : Type) (A : ICacheAdapter.t S) (m m1 m2 : CacheManager.t S)
         (key : string) (factory : Async (CacheManager.t S) JsVal)
         (options : option WrapOptions) (now : Z) (v : JsVal),
    CacheManager.get key now m = (Resolved JNull, m1) ->
    factory now m1 = (Resolved v, m2) ->
    condition_answers options v ->
    outcome (CacheManager.wrap key factory options) now m = Resolved v.

(** "When compute fails, a function-valued fallback is invoked with the
    failure as its argument and its result is returned." *)
Definition fallback_receives_failure : Prop :=
  forall (S : Type) (A : ICacheAdapter.t S) (m m1 m2 : CacheManager.t S)
         (key : string) (factory : Async (CacheManager.t S) JsVal)
         (ttl : option Z) (condition : option (JsVal -> Completion bool))
         (f : option JsError -> Completion JsVal) (now : Z) (e : JsError),
    CacheManager.get key now m = (Resolved JNull, m1) ->
    factory now m1 = (Rejected e, m2) ->
    outcome (CacheManager.wrap key factory
               (Some (mkWrapOptions ttl condition (FallbackFunction f))))
            now m
    = f (Some e).

(** [new MemoryAdapter({ max: 2 })] after [set('k', 'v')]. *)
Definition store_with_k : MemoryAdapter.t :=
  after (MemoryAdapter.set "k" (JStr "v") None) 1 store_max2.

(** A manager over a double whose [set] rejects. *)
Definition manager_with_failing_store : CacheManager.t StubAdapter.t :=
  CacheManager.constructor
    (StubAdapter.mk (CacheStats.mk 0 0 0 0 0) true 0)
    (CacheManager.mkConfig None None None).

(** That manager once its adapter has been asked to store. *)
Definition store_attempted (m : CacheManager.t StubAdapter.t)
  : CacheManager.t StubAdapter.t :=
  CacheManager.mk
    (StubAdapter.mk (StubAdapter.answer (CacheManager.adapter m))
       (StubAdapter.set_rejects (CacheManager.adapter m))
       (StubAdapter.set_calls (CacheManager.adapter m) + 1))
    (CacheManager.namespace m) (CacheManager.defaultTTL m)
    (CacheManager.enableMetrics m).

(** A manager over an empty memory adapter. *)
Definition manager_in_memory : CacheManager.t MemoryAdapter.t :=
  CacheManager.constructor store_max2 (CacheManager.mkConfig None None None).

(** The memory adapter of the closed examples. *)
Definition memory_tier : ICacheAdapter.t MemoryAdapter.t :=
  MemoryAdapter.adapter (rt := example_runtime).

(** That manager after a lookup of [k] that missed at clock reading 5. *)
Definition manager_after_miss : CacheManager.t MemoryAdapter.t :=
  after (CacheManager.get (A := memory_tier) "k") 5 manager_in_memory.

(** [(error) => error ? error.message : 'called without an error'] *)
Definition describe_error (error : option JsError) : Completion JsVal :=
  match error with
  | Some (Thrown message) => Resolved (JStr message)
  | None => Resolved (JStr "called without an error")
  end.

(** "A token whose selector is none of the four forms, such as a bare
    identifier, is replaced by the empty string." [before] and [after]
    are what the scan meets on either side of the token. *)
Definition unknown_selector_gives_empty : Prop :=
  forall (rt : JsRuntime) (pattern : string) (args : list JsVal)
         (methodName : string)
         (before after : list KeyGenerator.Segment) (expr : string),
    KeyGenerator.scan O pattern
    = (before ++ KeyGenerator.Token expr :: after)%list ->
    KeyGenerator.is_index expr = false ->
    KeyGenerator.includes_dot expr = false ->
    expr <> "result" ->
    KeyGenerator.generate (Some pattern) args methodName
    = (KeyGenerator.render args before ++ KeyGenerator.render args after)%string.


(** A manager over a memory adapter that holds [user:7]. *)
Definition manager_with_user7 : CacheManager.t MemoryAdapter.t :=
  after (CacheManager.set (A := memory_tier) "user:7" (JStr "Alice") (Some 0))
        1 manager_in_memory.


(** ** Further vocabulary *)

(** The value [get] finds under [k] at clock reading [now]: that of an
    entry that is there and not expired. *)
Definition live_value (k : string) (now : Z) (s : MemoryAdapter.t)
  : option JsVal :=
  match entry_of k s with
  | Some entry =>
      if MemoryAdapter.expired entry now then None
      else Some (MemoryAdapter.value entry)
  | None => None
  end.

(** What [mget] reports for [k]: a live value that is not null. *)
Definition reported_value (k : string) (now : Z) (s : MemoryAdapter.t)
  : option JsVal :=
  match live_value k now s with
  | Some v => if not_null v then Some v else None
  | None => None
  end.

(** The keys a [delete] call names. *)
Definition keys_named (target : KeyArg) : list string :=
  match target with
  | OneKey k => [k]
  | ManyKeys ks => ks
  end.

Fixpoint has_char (c : ascii) (s : string) : bool :=
  match s with
  | EmptyString => false
  | String d s' => Ascii.eqb c d || has_char c s'
  end.

Fixpoint no_line_terminator (s : string) : bool :=
  match s with
  | EmptyString => true
  | String d s' => negb (MemoryAdapter.line_terminator d) && no_line_terminator s'
  end.

(** A runtime for closed examples that store numbers of the safe range,
    booleans and null: [JSON.stringify] is exact on those and is not
    asked about anything else there. *)
Definition scalar_runtime : JsRuntime := {|
  JSON_stringify := fun v =>
    match v with
    | JNum n => Some (decimal n)
    | JBool b => Some (if b then "true" else "false")
    | JNull => Some "null"
    | _ => None
    end;
  getProperty := fun v prop =>
    match v with
    | JObj fields => lookup_field fields prop
    | _ => JUndefined
    end;
  md5_hex16 := fun s => s;
  Number_toString := decimal
|}.

(** [new MemoryAdapter({ max: 2 })] after [set('a', 1)] and [set('b', 2)],
    the second with a ttl of one second. *)
Definition store_a_b : MemoryAdapter.t :=
  run [OpSet "a" (JNum 1) None 1; OpSet "b" (JNum 2) (Some 1) 2] store_max2.

(** Whether a memory tier holds a live entry under [k]. *)
Definition holds_live (k : string) (now : Z) (s : MemoryAdapter.t) : bool :=
  match live_value k now s with
  | Some _ => true
  | None => false
  end.

(** A tiered store over two memory adapters: the hot tier is empty, the
    cold tier holds [user:1]; the tier TTLs are the defaults, 300 and
    3600 seconds. *)
Definition cold_user1 : MultiTierAdapter.t MemoryAdapter.t MemoryAdapter.t :=
  MultiTierAdapter.constructor
    (MultiTierAdapter.mkOptions
       store_max2
       (after (MemoryAdapter.set "user:1" (JStr "Alice") None) 1 store_max2)
       None None).

(** A tiered store whose hot tier rejects every [set] and whose cold tier
    is a memory adapter holding [user:1]. *)
Definition failing_hot_tier : MultiTierAdapter.t StubAdapter.t MemoryAdapter.t :=
  MultiTierAdapter.constructor
    (MultiTierAdapter.mkOptions
       (StubAdapter.mk (CacheStats.mk 0 0 0 0 0) true 0)
       (after (MemoryAdapter.set "user:1" (JStr "Alice") None) 1 store_max2)
       None None).

(** Two managers over one adapter, as two services that share a store
    under different namespaces. *)
Definition manager_in (ns : string) (a : MemoryAdapter.t)
  : CacheManager.t MemoryAdapter.t :=
  CacheManager.mk a ns 3600 false.

(** The ttl a manager hands to the adapter for [set(key, value, ttl)]. *)
Definition effective_ttl {S : Type} (ttl : option Z) (m : CacheManager.t S)
  : Z :=
  num_coalesce ttl (CacheManager.defaultTTL m).

(** The segments of a pattern in which the scan finds no token. *)
Fixpoint texts (p : string) : list KeyGenerator.Segment :=
  match p with
  | EmptyString => []
  | String c p' => KeyGenerator.Text c :: texts p'
  end.

(** The condition of an eviction lets the call through, given the result
    it is shown. *)
Definition condition_accepts (options : TurboCacheEvictOptions)
           (result : JsVal) (args : list JsVal) : Prop :=
  match evict_condition options with
  | Some condition => condition result args = Resolved true
  | None => True
  end.

(** A manager with namespace [app] over a memory adapter that holds
    [app:users:7]. *)
Definition users_manager : CacheManager.t MemoryAdapter.t :=
  CacheManager.mk
    (after (MemoryAdapter.set "app:users:7" (JStr "Ada") None) 1 store_max2)
    "app" 3600 false.

(** ** decorators/turbocache-put.decorator.ts *)

(** The options the decorator reads; [store] and [namespace] are
    declared and never read. *)
Record TurboCachePutOptions : Type := mkPutOptions {
  put_key : string;
  put_ttl : option Z;
  put_condition : option (JsVal -> list JsVal -> Completion bool)
}.

(** [String(v)]; an object is a plain one, with the inherited
    [toString]. *)
Fixpoint js_String {rt : JsRuntime} (v : JsVal) : string :=
  match v with
  | JUndefined => "undefined"
  | JNull => "null"
  | JBool b => if b then "true" else "false"
  | JNum n => KeyGenerator.string_of_number n
  | JStr s => s
  | JArr items =>
      (fix join (l : list JsVal) : string :=
         match l with
         | [] => ""
         | x :: l' =>
             let head := if nullish x then "" else js_String x in
             match l' with
             | [] => head
             | _ :: _ => head ++ "," ++ join l'
             end
         end) items
  | JObj _ => "[object Object]"
  end.

(** [String(v ?? '')] *)
Definition string_or_empty {rt : JsRuntime} (v : JsVal) : string :=
  if nullish v then "" else js_String v.

(** What is left of [s] after its first [n] characters. *)
Fixpoint string_drop (n : nat) (s : string) : string :=
  match n, s with
  | O, _ => s
  | Datatypes.S n', String _ s' => string_drop n' s'
  | Datatypes.S _, EmptyString => EmptyString
  end.

(** What a replacement string stands for at a match of a regular
    expression without groups: [$$] is a dollar sign, [$&] the match,
    [$`] the text before it, [$'] the text after it; any other
    character, a lone dollar sign too, stands for itself. *)
Fixpoint expand (replacement matched before after : string) : string :=
  match replacement with
  | EmptyString => EmptyString
  | String d tail =>
      if Ascii.eqb d "$" then
        match tail with
        | String c rest =>
            if Ascii.eqb c "$"
            then String "$" (expand rest matched before after)
            else if Ascii.eqb c "&"
            then matched ++ expand rest matched before after
            else if Ascii.eqb c "`"
            then before ++ expand rest matched before after
            else if Ascii.eqb c "'"
            then after ++ expand rest matched before after
            else String d (expand tail matched before after)
        | EmptyString => String d EmptyString
        end
      else String d (expand tail matched before after)
  end.

Module TurboCachePut.

Definition key_required : JsError :=
  Thrown ("@TurboCachePut requires a " ++ String "034" "key"
          ++ String "034" " option").

Section WithManager.
Context {rt : JsRuntime} {S : Type} {A : ICacheAdapter.t S}.

(** The [for (const part of parts)] loop of [getNestedProperty]. *)
Fixpoint walk (current : JsVal) (parts : list string) : JsVal :=
  match parts with
  | [] => current
  | part :: parts' =>
      if nullish current then JUndefined
      else walk (getProperty current part) parts'
  end.

Definition getNestedProperty (obj : JsVal) (path : string) : JsVal :=
  let (first, others) := KeyGenerator.split_dot path in
  walk obj (first :: others).

(** A match of [/#\{result\.([^}]+)\}/] at the head of [s]: the
    captured path. *)
Definition match_result_path (s : string) : option string :=
  if String.prefix "#{result." s then
    match KeyGenerator.read_selector (string_drop 9 s) with
    | Some prop => if String.eqb prop "" then None else Some prop
    | None => None
    end
  else None.

(** The first [replace] of [generateKeyWithResult], with its callback;
    [skip] counts the characters of the current match still to pass. *)
Fixpoint replace_result_paths (result : JsVal) (skip : nat) (s : string)
  : string :=
  match s with
  | EmptyString => EmptyString
  | String c rest =>
      match skip with
      | Datatypes.S n => replace_result_paths result n rest
      | O =>
          match match_result_path s with
          | Some prop =>
              string_or_empty (getNestedProperty result prop)
              ++ replace_result_paths result (String.length prop + 9) rest
          | None => String c (replace_result_paths result O rest)
          end
      end
  end.

(** The second [replace], of [/#\{result\}/g] by a replacement string;
    [before] is the text that precedes the character at hand. *)
Fixpoint replace_result_whole (replacement before : string) (skip : nat)
         (s : string) : string :=
  match s with
  | EmptyString => EmptyString
  | String c rest =>
      let before' := (before ++ String c EmptyString)%string in
      match skip with
      | Datatypes.S n => replace_result_whole replacement before' n rest
      | O =>
          if String.prefix "#{result}" s then
            expand replacement "#{result}" before (string_drop 8 rest)
            ++ replace_result_whole replacement before' 8 rest
          else String c (replace_result_whole replacement before' O rest)
      end
  end.

Definition generateKeyWithResult (pattern : string) (args : list JsVal)
           (result : JsVal) (methodName : string) : string :=
  let processedPattern := replace_result_paths result O pattern in
  let processedPattern :=
    replace_result_whole (string_or_empty result) "" O processedPattern in
  KeyGenerator.generate (Some processedPattern) args methodName.

(** The function the decorator installs as [descriptor.value]. *)
Definition decorated (options : TurboCachePutOptions) (propertyKey : string)
           (originalMethod : list JsVal -> Async (CacheManager.t S) JsVal)
           (args : list JsVal) : Async (option (CacheManager.t S)) JsVal :=
  CacheManagerAccessor.located
    (try_catch
       (result <- originalMethod args ;;
        proceed <- match put_condition options with
                   | Some condition => fun _ s => (condition result args, s)
                   | None => ret true
                   end ;;
        if negb proceed then ret result
        else
          let cacheKey :=
            generateKeyWithResult (put_key options) args result propertyKey in
          fire_and_forget
            (CacheManager.set cacheKey result (put_ttl options)) ;;;
          ret result)
       (fun error => throw error)).

(** [TurboCachePut(options)] applied to a method. *)
Definition TurboCachePut (options : TurboCachePutOptions)
           (propertyKey : string)
           (originalMethod : list JsVal -> Async (CacheManager.t S) JsVal)
  : Completion (list JsVal -> Async (option (CacheManager.t S)) JsVal) :=
  if String.eqb (put_key options) "" then Rejected key_required
  else Resolved (decorated options propertyKey originalMethod).
End WithManager.
End TurboCachePut.

(** ** decorators/turbocache.decorator.ts *)

(** The options the decorator reads; [store], [namespace],
    [stampedeLock] and [stampedeTTL] are declared and never read. An
    absent [fallback] is [FallbackValue JUndefined]. *)
Record TurboCacheOptions : Type := mkCacheOptions {
  cache_key : option string;
  cache_ttl : option Z;
  cache_condition : option (JsVal -> list JsVal -> Completion bool);
  cache_unless : option (JsVal -> list JsVal -> Completion bool);
  cache_fallback : Fallback;
  cache_includeMetadata : bool;
  cache_metadataKey : option string
}.

Module TurboCache.
Section WithManager.
Context {rt : JsRuntime} {S : Type} {A : ICacheAdapter.t S}.

(** [Object.assign([...items], { [name]: v })] is left to the host: the
    copy of an array with one more property, or the error the
    assignment raises. *)
Context (assign_to_copy : list JsVal -> string -> JsVal -> Completion JsVal).

Definition checkCachingConditions (result : JsVal) (args : list JsVal)
           (options : TurboCacheOptions) : Completion bool :=
  let checkCondition :=
    match cache_condition options with
    | Some condition => condition result args
    | None => Resolved true
    end in
  match cache_unless options with
  | Some unless =>
      match unless result args with
      | Resolved true => Resolved false
      | Resolved false => checkCondition
      | Rejected e => Rejected e
      end
  | None => checkCondition
  end.

(** [{ hit, key, timestamp: Date.now() }] *)
Definition metadata_of (hit : bool) (key : string) (timestamp : Z) : JsVal :=
  JObj [("hit", JBool hit); ("key", JStr key); ("timestamp", JNum timestamp)].

Definition addCacheMetadata (result metadata : JsVal)
           (metadataKey : option string) : Completion JsVal :=
  let metadataKey :=
    match metadataKey with Some name => name | None => "__cache__" end in
  match result with
  | JArr items => assign_to_copy items metadataKey metadata
  | JObj fields => Resolved (JObj (JsMap.set metadataKey metadata fields))
  | _ =>
      Resolved (JObj (JsMap.set metadataKey metadata [("value", result)]))
  end.

(** [return options.includeMetadata ? addCacheMetadata(..) : result] *)
Definition reply {T : Type} (options : TurboCacheOptions) (hit : bool)
           (cacheKey : string) (result : JsVal) : Async T JsVal :=
  if cache_includeMetadata options
  then fun now s =>
         (addCacheMetadata result (metadata_of hit cacheKey now)
            (cache_metadataKey options), s)
  else ret result.

(** The [catch] block of the decorated function. *)
Definition handle_fallback {T : Type} (options : TurboCacheOptions)
           (error : JsError) : Async T JsVal :=
  if fallback_defined (cache_fallback options) then
    match cache_fallback options with
    | FallbackFunction f => fun _ s => (f (Some error), s)
    | FallbackValue v => ret v
    end
  else throw error.

(** The function the decorator installs as [descriptor.value]. *)
Definition decorated (options : TurboCacheOptions) (propertyKey : string)
           (originalMethod : list JsVal -> Async (CacheManager.t S) JsVal)
           (args : list JsVal) : Async (option (CacheManager.t S)) JsVal :=
  try_catch
    (CacheManagerAccessor.located
       (let cacheKey :=
          KeyGenerator.generate (cache_key options) args propertyKey in
        cached <- CacheManager.get cacheKey ;;
        if not_null cached then reply options true cacheKey cached
        else
          result <- originalMethod args ;;
          shouldCache <- (fun _ s =>
                            (checkCachingConditions result args options, s)) ;;
          (if (shouldCache : bool)
           then fire_and_forget
                  (CacheManager.set cacheKey result (cache_ttl options))
           else ret tt) ;;;
          reply options false cacheKey result))
    (handle_fallback options).
End WithManager.
End TurboCache.

(** A host for closed examples that annotate no array. *)
Definition no_array_host (items : list JsVal) (name : string) (v : JsVal)
  : Completion JsVal :=
  Rejected (Thrown "no array is annotated here").

(** The answer of the condition of a put, [true] when there is none. *)
Definition put_condition_answer (options : TurboCachePutOptions)
           (result : JsVal) (args : list JsVal) : Completion bool :=
  match put_condition options with
  | Some condition => condition result args
  | None => Resolved true
  end.

(* ================================================================== *)
(** * Properties *)

(** ** Facts about the insertion-ordered map *)

Section JsMapFacts.
Context {V : Type}.
Implicit Types (m : JsMap.t V) (k : string) (v : V).

Lemma get_set_same k v m : JsMap.get k (JsMap.set k v m) = Some v.
Proof.
  induction m as [|[k' v'] m IH]; simpl.
  - now rewrite String.eqb_refl.
  - destruct (String.eqb k k') eqn:E; simpl.
    + now rewrite String.eqb_refl.
    + now rewrite E.
Qed.

Lemma get_set_other k k' v m :
  k <> k' -> JsMap.get k' (JsMap.set k v m) = JsMap.get k' m.
Proof.
  intros Hne. induction m as [|[k0 v0] m IH]; simpl.
  - destruct (String.eqb k' k) eqn:E; [|reflexivity].
    apply String.eqb_eq in E. congruence.
  - destruct (String.eqb k k0) eqn:E; simpl.
    + apply String.eqb_eq in E. subst k0.
      destruct (String.eqb k' k) eqn:E'; [|reflexivity].
      apply String.eqb_eq in E'. congruence.
    + now rewrite IH.
Qed.

Lemma get_delete_same k m : JsMap.get k (JsMap.delete k m) = None.
Proof.
  unfold JsMap.delete.
  induction m as [|[k' v'] m IH]; simpl; [reflexivity|].
  destruct (String.eqb k k') eqn:E; simpl; [assumption|].
  now rewrite E.
Qed.

Lemma get_delete_other k k' m :
  k <> k' -> JsMap.get k' (JsMap.delete k m) = JsMap.get k' m.
Proof.
  intros Hne. unfold JsMap.delete.
  induction m as [|[k0 v0] m IH]; simpl; [reflexivity|].
  destruct (String.eqb k k0) eqn:E; simpl.
  - apply String.eqb_eq in E. subst k0.
    destruct (String.eqb k' k) eqn:E'; [|assumption].
    apply String.eqb_eq in E'. congruence.
  - now rewrite IH.
Qed.

Lemma get_delete_all ks k m :
  ~ In k ks ->
  JsMap.get k (fold_left (fun c k0 => JsMap.delete k0 c) ks m)
  = JsMap.get k m.
Proof.
  revert m. induction ks as [|k0 ks IH]; intros m Hnin; simpl.
  - reflexivity.
  - rewrite IH by (intros H; apply Hnin; now right).
    apply get_delete_other. intros ->. apply Hnin. now left.
Qed.

Lemma get_some_in k v m : JsMap.get k m = Some v -> In (k, v) m.
Proof.
  induction m as [|[k' v'] m IH]; simpl; [discriminate|].
  destruct (String.eqb k k') eqn:E.
  - apply String.eqb_eq in E. subst k'. intros [= ->]. now left.
  - intros H. right. now apply IH.
Qed.

Lemma in_get_nodup k v m :
  NoDup (JsMap.keys m) -> In (k, v) m -> JsMap.get k m = Some v.
Proof.
  induction m as [|[k' v'] m IH]; simpl; [contradiction|].
  intros Hnd [Heq | Hin].
  - injection Heq as -> ->. now rewrite String.eqb_refl.
  - inversion Hnd as [|? ? Hnotin Hnd']; subst.
    destruct (String.eqb k k') eqn:E.
    + apply String.eqb_eq in E. subst k'. exfalso. apply Hnotin.
      change k with (fst (k, v)). now apply in_map.
    + now apply IH.
Qed.

Lemma length_set k v m :
  List.length (JsMap.set k v m)
  = if JsMap.has k m then List.length m else Datatypes.S (List.length m).
Proof.
  unfold JsMap.has.
  induction m as [|[k' v'] m IH]; simpl; [reflexivity|].
  destruct (String.eqb k k') eqn:E; simpl; [reflexivity|].
  rewrite IH. now destruct (JsMap.get k m).
Qed.

Lemma length_delete_le k m :
  (List.length (JsMap.delete k m) <= List.length m)%nat.
Proof. apply filter_length_le. Qed.

Lemma keys_delete_incl k m x :
  In x (JsMap.keys (JsMap.delete k m)) -> In x (JsMap.keys m).
Proof.
  unfold JsMap.keys, JsMap.delete. intros H.
  apply in_map_iff in H. destruct H as [p [<- Hp]].
  apply filter_In in Hp. apply in_map. tauto.
Qed.

Lemma nodup_delete k m :
  NoDup (JsMap.keys m) -> NoDup (JsMap.keys (JsMap.delete k m)).
Proof.
  unfold JsMap.keys, JsMap.delete.
  induction m as [|[k' v'] m IH]; simpl; intros Hnd; [constructor|].
  inversion Hnd as [|? ? Hnotin Hnd']; subst.
  destruct (String.eqb k k'); simpl; [now apply IH|].
  constructor; [|now apply IH].
  intros H. apply Hnotin. now apply (keys_delete_incl k).
Qed.

Lemma nodup_delete_all ks m :
  NoDup (JsMap.keys m) ->
  NoDup (JsMap.keys (fold_left (fun c k0 => JsMap.delete k0 c) ks m)).
Proof.
  revert m. induction ks as [|k0 ks IH]; intros m Hnd; simpl; [assumption|].
  apply IH. now apply nodup_delete.
Qed.

Lemma keys_set_in k v m x :
  In x (JsMap.keys (JsMap.set k v m)) -> x = k \/ In x (JsMap.keys m).
Proof.
  unfold JsMap.keys.
  induction m as [|[k' v'] m IH]; simpl.
  - intros [H | []]. now left.
  - destruct (String.eqb k k') eqn:E; simpl.
    + apply String.eqb_eq in E. subst k'. tauto.
    + intros [H | H]; [tauto|]. destruct (IH H); tauto.
Qed.

Lemma nodup_set k v m :
    NoDup (JsMap.keys m) -> NoDup (JsMap.keys (JsMap.set k v m)).
Proof.
    induction m as [|[k' v'] m IH]; simpl; intros Hnd.
    - constructor; [intros []|constructor].
    - inversion Hnd as [|? ? Hnotin Hnd']; subst.
      destruct (String.eqb k k') eqn:E; simpl.
      + apply String.eqb_eq in E. subst k'. now constructor.
      + constructor; [|now apply IH].
        intros H. apply keys_set_in in H. destruct H as [-> | H].
        * now rewrite String.eqb_refl in E.
        * now apply Hnotin.
Qed.
End JsMapFacts.

(** ** adapters/memory-adapter.ts: expiry *)

Section MemoryAdapterFacts.
Import MemoryAdapter.
Implicit Types (s : MemoryAdapter.t) (k key : string) (v : JsVal).

Lemma entry_after_set s k v ttl t0 :
  entry_of k (after (MemoryAdapter.set k v ttl) t0 s)
  = Some (mkEntry v (if truthy_num ttl
                     then t0 + num_coalesce ttl 0 * 1000 else 0)).
Proof. unfold entry_of, after; simpl. apply get_set_same. Qed.

(** Deleting keys leaves the entry of [k] as it was, or removes it. *)
Lemma get_delete_cases {V} (k k' : string) (m : JsMap.t V) :
  JsMap.get k (JsMap.delete k' m) = JsMap.get k m
  \/ JsMap.get k (JsMap.delete k' m) = None.
Proof.
  destruct (string_dec k' k) as [-> | Hne].
  - right. apply get_delete_same.
  - left. now apply get_delete_other.
Qed.

Lemma get_delete_all_cases {V} (ks : list string) (k : string)
      (m : JsMap.t V) :
  let m' := fold_left (fun c k0 => JsMap.delete k0 c) ks m in
  JsMap.get k m' = JsMap.get k m \/ JsMap.get k m' = None.
Proof.
  revert m. induction ks as [|k0 ks IH]; intros m; simpl; [now left|].
  destruct (IH (JsMap.delete k0 m)) as [H | H]; [|now right].
  rewrite H. apply get_delete_cases.
Qed.

Lemma kept_or_gone_refl k s : kept_or_gone k s s.
Proof. now left. Qed.

Lemma kept_or_gone_trans k s1 s2 s3 :
  kept_or_gone k s1 s2 -> kept_or_gone k s2 s3 -> kept_or_gone k s1 s3.
Proof.
  unfold kept_or_gone. intros [H12 | H12] [H23 | H23];
    rewrite ?H23, ?H12; auto.
Qed.

Lemma get_kept_or_gone k key now s :
  kept_or_gone k s (after (MemoryAdapter.get key) now s).
Proof.
  unfold kept_or_gone, entry_of, after, MemoryAdapter.get.
  destruct (JsMap.get key (cache s)) as [entry|]; simpl; [|now left].
  destruct (expired entry now); simpl; [|now left].
  apply get_delete_cases.
Qed.

Lemma has_kept_or_gone k key now s :
  kept_or_gone k s (after (MemoryAdapter.has key) now s).
Proof.
  unfold kept_or_gone, entry_of, after, MemoryAdapter.has.
  destruct (JsMap.get key (cache s)) as [entry|]; simpl; [|now left].
  destruct (expired entry now); simpl; [|now left].
  apply get_delete_cases.
Qed.

Lemma mget_loop_step key keys results now s :
  mget_loop (key :: keys) results now s
  = mget_loop keys
      (if not_null (match outcome (MemoryAdapter.get key) now s with
                    | Resolved v => v | Rejected _ => JNull end)
       then JsMap.set key
              (match outcome (MemoryAdapter.get key) now s with
               | Resolved v => v | Rejected _ => JNull end) results
       else results)
      now (after (MemoryAdapter.get key) now s).
Proof.
  unfold outcome, after. simpl. unfold bind.
  unfold MemoryAdapter.get.
  destruct (JsMap.get key (cache s)) as [entry|]; simpl; [|reflexivity].
  destruct (expired entry now); reflexivity.
Qed.

Lemma mget_kept_or_gone k keys now : forall results s,
  kept_or_gone k s (snd (mget_loop keys results now s)).
Proof.
  induction keys as [|key keys IH]; intros results s.
  - apply kept_or_gone_refl.
  - rewrite mget_loop_step.
    eapply kept_or_gone_trans; [apply get_kept_or_gone | apply IH].
Qed.

Lemma cleanup_kept_or_gone k now s :
  kept_or_gone k s (cleanup now s).
Proof.
  unfold kept_or_gone, entry_of, cleanup; simpl.
  apply get_delete_all_cases.
Qed.

Lemma evict_oldest_cases (c : JsMap.t CacheEntry) :
  evict_oldest c = c
  \/ exists firstKey, evict_oldest c = JsMap.delete firstKey c.
Proof.
  unfold evict_oldest.
  destruct (JsMap.first_key c) as [firstKey|]; [|now left].
  destruct (truthy_key (Some firstKey)); [right; now exists firstKey | now left].
Qed.

Lemma set_kept_or_gone k key v ttl now s :
  key <> k ->
  kept_or_gone k s (after (MemoryAdapter.set key v ttl) now s).
Proof.
  intros Hne. unfold kept_or_gone, entry_of, after, MemoryAdapter.set.
  cbn [snd cache with_cache].
  rewrite (get_set_other key k _ _ Hne).
  match goal with
  | |- context [if ?b then evict_oldest (cache s) else cache s] =>
      destruct b
  end; [|now left].
  destruct (evict_oldest_cases (cache s)) as [E | [firstKey E]]; rewrite E.
  - now left.
  - apply get_delete_cases.
Qed.

Lemma mset_step key v entries ttl now s :
  mset ((key, v) :: entries) ttl now s
  = mset entries ttl now (after (MemoryAdapter.set key v ttl) now s).
Proof. reflexivity. Qed.

Lemma mset_kept_or_gone k ttl now : forall entries s,
  existsb (fun p => String.eqb (fst p) k) entries = false ->
  kept_or_gone k s (snd (mset entries ttl now s)).
Proof.
  induction entries as [|[key v] entries IH]; intros s Hnone.
  - apply kept_or_gone_refl.
  - simpl in Hnone. apply Bool.orb_false_elim in Hnone.
    destruct Hnone as [Hkey Hrest]. apply String.eqb_neq in Hkey.
    rewrite mset_step.
    apply (kept_or_gone_trans k s (after (MemoryAdapter.set key v ttl) now s)).
    + now apply set_kept_or_gone.
    + now apply IH.
Qed.

Lemma delete_kept_or_gone k (target : KeyArg) s :
  kept_or_gone k s (after (MemoryAdapter.delete target) 0 s).
Proof.
  unfold kept_or_gone, entry_of, after, MemoryAdapter.delete.
  destruct target as [key|ks]; cbn [snd cache with_cache].
  - apply get_delete_cases.
  - apply get_delete_all_cases.
Qed.

Lemma clear_kept_or_gone k pattern s :
  kept_or_gone k s (after (MemoryAdapter.clear pattern) 0 s).
Proof.
  unfold kept_or_gone, entry_of, after, MemoryAdapter.clear.
  destruct pattern as [p|]; [|now right].
  destruct (truthy_str (Some p)); [|now right].
  cbn [snd cache with_cache]. apply get_delete_all_cases.
Qed.

Lemma op_kept_or_gone k op s :
  overwrites k op = false -> kept_or_gone k s (run_op s op).
Proof.
  destruct op; simpl; intros Hop.
  - apply get_kept_or_gone.
  - apply has_kept_or_gone.
  - apply mget_kept_or_gone.
  - apply set_kept_or_gone. now apply String.eqb_neq.
  - now apply mset_kept_or_gone.
  - apply delete_kept_or_gone.
  - apply clear_kept_or_gone.
  - apply cleanup_kept_or_gone.
Qed.

Lemma run_kept_or_gone k ops : forall s,
  existsb (overwrites k) ops = false ->
  kept_or_gone k s (run ops s).
Proof.
  induction ops as [|op ops IH]; intros s Hnone.
  - apply kept_or_gone_refl.
  - simpl in Hnone. apply Bool.orb_false_elim in Hnone.
    destruct Hnone as [Hop Hrest]. simpl.
    apply (kept_or_gone_trans k s (run_op s op)).
    + now apply op_kept_or_gone.
    + now apply IH.
Qed.

(** [get] and [has] on an entry past its expiry, or on no entry. *)
Lemma get_absent k now s :
    match entry_of k s with
    | Some entry => expired entry now = true
    | None => True
    end ->
    outcome (MemoryAdapter.get k) now s = Resolved JNull
    /\ outcome (MemoryAdapter.has k) now s = Resolved false.
Proof.
    unfold entry_of, outcome, MemoryAdapter.get, MemoryAdapter.has.
    destruct (JsMap.get k (cache s)) as [entry|]; [|now split].
    intros ->. now split.
Qed.
End MemoryAdapterFacts.

(** C5, as the code has it. After [set(k, v, ttl)] with a ttl that is not
    zero (and an expiry instant that is not the number 0): at every
    clock reading up to and including the expiry instant, the entry as
    [set] left it is live, so [get(k)] answers [v] and [has(k)] answers
    true; once the clock is strictly past the expiry instant, and
    whatever calls have followed that do not store under [k] again,
    [get(k)] answers null and [has(k)] answers false. *)
Theorem expired_entry_not_returned
  (s : MemoryAdapter.t) (k : string) (v : JsVal) (ttl t0 t : Z)
  (history : list Op) :
  ttl <> 0 ->
  t0 + ttl * 1000 <> 0 ->
  existsb (overwrites k) history = false ->
  let s0 := after (MemoryAdapter.set k v (Some ttl)) t0 s in
  let s1 := run history s0 in
  (t <= t0 + ttl * 1000 ->
   outcome (MemoryAdapter.get k) t s0 = Resolved v
   /\ outcome (MemoryAdapter.has k) t s0 = Resolved true)
  /\ (t0 + ttl * 1000 < t ->
      outcome (MemoryAdapter.get k) t s1 = Resolved JNull
      /\ outcome (MemoryAdapter.has k) t s1 = Resolved false).
Proof.
  intros Httl Hinstant Hhistory s0 s1.
  assert (Hentry : entry_of k s0
                   = Some (MemoryAdapter.mkEntry v (t0 + ttl * 1000))).
  { unfold s0. rewrite entry_after_set. simpl.
    apply Z.eqb_neq in Httl. now rewrite Httl. }
  assert (Hexpired : forall entry,
             entry = MemoryAdapter.mkEntry v (t0 + ttl * 1000) ->
             MemoryAdapter.expired entry t = (t0 + ttl * 1000 <? t)).
  { intros entry ->. unfold MemoryAdapter.expired; simpl.
    apply Z.eqb_neq in Hinstant. now rewrite Hinstant. }
  split.
  - intros Hlive.
    unfold entry_of in Hentry.
    unfold outcome, MemoryAdapter.get, MemoryAdapter.has. rewrite Hentry.
    rewrite (Hexpired _ eq_refl).
    assert (Hnot : (t0 + ttl * 1000 <? t) = false) by (apply Z.ltb_ge; lia).
    rewrite Hnot. now split.
  - intros Hpast. apply get_absent.
    destruct (run_kept_or_gone k history s0 Hhistory) as [H | H];
      fold s1 in H; rewrite H; [|exact I].
    rewrite Hentry, (Hexpired _ eq_refl). now apply Z.ltb_lt.
Qed.

Lemma expired_entry_not_returned_witness :
  (outcome (MemoryAdapter.get "k") 2000
     (after (MemoryAdapter.set "k" (JStr "v") (Some 1)) 1000 store_max2)
   = Resolved (JStr "v")
   /\ outcome (MemoryAdapter.has "k") 2000
        (after (MemoryAdapter.set "k" (JStr "v") (Some 1)) 1000 store_max2)
      = Resolved true)
  /\ (outcome (MemoryAdapter.get "k") 2001
        (run [OpHas "k" 1500; OpSet "other" JNull None 1600]
           (after (MemoryAdapter.set "k" (JStr "v") (Some 1)) 1000
              store_max2))
      = Resolved JNull
      /\ outcome (MemoryAdapter.has "k") 2001
           (run [OpHas "k" 1500; OpSet "other" JNull None 1600]
              (after (MemoryAdapter.set "k" (JStr "v") (Some 1)) 1000
                 store_max2))
         = Resolved false).
Proof.
  split.
  - apply (expired_entry_not_returned store_max2 "k" (JStr "v") 1 1000 2000
             [OpHas "k" 1500; OpSet "other" JNull None 1600]);
      [lia | lia | reflexivity | lia].
  - apply (expired_entry_not_returned store_max2 "k" (JStr "v") 1 1000 2001
             [OpHas "k" 1500; OpSet "other" JNull None 1600]);
      [lia | lia | reflexivity | lia].
Defined.

(** C5 as written fails at the expiry instant itself: the tests are
    [expiresAt < Date.now()], so an entry set at 1000 with ttl 1 is still
    returned when the clock shows 2000. *)
Lemma entry_live_at_expiry_instant : ~ expired_at_or_after_instant.
Proof.
  intros H.
  specialize (H store_max2 "k" (JStr "v") 1 1000 2000).
  destruct H as [Hget _]; [lia | lia |].
  vm_compute in Hget. discriminate Hget.
Qed.

(** ** adapters/memory-adapter.ts: the hit and miss counters *)

Section CounterFacts.
Import MemoryAdapter.

Lemma get_counts key now s :
  let s' := after (MemoryAdapter.get key) now s in
  match entry_of key s with
  | Some entry =>
      if expired entry now then counted_miss s s' else counted_hit s s'
  | None => counted_miss s s'
  end.
Proof.
  unfold entry_of, after, MemoryAdapter.get, counted_hit, counted_miss.
  destruct (JsMap.get key (cache s)) as [entry|]; simpl; [|now split].
  destruct (expired entry now); simpl; now split.
Qed.

Lemma get_keeps_liveness k key now s :
  present_unexpired k now (after (MemoryAdapter.get key) now s)
  = present_unexpired k now s.
Proof.
  unfold present_unexpired, entry_of, after, MemoryAdapter.get.
  destruct (JsMap.get key (cache s)) as [entry|] eqn:Hkey; [|reflexivity].
  destruct (expired entry now) eqn:Hexpired; [|reflexivity].
  cbn [snd cache miss with_cache].
  destruct (string_dec key k) as [<- | Hne].
  - rewrite get_delete_same, Hkey, Hexpired. reflexivity.
  - now rewrite get_delete_other.
Qed.

Lemma get_counts_by_liveness key now s :
  let s' := after (MemoryAdapter.get key) now s in
  hits s' = hits s + (if present_unexpired key now s then 1 else 0)
  /\ misses s' = misses s + (if present_unexpired key now s then 0 else 1).
Proof.
  intros s'. pose proof (get_counts key now s) as H. fold s' in H.
  unfold present_unexpired, counted_hit, counted_miss in *.
  destruct (entry_of key s) as [entry|]; [destruct (expired entry now)|];
    cbn [negb]; lia.
Qed.

Lemma mget_loop_counts_each keys now : forall results s,
  let s' := snd (mget_loop keys results now s) in
  hits s' = hits s + count_where (fun k => present_unexpired k now s) keys
  /\ misses s'
     = misses s
       + count_where (fun k => negb (present_unexpired k now s)) keys.
Proof.
  unfold count_where.
  induction keys as [|key keys IH]; intros results s.
  - simpl. lia.
  - rewrite mget_loop_step. cbv zeta.
    match goal with
    | |- context [mget_loop keys ?r now ?s0] =>
        pose proof (IH r s0) as H
    end.
    cbv zeta in H.
    rewrite (filter_ext _ (fun k => present_unexpired k now s)) in H
      by (intros k; apply get_keeps_liveness).
    rewrite (filter_ext
               (fun k => negb (present_unexpired k now
                                 (after (MemoryAdapter.get key) now s)))
               (fun k => negb (present_unexpired k now s))) in H
      by (intros k; now rewrite get_keeps_liveness).
    pose proof (get_counts_by_liveness key now s) as G. cbv zeta in G.
    cbn [filter].
    destruct (present_unexpired key now s); cbn [negb];
      rewrite ?length_cons, ?Nat2Z.inj_succ; lia.
Qed.

Lemma has_counts key now s :
  counted_nothing s (after (MemoryAdapter.has key) now s).
Proof.
  unfold counted_nothing, after, MemoryAdapter.has.
  destruct (JsMap.get key (cache s)) as [entry|]; simpl; [|now split].
  destruct (expired entry now); simpl; now split.
Qed.

Lemma stats_reports_counters {rt : JsRuntime} now s st s' :
  MemoryAdapter.stats now s = (Resolved st, s') ->
  CacheStats.hits st = hits s /\ CacheStats.misses st = misses s.
Proof.
  unfold MemoryAdapter.stats.
  destruct (estimateMemoryUsage (cache (cleanup now s)) 0) as [mem|e];
    [|discriminate].
  intros [= <- _]. now split.
Qed.
End CounterFacts.

(** C7, as the code has it. Every [get], and [mget] once for each key it
    is given, adds one to exactly one counter: to [hits] when the key has
    an entry that is not expired, to [misses] otherwise; so [mget] adds
    to [hits] the number of listed keys that have an unexpired entry and
    to [misses] the number of the others. [has] adds to neither.
    [stats()] reports the two counters as they stand. *)
Theorem counters_follow_get_and_mget
  {rt : JsRuntime} (s : MemoryAdapter.t) (now : Z) :
  (forall key,
      let s' := after (MemoryAdapter.get key) now s in
      match entry_of key s with
      | Some entry =>
          if MemoryAdapter.expired entry now
          then counted_miss s s' else counted_hit s s'
      | None => counted_miss s s'
      end)
  /\ (forall keys,
         let s' := after (MemoryAdapter.mget keys) now s in
         MemoryAdapter.hits s'
         = MemoryAdapter.hits s
           + count_where (fun key => present_unexpired key now s) keys
         /\ MemoryAdapter.misses s'
            = MemoryAdapter.misses s
              + count_where
                  (fun key => negb (present_unexpired key now s)) keys)
  /\ (forall key, counted_nothing s (after (MemoryAdapter.has key) now s))
  /\ (forall st s',
         MemoryAdapter.stats now s = (Resolved st, s') ->
         CacheStats.hits st = MemoryAdapter.hits s
         /\ CacheStats.misses st = MemoryAdapter.misses s).
Proof.
  repeat split.
  - intros key. apply get_counts.
  - apply (mget_loop_counts_each keys now JsMap.empty s).
  - apply (mget_loop_counts_each keys now JsMap.empty s).
  - apply has_counts.
  - apply has_counts.
  - eapply stats_reports_counters; eassumption.
  - eapply stats_reports_counters; eassumption.
Qed.

Lemma counters_follow_get_and_mget_witness :
  counted_miss store_max2 (after (MemoryAdapter.get "k") 10 store_max2)
  /\ (MemoryAdapter.hits
        (after (MemoryAdapter.mget ["k"; "absent"; "k"]) 10 store_with_k)
      = MemoryAdapter.hits store_with_k + 2
      /\ MemoryAdapter.misses
           (after (MemoryAdapter.mget ["k"; "absent"; "k"]) 10 store_with_k)
         = MemoryAdapter.misses store_with_k + 1)
  /\ counted_nothing store_max2 (after (MemoryAdapter.has "k") 10 store_max2)
  /\ CacheStats.hits (CacheStats.mk 0 0 0 0 10)
     = MemoryAdapter.hits store_max2.
Proof.
  pose proof (counters_follow_get_and_mget (rt := example_runtime)
                store_max2 10) as [Hget [_ [Hhas Hstats]]].
  pose proof (counters_follow_get_and_mget (rt := example_runtime)
                store_with_k 10) as [_ [Hmget _]].
  split; [exact (Hget "k") | split; [|split; [exact (Hhas "k")|]]].
  - exact (Hmget ["k"; "absent"; "k"]).
  - exact (proj1 (Hstats (CacheStats.mk 0 0 0 0 10) store_max2 eq_refl)).
Defined.

(** C7 as written fails on [has]: a call to [has] leaves both counters
    where they were. *)
Lemma has_leaves_counters : ~ has_counts_once.
Proof.
  intros H. specialize (H store_max2 "k" 0).
  vm_compute in H. discriminate H.
Qed.

(** ** adapters/memory-adapter.ts: entries stored without expiry *)

Section NoExpiryFacts.
Import MemoryAdapter.

Lemma well_formed_constructor opts now :
  well_formed (MemoryAdapter.constructor opts now).
Proof. unfold well_formed; simpl. constructor. Qed.

Lemma well_formed_set key v ttl now s :
  well_formed s -> well_formed (after (MemoryAdapter.set key v ttl) now s).
Proof.
  unfold well_formed, after, MemoryAdapter.set; simpl. intros Hwf.
  apply nodup_set.
  destruct (truthy_num (max (options s))
            && (num_coalesce (max (options s)) 0 <=? JsMap.size (cache s))
            && negb (JsMap.has key (cache s))); [|assumption].
  unfold evict_oldest.
  destruct (JsMap.first_key (cache s)) as [firstKey|]; [|assumption].
  destruct (truthy_key (Some firstKey)); [|assumption].
  now apply nodup_delete.
Qed.

Lemma well_formed_get key now s :
  well_formed s -> well_formed (after (MemoryAdapter.get key) now s).
Proof.
  unfold well_formed, after, MemoryAdapter.get. intros Hwf.
  destruct (JsMap.get key (cache s)) as [entry|]; simpl; [|assumption].
  destruct (expired entry now); simpl; [|assumption].
  now apply nodup_delete.
Qed.

Lemma well_formed_has key now s :
  well_formed s -> well_formed (after (MemoryAdapter.has key) now s).
Proof.
  unfold well_formed, after, MemoryAdapter.has. intros Hwf.
  destruct (JsMap.get key (cache s)) as [entry|]; simpl; [|assumption].
  destruct (expired entry now); simpl; [|assumption].
  now apply nodup_delete.
Qed.

Lemma well_formed_mget keys now : forall results s,
  well_formed s -> well_formed (snd (mget_loop keys results now s)).
Proof.
  induction keys as [|key keys IH]; intros results s Hwf; [assumption|].
  rewrite mget_loop_step. apply IH. now apply well_formed_get.
Qed.

Lemma well_formed_cleanup now s :
  well_formed s -> well_formed (cleanup now s).
Proof.
  unfold well_formed, cleanup; simpl. apply nodup_delete_all.
Qed.

Lemma well_formed_mset ttl now : forall entries s,
  well_formed s -> well_formed (snd (mset entries ttl now s)).
Proof.
  induction entries as [|[key v] entries IH]; intros s Hwf; [assumption|].
  rewrite mset_step. apply IH. now apply well_formed_set.
Qed.

Lemma well_formed_delete (target : KeyArg) s :
  well_formed s -> well_formed (after (MemoryAdapter.delete target) 0 s).
Proof.
  unfold well_formed, after, MemoryAdapter.delete.
  destruct target as [key|ks]; cbn [snd cache with_cache].
  - apply nodup_delete.
  - apply nodup_delete_all.
Qed.

Lemma well_formed_clear pattern s :
  well_formed s -> well_formed (after (MemoryAdapter.clear pattern) 0 s).
Proof.
  unfold well_formed, after, MemoryAdapter.clear. intros Hwf.
  destruct pattern as [p|]; [|constructor].
  destruct (truthy_str (Some p)); [|constructor].
  cbn [snd cache with_cache]. now apply nodup_delete_all.
Qed.

Lemma well_formed_op op s : well_formed s -> well_formed (run_op s op).
Proof.
  destruct op; simpl.
  - apply well_formed_get.
  - apply well_formed_has.
  - apply well_formed_mget.
  - apply well_formed_set.
  - apply well_formed_mset.
  - apply well_formed_delete.
  - apply well_formed_clear.
  - apply well_formed_cleanup.
Qed.

Lemma well_formed_run ops : forall s,
  well_formed s -> well_formed (run ops s).
Proof.
  induction ops as [|op ops IH]; intros s Hwf; [assumption|].
  simpl. apply IH. now apply well_formed_op.
Qed.

Lemma stored_for_good_get k v key now s :
  stored_for_good k v s ->
  stored_for_good k v (after (MemoryAdapter.get key) now s).
Proof.
  unfold stored_for_good, entry_of, after, MemoryAdapter.get. intros Hk.
  destruct (JsMap.get key (cache s)) as [entry|] eqn:E; simpl; [|assumption].
  destruct (expired entry now) eqn:X; simpl; [|assumption].
  rewrite get_delete_other; [assumption|].
  intros ->. rewrite Hk in E. injection E as <-. discriminate X.
Qed.

Lemma stored_for_good_has k v key now s :
  stored_for_good k v s ->
  stored_for_good k v (after (MemoryAdapter.has key) now s).
Proof.
  unfold stored_for_good, entry_of, after, MemoryAdapter.has. intros Hk.
  destruct (JsMap.get key (cache s)) as [entry|] eqn:E; simpl; [|assumption].
  destruct (expired entry now) eqn:X; simpl; [|assumption].
  rewrite get_delete_other; [assumption|].
  intros ->. rewrite Hk in E. injection E as <-. discriminate X.
Qed.

Lemma stored_for_good_mget k v keys now : forall results s,
  stored_for_good k v s ->
  stored_for_good k v (snd (mget_loop keys results now s)).
Proof.
  induction keys as [|key keys IH]; intros results s Hk; [assumption|].
  rewrite mget_loop_step. apply IH. now apply stored_for_good_get.
Qed.

Lemma stored_for_good_cleanup k v now s :
  well_formed s ->
  stored_for_good k v s -> stored_for_good k v (cleanup now s).
Proof.
  unfold stored_for_good, entry_of, well_formed, cleanup; simpl.
  intros Hwf Hk. rewrite get_delete_all; [assumption|].
  unfold JsMap.keys. intros Hin.
  apply in_map_iff in Hin. destruct Hin as [[k' e] [Hfst Hin]].
  simpl in Hfst. subst k'.
  apply filter_In in Hin. destruct Hin as [Hin Hexp]. simpl in Hexp.
  apply (in_get_nodup k e (cache s) Hwf) in Hin.
  rewrite Hk in Hin. injection Hin as <-. discriminate Hexp.
Qed.

(** What [set] leaves in the map: the entry, stored over what is left
    once the key that [set] evicts, if any, is gone. *)
Lemma cache_after_set key v ttl now s :
  cache (after (MemoryAdapter.set key v ttl) now s)
  = JsMap.set key
      (mkEntry v (if truthy_num ttl
                  then now + num_coalesce ttl 0 * 1000 else 0))
      (match evicted_by key s with
       | Some firstKey => JsMap.delete firstKey (cache s)
       | None => cache s
       end).
Proof.
  unfold after, MemoryAdapter.set, evicted_by, evict_oldest.
  cbn [snd cache with_cache].
  match goal with
  | |- context [if ?b then _ else cache s] => destruct b
  end; [|reflexivity].
  destruct (JsMap.first_key (cache s)) as [firstKey|]; [|reflexivity].
  destruct (truthy_key (Some firstKey)); reflexivity.
Qed.

Lemma stored_for_good_set k v key v' ttl now s :
  set_disturbs k key s = false ->
  stored_for_good k v s ->
  stored_for_good k v (after (MemoryAdapter.set key v' ttl) now s).
Proof.
  unfold set_disturbs, stored_for_good. intros Hspare Hk.
  apply Bool.orb_false_elim in Hspare. destruct Hspare as [Hkey Hevict].
  apply String.eqb_neq in Hkey.
  rewrite cache_after_set, (get_set_other key k _ _ Hkey).
  destruct (evicted_by key s) as [firstKey|]; [|assumption].
  apply String.eqb_neq in Hevict.
  now rewrite (get_delete_other firstKey k _ Hevict).
Qed.

Lemma stored_for_good_mset k v ttl now : forall entries s,
  mset_disturbs k entries ttl now s = false ->
  stored_for_good k v s ->
  stored_for_good k v (snd (mset entries ttl now s)).
Proof.
  induction entries as [|[key v'] entries IH]; intros s Hspare Hk;
    [assumption|].
  simpl in Hspare. apply Bool.orb_false_elim in Hspare.
  destruct Hspare as [Hset Hrest].
  rewrite mset_step. apply IH; [assumption|].
  now apply stored_for_good_set.
Qed.

Lemma stored_for_good_delete k v (target : KeyArg) s :
  disturbs k s (OpDelete target) = false ->
  stored_for_good k v s ->
  stored_for_good k v (after (MemoryAdapter.delete target) 0 s).
Proof.
  unfold stored_for_good, after, MemoryAdapter.delete.
  destruct target as [key|ks]; cbn [disturbs snd cache with_cache];
    intros Hspare Hk.
  - apply String.eqb_neq in Hspare. now rewrite get_delete_other.
  - rewrite get_delete_all; [assumption|].
    intros Hin. assert (existsb (String.eqb k) ks = true) as Hex.
    { apply existsb_exists. exists k. split; [assumption|].
      apply String.eqb_refl. }
    congruence.
Qed.

Lemma stored_for_good_clear k v pattern s :
  disturbs k s (OpClear pattern) = false ->
  stored_for_good k v s ->
  stored_for_good k v (after (MemoryAdapter.clear pattern) 0 s).
Proof.
  unfold stored_for_good, after, MemoryAdapter.clear. cbn [disturbs].
  destruct pattern as [p|]; [|discriminate].
  destruct (truthy_str (Some p)); [|discriminate].
  intros Hspare Hk. cbn [snd cache with_cache].
  rewrite get_delete_all; [assumption|].
  intros Hin. apply filter_In in Hin. destruct Hin as [_ Hmatch]. congruence.
Qed.

Lemma stored_for_good_op k v op s :
  well_formed s ->
  disturbs k s op = false ->
  stored_for_good k v s -> stored_for_good k v (run_op s op).
Proof.
  intros Hwf Hspare Hk. destruct op; cbn [run_op].
  - now apply stored_for_good_get.
  - now apply stored_for_good_has.
  - now apply stored_for_good_mget.
  - now apply stored_for_good_set.
  - now apply stored_for_good_mset.
  - now apply stored_for_good_delete.
  - now apply stored_for_good_clear.
  - now apply stored_for_good_cleanup.
Qed.

Lemma stored_for_good_run k v ops : forall s,
  well_formed s ->
  undisturbed k ops s = true ->
  stored_for_good k v s -> stored_for_good k v (run ops s).
Proof.
  induction ops as [|op ops IH]; intros s Hwf Hquiet Hk; [assumption|].
  simpl in Hquiet. apply Bool.andb_true_iff in Hquiet.
  destruct Hquiet as [Hop Hrest]. apply Bool.negb_true_iff in Hop.
  simpl. apply IH.
  - now apply well_formed_op.
  - assumption.
  - now apply stored_for_good_op.
Qed.

Lemma stored_for_good_read_back k v now s :
  stored_for_good k v s ->
  outcome (MemoryAdapter.get k) now s = Resolved v
  /\ outcome (MemoryAdapter.has k) now s = Resolved true.
Proof.
  unfold stored_for_good, entry_of, outcome,
    MemoryAdapter.get, MemoryAdapter.has.
  intros ->. now split.
Qed.
End NoExpiryFacts.

(** C10. [MemoryAdapter.set(k, v, 0)] stores an entry that no clock
    reading expires: after any history of calls, at any times, none of
    which deletes, overwrites or evicts the entry, [get(k)] answers [v]
    (and [has(k)] true). [CacheManager.set] hands an explicit 0 to the
    adapter unchanged, whatever the configured default TTL; so a manager
    over a memory adapter answers [v] at every later time too. *)
Theorem zero_ttl_never_expires
  {rt : JsRuntime}
  (s : MemoryAdapter.t) (k : string) (v : JsVal) (t0 t : Z)
  (history : list Op) (Hwf : well_formed s)
  (Hquiet : undisturbed k history
              (after (MemoryAdapter.set k v (Some 0)) t0 s) = true) :
  (let s1 := run history (after (MemoryAdapter.set k v (Some 0)) t0 s) in
   outcome (MemoryAdapter.get k) t s1 = Resolved v
   /\ outcome (MemoryAdapter.has k) t s1 = Resolved true)
  /\ (forall (S : Type) (A : ICacheAdapter.t S) (m : CacheManager.t S),
         CacheManager.set k v (Some 0) t0 m
         = CacheManager.on_adapter
             (ICacheAdapter.set (CacheManager.buildKey m k) v (Some 0)) t0 m)
  /\ (forall m : CacheManager.t MemoryAdapter.t,
         outcome (CacheManager.get k) t
           (after (CacheManager.set k v (Some 0)) t0 m)
         = Resolved v).
Proof.
  split; [|split].
  - cbv zeta. apply stored_for_good_read_back.
    apply stored_for_good_run.
    + now apply well_formed_set.
    + assumption.
    + unfold stored_for_good. fold (entry_of k
        (after (MemoryAdapter.set k v (Some 0)) t0 s)).
      now rewrite entry_after_set.
  - reflexivity.
  - intros m.
    pose proof (stored_for_good_read_back (CacheManager.buildKey m k) v t
                  (after (MemoryAdapter.set (CacheManager.buildKey m k) v
                            (Some 0)) t0 (CacheManager.adapter m))) as H.
    destruct H as [H _].
    { unfold stored_for_good.
      fold (entry_of (CacheManager.buildKey m k)
              (after (MemoryAdapter.set (CacheManager.buildKey m k) v
                        (Some 0)) t0 (CacheManager.adapter m))).
      now rewrite entry_after_set. }
    unfold outcome, after in *.
    unfold CacheManager.get, CacheManager.set, CacheManager.on_adapter,
      CacheManager.buildKey in *.
    simpl in *.
    destruct (MemoryAdapter.get _ t _) as [r a] eqn:E in H |- *.
    simpl in *. exact H.
Qed.

Lemma zero_ttl_never_expires_witness :
  outcome (MemoryAdapter.get "k") 999999
    (run [OpSweep 5000; OpGet "k" 7000; OpSet "other" JNull (Some 60) 8000;
          OpDelete (OneKey "other"); OpClear (Some "user:*")]
       (after (MemoryAdapter.set "k" (JStr "v") (Some 0)) 1000 store_max2))
  = Resolved (JStr "v").
Proof.
  apply (zero_ttl_never_expires (rt := example_runtime)
           store_max2 "k" (JStr "v") 1000 999999
           [OpSweep 5000; OpGet "k" 7000; OpSet "other" JNull (Some 60) 8000;
            OpDelete (OneKey "other"); OpClear (Some "user:*")]
           (well_formed_constructor _ _) eq_refl).
Defined.

(** ** adapters/memory-adapter.ts: the capacity bound *)

Section CapacityFacts.
Import MemoryAdapter.

Lemma delete_head {V} (fk : string) (e : V) (rest : JsMap.t V) :
  NoDup (JsMap.keys ((fk, e) :: rest)) ->
  JsMap.delete fk ((fk, e) :: rest) = rest.
Proof.
  unfold JsMap.delete, JsMap.keys; simpl. rewrite String.eqb_refl; simpl.
  intros Hnd. inversion Hnd as [|? ? Hnotin _]; subst.
  induction rest as [|[k' v'] rest IH]; simpl; [reflexivity|].
  destruct (String.eqb fk k') eqn:E.
  - apply String.eqb_eq in E. subst k'. exfalso. apply Hnotin. now left.
  - simpl. f_equal. apply IH.
    + inversion Hnd as [|? ? _ Hnd']; subst. simpl in Hnd'.
      inversion Hnd' as [|? ? Hn Hnd'']; subst.
      constructor; [|assumption].
      intros H. apply Hnotin. now right.
    + intros H. apply Hnotin. now right.
Qed.

Lemma set_new {V} (k : string) (v : V) (m : JsMap.t V) :
  JsMap.get k m = None -> JsMap.set k v m = (m ++ [(k, v)])%list.
Proof.
  induction m as [|[k' v'] m IH]; simpl; [reflexivity|].
  destruct (String.eqb k k'); [discriminate|].
  intros H. now rewrite IH.
Qed.

Lemma has_delete_absent {V} (k k' : string) (m : JsMap.t V) :
  JsMap.has k m = false -> JsMap.has k (JsMap.delete k' m) = false.
Proof.
  unfold JsMap.has. intros H.
  destruct (get_delete_cases k k' m) as [E | E]; rewrite E; [assumption|].
  reflexivity.
Qed.

Lemma evict_oldest_shrinks (c : JsMap.t CacheEntry) :
  JsMap.first_key c <> Some EmptyString ->
  c <> [] ->
  (List.length (evict_oldest c) < List.length c)%nat.
Proof.
  destruct c as [|[fk e] rest]; [congruence|]. intros Hfirst _.
  unfold evict_oldest, truthy_key, truthy_str. cbn [JsMap.first_key].
  destruct (String.eqb fk "") eqn:Hfk.
  - apply String.eqb_eq in Hfk. subst fk. now contradiction Hfirst.
  - cbn [negb]. unfold JsMap.delete. cbn [filter fst].
    rewrite String.eqb_refl. cbn [negb List.length].
    apply Nat.lt_succ_r, filter_length_le.
Qed.

(** With room left, or with a first key that is not the empty string,
    [set] keeps the store within its bound. *)
Lemma set_within_capacity key v ttl now s N :
  max (options s) = Some N ->
  0 < N ->
  JsMap.size (cache s) <= N ->
  JsMap.first_key (cache s) <> Some EmptyString ->
  JsMap.size (cache (after (MemoryAdapter.set key v ttl) now s)) <= N.
Proof.
  intros Hmax HN Hsize Hfirst.
  unfold after, MemoryAdapter.set. cbn [snd cache with_cache].
  rewrite Hmax. cbn [truthy_num num_coalesce].
  replace (N =? 0) with false by (symmetry; apply Z.eqb_neq; lia).
  cbn [negb andb].
  unfold JsMap.size in *. rewrite length_set.
  destruct (JsMap.has key (cache s)) eqn:Hhas.
  - rewrite Bool.andb_false_r, Hhas. assumption.
  - rewrite Bool.andb_true_r.
    destruct (N <=? Z.of_nat (List.length (cache s))) eqn:Hfull.
    + apply Z.leb_le in Hfull.
      assert (Hne : cache s <> []).
      { intros E. rewrite E in Hfull. simpl in Hfull. lia. }
      pose proof (evict_oldest_shrinks (cache s) Hfirst Hne) as Hlt.
      destruct (JsMap.has key (evict_oldest (cache s))); lia.
    + apply Z.leb_gt in Hfull. rewrite Hhas. lia.
Qed.

(** Calls that only remove entries keep the bound. *)
Lemma within_bound_shrunk N s (c : JsMap.t CacheEntry) :
  within_bound N s ->
  (List.length c <= List.length (cache s))%nat ->
  (forall x, In x (JsMap.keys c) -> In x (JsMap.keys (cache s))) ->
  within_bound N (with_cache c s).
Proof.
  unfold within_bound, JsMap.size. intros [Hmax [Hsize Hempty]] Hlen Hincl.
  cbn [options cache with_cache]. repeat split; [assumption | lia |].
  intros H. apply Hempty. now apply Hincl.
Qed.

Lemma delete_all_shrinks {V} ks : forall (m : JsMap.t V),
  (List.length (fold_left (fun c k0 => JsMap.delete k0 c) ks m)
   <= List.length m)%nat
  /\ (forall x,
         In x (JsMap.keys (fold_left (fun c k0 => JsMap.delete k0 c) ks m)) ->
         In x (JsMap.keys m)).
Proof.
  induction ks as [|k0 ks IH]; intros m; simpl; [now split|].
  destruct (IH (JsMap.delete k0 m)) as [Hlen Hincl]. split.
  - pose proof (length_delete_le k0 m). lia.
  - intros x Hx. apply (keys_delete_incl k0). now apply Hincl.
Qed.

Lemma within_bound_get N key now s :
  within_bound N s -> within_bound N (after (MemoryAdapter.get key) now s).
Proof.
  intros Hin. unfold after, MemoryAdapter.get.
  destruct (JsMap.get key (cache s)) as [entry|]; cbn [snd];
    [|assumption].
  destruct (expired entry now); cbn [snd]; [|assumption].
  apply (within_bound_shrunk N s (JsMap.delete key (cache s)) Hin).
  - apply length_delete_le.
  - apply keys_delete_incl.
Qed.

Lemma within_bound_has N key now s :
  within_bound N s -> within_bound N (after (MemoryAdapter.has key) now s).
Proof.
  intros Hin. unfold after, MemoryAdapter.has.
  destruct (JsMap.get key (cache s)) as [entry|]; cbn [snd];
    [|assumption].
  destruct (expired entry now); cbn [snd]; [|assumption].
  apply (within_bound_shrunk N s (JsMap.delete key (cache s)) Hin).
  - apply length_delete_le.
  - apply keys_delete_incl.
Qed.

Lemma within_bound_mget N keys now : forall results s,
  within_bound N s -> within_bound N (snd (mget_loop keys results now s)).
Proof.
  induction keys as [|key keys IH]; intros results s Hin; [assumption|].
  rewrite mget_loop_step. apply IH. now apply within_bound_get.
Qed.

Lemma first_key_in {V} (m : JsMap.t V) k :
  JsMap.first_key m = Some k -> In k (JsMap.keys m).
Proof. destruct m as [|[k' v] m]; [discriminate|]. intros [= ->]. now left. Qed.

Lemma within_bound_set N key v ttl now s :
  0 < N ->
  key <> EmptyString ->
  within_bound N s ->
  within_bound N (after (MemoryAdapter.set key v ttl) now s).
Proof.
  intros HN Hkey [Hmax [Hsize Hempty]]. unfold within_bound.
  split; [exact Hmax | split].
  - apply set_within_capacity; try assumption.
    intros Hfirst. apply Hempty. now apply first_key_in.
  - rewrite cache_after_set. intros Hin.
    apply keys_set_in in Hin. destruct Hin as [Heq | Hin]; [congruence|].
    apply Hempty.
    destruct (evicted_by key s) as [firstKey|]; [|assumption].
    now apply (keys_delete_incl firstKey).
Qed.

Lemma within_bound_mset N ttl now : forall entries s,
  0 < N ->
  existsb (fun p => String.eqb (fst p) EmptyString) entries = false ->
  within_bound N s -> within_bound N (snd (mset entries ttl now s)).
Proof.
  induction entries as [|[key v] entries IH]; intros s HN Hnone Hin;
    [assumption|].
  simpl in Hnone. apply Bool.orb_false_elim in Hnone.
  destruct Hnone as [Hkey Hrest]. apply String.eqb_neq in Hkey.
  rewrite mset_step. apply IH; [assumption | assumption |].
  now apply within_bound_set.
Qed.

Lemma within_bound_op N op s :
  0 < N ->
  stores_empty_key op = false ->
  within_bound N s -> within_bound N (run_op s op).
Proof.
  intros HN Hop Hin. destruct op; cbn [run_op].
  - now apply within_bound_get.
  - now apply within_bound_has.
  - now apply within_bound_mget.
  - apply within_bound_set; [assumption | | assumption].
    now apply String.eqb_neq.
  - now apply within_bound_mset.
  - unfold after, MemoryAdapter.delete.
    destruct key as [key|ks]; cbn [snd]; apply within_bound_shrunk;
      try assumption.
    + apply length_delete_le.
    + apply keys_delete_incl.
    + apply delete_all_shrinks.
    + apply delete_all_shrinks.
  - unfold after, MemoryAdapter.clear.
    assert (Hnone : within_bound N (with_cache JsMap.empty s)).
    { apply within_bound_shrunk; [assumption | simpl; lia | intros x []]. }
    destruct pattern as [p|]; [|exact Hnone].
    destruct (truthy_str (Some p)); [|exact Hnone].
    cbn [snd]. apply within_bound_shrunk; try assumption;
      apply delete_all_shrinks.
  - unfold cleanup. apply within_bound_shrunk; try assumption;
      apply delete_all_shrinks.
Qed.

(** Every history of calls that never stores under the empty string
    leaves a store built with a positive bound within that bound. *)
Lemma capacity_kept_without_empty_key N opts t0 ops :
  0 < N ->
  max opts = Some N ->
  existsb stores_empty_key ops = false ->
  JsMap.size (cache (run ops (MemoryAdapter.constructor opts t0))) <= N.
Proof.
  intros HN Hmax Hops.
  assert (Hstart : within_bound N (MemoryAdapter.constructor opts t0)).
  { unfold within_bound, MemoryAdapter.constructor; simpl.
    rewrite Hmax; simpl.
    replace (N =? 0) with false by (symmetry; apply Z.eqb_neq; lia).
    split; [reflexivity | split; [unfold JsMap.size; simpl; lia | intros []]]. }
  revert Hstart Hops. generalize (MemoryAdapter.constructor opts t0).
  induction ops as [|op ops IH]; intros s Hin Hops.
  - apply Hin.
  - simpl in Hops. apply Bool.orb_false_elim in Hops.
    destruct Hops as [Hop Hrest]. simpl. apply IH; [|assumption].
    now apply within_bound_op.
Qed.

(** A new key set on a full store takes the place of the oldest entry,
    the first in insertion order, and of that entry only. *)
Lemma full_store_evicts_oldest key v ttl now s N fk e rest :
  well_formed s ->
  max (options s) = Some N ->
  0 < N ->
  JsMap.size (cache s) = N ->
  cache s = (fk, e) :: rest ->
  fk <> EmptyString ->
  JsMap.has key (cache s) = false ->
  exists entry,
    cache (after (MemoryAdapter.set key v ttl) now s)
    = (rest ++ [(key, entry)])%list
    /\ value entry = v.
Proof.
  intros Hwf Hmax HN Hsize Hc Hfk Hnew.
  unfold after, MemoryAdapter.set; simpl. rewrite Hmax; simpl.
  replace (N =? 0) with false by (symmetry; apply Z.eqb_neq; lia).
  rewrite Hsize, Z.leb_refl, Hnew. simpl.
  unfold evict_oldest. rewrite Hc. cbn [JsMap.first_key].
  unfold truthy_key, truthy_str.
  apply String.eqb_neq in Hfk. rewrite Hfk. cbn [negb].
  unfold well_formed in Hwf. rewrite Hc in Hwf.
  rewrite (delete_head fk e rest Hwf).
  eexists. split.
  - apply set_new.
    rewrite Hc in Hnew. unfold JsMap.has in Hnew. simpl in Hnew.
    destruct (String.eqb key fk); [discriminate|].
    destruct (JsMap.get key rest); [discriminate|reflexivity].
  - reflexivity.
Qed.
End CapacityFacts.

(** The example of the specification: max = 2; [set(a)], [set(b)],
    [set(c)] leave [has(a)] false, [has(b)] true and [has(c)] true. *)
Example capacity_eviction_abc :
  let s := after (MemoryAdapter.set "c" (JNum 3) None) 3
             (after (MemoryAdapter.set "b" (JNum 2) None) 2
                (after (MemoryAdapter.set "a" (JNum 1) None) 1 store_max2)) in
  outcome (MemoryAdapter.has "a") 4 s = Resolved false
  /\ outcome (MemoryAdapter.has "b") 4 s = Resolved true
  /\ outcome (MemoryAdapter.has "c") 4 s = Resolved true.
Proof. vm_compute. repeat split. Qed.

(** C2 at the input on which the code breaks it. With max = 2, after
    [set('')], [set(b)], [set(c)] the store holds three entries: the
    oldest key is the empty string, the test [if (firstKey)] takes it
    for no key at all, and nothing is evicted. *)
Theorem capacity_exceeded_by_empty_first_key :
  let s := after (MemoryAdapter.set "c" (JNum 3) None) 3
             (after (MemoryAdapter.set "b" (JNum 2) None) 2
                (after (MemoryAdapter.set "" (JNum 1) None) 1 store_max2)) in
  MemoryAdapter.max (MemoryAdapter.options s) = Some 2
  /\ JsMap.size (MemoryAdapter.cache s) = 3
  /\ JsMap.keys (MemoryAdapter.cache s) = [""; "b"; "c"]
  /\ outcome (MemoryAdapter.has "") 4 s = Resolved true.
Proof. vm_compute. repeat split. Qed.

(** ** adapters/multi-tier-adapter.ts *)

Section TieredFacts.
Context {S1 S2 : Type} {A1 : ICacheAdapter.t S1} {A2 : ICacheAdapter.t S2}.
Import MultiTierAdapter.

Lemma promise_all_runs_both {A B} (a : Async S1 A) (b : Async S2 B) now
      (s : MultiTierAdapter.t S1 S2) :
  l1 (after (promise_all (on_l1 a) (on_l2 b)) now s) = after a now (l1 s)
  /\ l2 (after (promise_all (on_l1 a) (on_l2 b)) now s) = after b now (l2 s).
Proof.
  unfold after, promise_all, on_l1, on_l2.
  destruct (a now (l1 s)) as [ra s1]; simpl.
  destruct (b now (l2 s)) as [rb s2]; simpl.
  destruct ra, rb; simpl; now split.
Qed.

Lemma clear_runs_on_both (pattern : option string) now
      (s : MultiTierAdapter.t S1 S2) :
  l1 (after (MultiTierAdapter.clear pattern) now s)
  = after (ICacheAdapter.clear pattern) now (l1 s)
  /\ l2 (after (MultiTierAdapter.clear pattern) now s)
     = after (ICacheAdapter.clear pattern) now (l2 s).
Proof.
  pose proof (promise_all_runs_both (ICacheAdapter.clear pattern)
                (ICacheAdapter.clear pattern) now s) as H.
  unfold MultiTierAdapter.clear, after, bind in *.
  destruct (promise_all _ _ now s) as [[r|e] s']; exact H.
Qed.

Lemma keys_asks_cold_only (pattern : option string) now
      (s : MultiTierAdapter.t S1 S2) :
  outcome (MultiTierAdapter.keys pattern) now s
  = outcome (ICacheAdapter.keys pattern) now (l2 s)
  /\ l1 (after (MultiTierAdapter.keys pattern) now s) = l1 s
  /\ l2 (after (MultiTierAdapter.keys pattern) now s)
     = after (ICacheAdapter.keys pattern) now (l2 s).
Proof.
  unfold MultiTierAdapter.keys, outcome, after, on_l2.
  destruct (ICacheAdapter.keys pattern now (l2 s)) as [r s2]. now simpl.
Qed.

Lemma stats_combines now (s : MultiTierAdapter.t S1 S2) st1 st2 s1' s2' :
  ICacheAdapter.stats now (l1 s) = (Resolved st1, s1') ->
  ICacheAdapter.stats now (l2 s) = (Resolved st2, s2') ->
  MultiTierAdapter.stats now s
  = (Resolved (combine_stats st1 st2), mk s1' s2' (l1TTL s) (l2TTL s)).
Proof.
  intros H1 H2.
  unfold MultiTierAdapter.stats, bind, promise_all, on_l1, on_l2.
  rewrite H1. simpl. rewrite H2. reflexivity.
Qed.
End TieredFacts.

(** [clear(pattern)] on a memory adapter leaves no key that the pattern
    matches, and keeps every key it does not match. *)
Lemma keys_delete_all {V} ks : forall (m : JsMap.t V) x,
  In x (JsMap.keys (fold_left (fun c k0 => JsMap.delete k0 c) ks m))
  <-> In x (JsMap.keys m) /\ ~ In x ks.
Proof.
  assert (Hone : forall k0 (m : JsMap.t V) x,
             In x (JsMap.keys (JsMap.delete k0 m))
             <-> In x (JsMap.keys m) /\ x <> k0).
  { intros k0 m x. unfold JsMap.keys, JsMap.delete. rewrite !in_map_iff.
    split.
    - intros [p [Hx Hp]]. apply filter_In in Hp. destruct Hp as [Hp Hk].
      split; [now exists p|].
      intros ->. subst k0. rewrite String.eqb_refl in Hk. discriminate Hk.
    - intros [[p [Hx Hp]] Hne]. exists p. split; [assumption|].
      apply filter_In. split; [assumption|].
      apply Bool.negb_true_iff, String.eqb_neq. congruence. }
  induction ks as [|k0 ks IH]; intros m x; simpl.
  - tauto.
  - rewrite IH, Hone. intuition congruence.
Qed.

Lemma memory_clear_by_pattern p s x :
  p <> EmptyString ->
  In x (JsMap.keys
          (MemoryAdapter.cache (after (MemoryAdapter.clear (Some p)) 0 s)))
  <-> In x (JsMap.keys (MemoryAdapter.cache s))
      /\ MemoryAdapter.regex_test (MemoryAdapter.patternToRegex p) x = false.
Proof.
  intros Hp. unfold after, MemoryAdapter.clear, truthy_str.
  apply String.eqb_neq in Hp. rewrite Hp. cbn [negb snd].
  cbn [MemoryAdapter.cache MemoryAdapter.with_cache].
  rewrite keys_delete_all, filter_In.
  destruct (MemoryAdapter.regex_test (MemoryAdapter.patternToRegex p) x);
    intuition congruence.
Qed.

(** The example of the specification: with [user:1], [user:2] and
    [order:1] present, [clear('user:*')] leaves [order:1] alone. *)
Example glob_clear_users :
  JsMap.keys
    (MemoryAdapter.cache
       (after (MemoryAdapter.clear (Some "user:*")) 0 store_with_users))
  = ["order:1"].
Proof. reflexivity. Qed.

(** On memory tiers, [clear(pattern)] leaves in the hot tier no key that
    the pattern matches. *)
Lemma tiered_clear_reaches_hot_keys {rt : JsRuntime}
      (s : MultiTierAdapter.t MemoryAdapter.t MemoryAdapter.t) p now x :
  p <> EmptyString ->
  In x (JsMap.keys
          (MemoryAdapter.cache
             (MultiTierAdapter.l1
                (after (MultiTierAdapter.clear (Some p)) now s)))) ->
  MemoryAdapter.regex_test (MemoryAdapter.patternToRegex p) x = false.
Proof.
  intros Hp Hin.
  destruct (clear_runs_on_both (Some p) now s) as [H1 _].
  rewrite H1 in Hin.
  now apply (memory_clear_by_pattern p (MultiTierAdapter.l1 s) x Hp).
Qed.

(** C3, as the code has it. [clear], with or without a pattern, runs the
    same [clear] on the hot tier and on the cold tier; [keys] asks the
    cold tier alone and leaves the hot tier untouched. *)
Theorem clear_reaches_both_tiers_keys_cold_only
  {S1 S2 : Type} {A1 : ICacheAdapter.t S1} {A2 : ICacheAdapter.t S2}
  (s : MultiTierAdapter.t S1 S2) (pattern : option string) (now : Z) :
  (MultiTierAdapter.l1 (after (MultiTierAdapter.clear pattern) now s)
   = after (ICacheAdapter.clear pattern) now (MultiTierAdapter.l1 s)
   /\ MultiTierAdapter.l2 (after (MultiTierAdapter.clear pattern) now s)
      = after (ICacheAdapter.clear pattern) now (MultiTierAdapter.l2 s))
  /\ (outcome (MultiTierAdapter.keys pattern) now s
      = outcome (ICacheAdapter.keys pattern) now (MultiTierAdapter.l2 s)
      /\ MultiTierAdapter.l1 (after (MultiTierAdapter.keys pattern) now s)
         = MultiTierAdapter.l1 s
      /\ MultiTierAdapter.l2 (after (MultiTierAdapter.keys pattern) now s)
         = after (ICacheAdapter.keys pattern) now (MultiTierAdapter.l2 s)).
Proof.
  split.
  - apply clear_runs_on_both.
  - apply keys_asks_cold_only.
Qed.

(** C3 as written fails on [clear]: with [user:1] in the hot tier,
    [clear('user:*')] empties the hot tier. *)
Lemma clear_pattern_empties_hot_tier : ~ clear_pattern_spares_hot_tier.
Proof.
  intros H. specialize (H example_runtime hot_user1 "user:*" 2).
  vm_compute in H. discriminate H.
Qed.

(** C6, as the code has it. When both tiers answer their statistics, the
    tiered [stats()] answers: hits, the sum; misses, the larger of the
    two; keys, the cold tier's; memory, the hot tier's plus the cold
    tier's when that one is positive, and the hot tier's alone when it is
    not. *)
Theorem tiered_stats_combination
  {S1 S2 : Type} {A1 : ICacheAdapter.t S1} {A2 : ICacheAdapter.t S2}
  (s : MultiTierAdapter.t S1 S2) (now : Z)
  (st1 st2 : CacheStats.t) (s1' : S1) (s2' : S2) :
  ICacheAdapter.stats now (MultiTierAdapter.l1 s) = (Resolved st1, s1') ->
  ICacheAdapter.stats now (MultiTierAdapter.l2 s) = (Resolved st2, s2') ->
  exists st,
    outcome MultiTierAdapter.stats now s = Resolved st
    /\ CacheStats.hits st = CacheStats.hits st1 + CacheStats.hits st2
    /\ CacheStats.misses st
       = Z.max (CacheStats.misses st1) (CacheStats.misses st2)
    /\ CacheStats.keys st = CacheStats.keys st2
    /\ CacheStats.memory st
       = CacheStats.memory st1 + Z.max 0 (CacheStats.memory st2).
Proof.
  intros H1 H2. exists (MultiTierAdapter.combine_stats st1 st2).
  unfold outcome. rewrite (stats_combines now s st1 st2 s1' s2' H1 H2).
  simpl. repeat split.
  destruct (0 <? CacheStats.memory st2) eqn:E.
  - apply Z.ltb_lt in E. lia.
  - apply Z.ltb_ge in E. lia.
Qed.

Lemma tiered_stats_combination_witness :
  exists st,
    outcome MultiTierAdapter.stats 10
      (tiers_answering (CacheStats.mk 3 4 2 100 50)
                       (CacheStats.mk 5 1 7 200 60))
    = Resolved st
    /\ CacheStats.hits st = 3 + 5
    /\ CacheStats.misses st = Z.max 4 1
    /\ CacheStats.keys st = 7
    /\ CacheStats.memory st = 100 + Z.max 0 200.
Proof.
  apply (tiered_stats_combination
           (tiers_answering (CacheStats.mk 3 4 2 100 50)
                            (CacheStats.mk 5 1 7 200 60))
           10 (CacheStats.mk 3 4 2 100 50) (CacheStats.mk 5 1 7 200 60)
           (StubAdapter.mk (CacheStats.mk 3 4 2 100 50) false 0)
           (StubAdapter.mk (CacheStats.mk 5 1 7 200 60) false 0));
    reflexivity.
Defined.

(** C6 as written fails on memory: a cold tier that reports -1 for a size
    it does not know adds nothing, so 100 and -1 give 100, not 99. *)
Lemma tiered_memory_skips_unknown : ~ tiered_memory_is_sum.
Proof.
  intros H.
  destruct (H (CacheStats.mk 0 0 0 100 0) (CacheStats.mk 0 0 (-1) (-1) 0) 0)
    as [st [Hst [_ [_ [_ Hmem]]]]].
  vm_compute in Hst. injection Hst as <-.
  vm_compute in Hmem. discriminate Hmem.
Qed.

(** ** core/cache-manager.ts: [wrap] *)

Section WrapFacts.
Context {S : Type} {A : ICacheAdapter.t S}.
Implicit Types (m : CacheManager.t S) (factory : Async (CacheManager.t S) JsVal).

Lemma shouldCache_keeps_state options v now m :
  snd (CacheManager.shouldCache options v now m) = m.
Proof.
  unfold CacheManager.shouldCache.
  destruct options as [o|]; [|reflexivity].
  destruct (wrap_condition o); reflexivity.
Qed.

(** [wrap] after a miss, up to the point where the factory has answered. *)
Lemma wrap_after_miss key factory options now m m1 :
  CacheManager.get key now m = (Resolved JNull, m1) ->
  CacheManager.wrap key factory options now m
  = match factory now m1 with
    | (Resolved v, m2) =>
        match CacheManager.shouldCache options v now m2 with
        | (Resolved true, m3) =>
            match CacheManager.set key v (ttl_of options) now m3 with
            | (Resolved _, m4) => (Resolved v, m4)
            | (Rejected e, m4) => CacheManager.handle_fallback options e now m4
            end
        | (Resolved false, m3) => (Resolved v, m3)
        | (Rejected e, m3) => CacheManager.handle_fallback options e now m3
        end
    | (Rejected e, m2) => CacheManager.handle_fallback options e now m2
    end.
Proof.
  intros Hget. unfold CacheManager.wrap, bind, try_catch. rewrite Hget.
  cbn [not_null].
  destruct (factory now m1) as [[v|e] m2]; [|reflexivity].
  destruct (CacheManager.shouldCache options v now m2) as [[[|]|e] m3];
    try reflexivity.
  unfold ttl_of.
  destruct (CacheManager.set key v _ now m3) as [[[]|e] m4]; reflexivity.
Qed.
End WrapFacts.

Lemma handle_fallback_cases {S : Type} (options : option WrapOptions)
      (e : JsError) now (m : CacheManager.t S) :
  CacheManager.handle_fallback options e now m
  = match options with
    | Some o =>
        match wrap_fallback o with
        | FallbackValue JUndefined => (Rejected e, m)
        | FallbackValue v => (Resolved v, m)
        | FallbackFunction f => (f None, m)
        end
    | None => (Rejected e, m)
    end.
Proof.
  unfold CacheManager.handle_fallback.
  destruct options as [o|]; [|reflexivity].
  destruct (wrap_fallback o) as [[]|f]; reflexivity.
Qed.

(** C1, as the code has it. After a miss and a compute that returns [v]:
    when the condition says not to store, [wrap] returns [v]; when the
    store succeeds, [wrap] returns [v]; when the store fails, the [catch]
    block of [wrap] takes the failure as it takes a compute failure: a
    function-valued fallback is called with no argument and its answer
    is the answer of [wrap], any other fallback that is not undefined is
    returned as it is, and with no fallback the store's failure is
    raised. *)
Theorem wrap_returns_value_unless_store_fails
  {S : Type} {A : ICacheAdapter.t S}
  (m m1 m2 : CacheManager.t S) (key : string)
  (factory : Async (CacheManager.t S) JsVal)
  (options : option WrapOptions) (now : Z) (v : JsVal) (should : bool) :
  CacheManager.get key now m = (Resolved JNull, m1) ->
  factory now m1 = (Resolved v, m2) ->
  outcome (CacheManager.shouldCache options v) now m2 = Resolved should ->
  CacheManager.wrap key factory options now m
  = if should then
      match CacheManager.set key v (ttl_of options) now m2 with
      | (Resolved _, m3) => (Resolved v, m3)
      | (Rejected e, m3) =>
          match options with
          | Some o =>
              match wrap_fallback o with
              | FallbackFunction f => (f None, m3)
              | FallbackValue JUndefined => (Rejected e, m3)
              | FallbackValue fallback => (Resolved fallback, m3)
              end
          | None => (Rejected e, m3)
          end
      end
    else (Resolved v, m2).
Proof.
  intros Hget Hfactory Hshould.
  rewrite (wrap_after_miss key factory options now m m1 Hget), Hfactory.
  pose proof (shouldCache_keeps_state options v now m2) as Hstate.
  unfold outcome in Hshould.
  destruct (CacheManager.shouldCache options v now m2) as [r m3].
  simpl in Hshould, Hstate. subst r m3.
  destruct should; [|reflexivity].
  destruct (CacheManager.set key v (ttl_of options) now m2) as [[[]|e] m3];
    [reflexivity|].
  rewrite handle_fallback_cases.
  destruct options as [o|]; [|reflexivity].
  destruct (wrap_fallback o) as [[]|f]; reflexivity.
Qed.

Lemma wrap_returns_value_unless_store_fails_witness :
  CacheManager.wrap (A := StubAdapter.adapter) "k" (ret (JStr "computed"))
    (Some (mkWrapOptions None None (FallbackFunction describe_error)))
    0 manager_with_failing_store
  = (describe_error None, store_attempted manager_with_failing_store)
  /\ CacheManager.wrap (A := StubAdapter.adapter) "k" (ret (JStr "computed"))
       None 0 manager_with_failing_store
     = (Rejected StubAdapter.connection_error,
        store_attempted manager_with_failing_store)
  /\ CacheManager.wrap (A := memory_tier) "k" (ret (JStr "v")) None 5
       manager_in_memory
     = (Resolved (JStr "v"),
        after (CacheManager.set (A := memory_tier) "k" (JStr "v") None) 5
          manager_after_miss).
Proof.
  split; [|split].
  - exact (wrap_returns_value_unless_store_fails (A := StubAdapter.adapter)
             manager_with_failing_store manager_with_failing_store
             manager_with_failing_store "k" (ret (JStr "computed"))
             (Some (mkWrapOptions None None (FallbackFunction describe_error)))
             0 (JStr "computed") true eq_refl eq_refl eq_refl).
  - exact (wrap_returns_value_unless_store_fails (A := StubAdapter.adapter)
             manager_with_failing_store manager_with_failing_store
             manager_with_failing_store "k" (ret (JStr "computed"))
             None 0 (JStr "computed") true eq_refl eq_refl eq_refl).
  - exact (wrap_returns_value_unless_store_fails (A := memory_tier)
             manager_in_memory manager_after_miss manager_after_miss
             "k" (ret (JStr "v")) None 5 (JStr "v") true
             eq_refl eq_refl eq_refl).
Defined.

(** C1 as written fails when the store rejects: with a literal fallback
    configured, [wrap] answers the fallback in place of the computed
    value. *)
Lemma store_failure_masks_value : ~ store_failure_never_masks.
Proof.
  intros H.
  specialize (H StubAdapter.t StubAdapter.adapter
                manager_with_failing_store manager_with_failing_store
                manager_with_failing_store
                "k" (ret (JStr "computed"))
                (Some (mkWrapOptions None None (FallbackValue (JStr "guest"))))
                0 (JStr "computed") eq_refl eq_refl I).
  vm_compute in H. discriminate H.
Qed.

(** C9, as the code has it. After a miss and a compute that fails, a
    function-valued fallback is called with no argument, and what it
    answers is what [wrap] answers. *)
Theorem wrap_calls_fallback_without_argument
  {S : Type} {A : ICacheAdapter.t S}
  (m m1 m2 : CacheManager.t S) (key : string)
  (factory : Async (CacheManager.t S) JsVal)
  (ttl : option Z) (condition : option (JsVal -> Completion bool))
  (f : option JsError -> Completion JsVal) (now : Z) (e : JsError) :
  CacheManager.get key now m = (Resolved JNull, m1) ->
  factory now m1 = (Rejected e, m2) ->
  CacheManager.wrap key factory
    (Some (mkWrapOptions ttl condition (FallbackFunction f))) now m
  = (f None, m2).
Proof.
  intros Hget Hfactory.
  rewrite (wrap_after_miss key factory _ now m m1 Hget), Hfactory.
  reflexivity.
Qed.

Lemma wrap_calls_fallback_without_argument_witness :
  CacheManager.wrap (A := memory_tier) "k" (throw (Thrown "boom"))
    (Some (mkWrapOptions None None (FallbackFunction describe_error)))
    5 manager_in_memory
  = (describe_error None, manager_after_miss).
Proof.
  apply (wrap_calls_fallback_without_argument (A := memory_tier)
           manager_in_memory manager_after_miss manager_after_miss
           "k" (throw (Thrown "boom")) None None describe_error 5
           (Thrown "boom"));
    reflexivity.
Defined.

(** C9 as written fails on the argument: the fallback is called as
    [options.fallback()], so it never sees the failure. *)
Lemma fallback_called_without_failure : ~ fallback_receives_failure.
Proof.
  intros H.
  specialize (H MemoryAdapter.t memory_tier
                manager_in_memory manager_after_miss manager_after_miss
                "k" (throw (Thrown "boom")) None None describe_error 5
                (Thrown "boom") eq_refl eq_refl).
  vm_compute in H. discriminate H.
Qed.

(** ** utils/key-generator.ts *)

Section KeyFacts.
Context {rt : JsRuntime}.
Import KeyGenerator.

Lemma append_assoc (a b c : string) :
  ((a ++ b) ++ c)%string = (a ++ (b ++ c))%string.
Proof. induction a as [|x a IH]; simpl; [reflexivity | now rewrite IH]. Qed.

Lemma render_app args (xs ys : list Segment) :
  render args (xs ++ ys) = (render args xs ++ render args ys)%string.
Proof.
  unfold render. induction xs as [|x xs IH]; simpl; [reflexivity|].
  now rewrite IH, append_assoc.
Qed.

Lemma render_token args before expr after :
  render args (before ++ Token expr :: after)
  = (render args before ++ evaluateExpression expr args
     ++ render args after)%string.
Proof. now rewrite render_app. Qed.

Lemma generate_with_pattern pattern args methodName :
  pattern <> EmptyString ->
  generate (Some pattern) args methodName = render args (scan O pattern).
Proof.
  intros Hne. unfold generate, truthy_str, parseExpression.
  apply String.eqb_neq in Hne. now rewrite Hne.
Qed.

Lemma scan_token_nonempty pattern before expr after :
  scan O pattern = (before ++ Token expr :: after)%list ->
  pattern <> EmptyString.
Proof. intros H ->. simpl in H. now destruct before. Qed.

Lemma dotted_is_not_index expr :
  includes_dot expr = true -> is_index expr = false.
Proof.
  unfold is_index. intros H.
  assert (Hd : all_digits expr = false).
  { induction expr as [|c expr IH]; simpl in *; [discriminate|].
    destruct (Ascii.eqb c ".") eqn:E.
    - apply Ascii.eqb_eq in E. subst c. reflexivity.
    - simpl in H. rewrite (IH H). apply Bool.andb_false_r. }
  rewrite Hd. apply Bool.andb_false_r.
Qed.

Lemma evaluate_bare expr args :
  is_index expr = false ->
  includes_dot expr = false ->
  evaluateExpression expr args = stringify (arg_at args 0).
Proof. unfold evaluateExpression. now intros -> ->. Qed.

End KeyFacts.

(** C4, as the code has it. In [generate], a token whose selector holds
    no dot and is not an index, a bare identifier, is replaced by the
    first call argument made a string: by the empty string when that
    argument is missing, null or undefined, and by the argument itself
    when it is a string. *)
Theorem bare_selector_takes_first_argument
  {rt : JsRuntime} (pattern : string) (args : list JsVal)
  (methodName : string)
  (before after : list KeyGenerator.Segment) (expr : string) :
  KeyGenerator.scan O pattern
  = (before ++ KeyGenerator.Token expr :: after)%list ->
  KeyGenerator.is_index expr = false ->
  KeyGenerator.includes_dot expr = false ->
  KeyGenerator.generate (Some pattern) args methodName
  = (KeyGenerator.render args before
     ++ KeyGenerator.stringify (KeyGenerator.arg_at args 0)
     ++ KeyGenerator.render args after)%string
  /\ (nullish (KeyGenerator.arg_at args 0) = true ->
      KeyGenerator.generate (Some pattern) args methodName
      = (KeyGenerator.render args before
         ++ KeyGenerator.render args after)%string)
  /\ (forall text,
         KeyGenerator.arg_at args 0 = JStr text ->
         KeyGenerator.generate (Some pattern) args methodName
         = (KeyGenerator.render args before ++ text
            ++ KeyGenerator.render args after)%string).
Proof.
  intros Hscan Hindex Hdot.
  pose proof (scan_token_nonempty pattern before expr after Hscan) as Hne.
  rewrite (generate_with_pattern pattern args methodName Hne), Hscan,
    render_token.
  rewrite (evaluate_bare expr args Hindex Hdot).
  split; [reflexivity | split].
  - intros Hnull. destruct (KeyGenerator.arg_at args 0); try discriminate;
      reflexivity.
  - intros text ->. reflexivity.
Qed.

Lemma bare_selector_takes_first_argument_witness :
  KeyGenerator.generate (rt := example_runtime)
    (Some "u:#{username}") [JStr "alice"] "findUser"
  = (KeyGenerator.render (rt := example_runtime) [JStr "alice"]
       [KeyGenerator.Text "u"; KeyGenerator.Text ":"]
     ++ "alice"
     ++ KeyGenerator.render (rt := example_runtime) [JStr "alice"] [])%string
  /\ KeyGenerator.generate (rt := example_runtime)
       (Some "u:#{username}") [] "findUser"
     = (KeyGenerator.render (rt := example_runtime) []
          [KeyGenerator.Text "u"; KeyGenerator.Text ":"]
        ++ KeyGenerator.render (rt := example_runtime) [] [])%string.
Proof.
  split.
  - exact (proj2 (proj2
             (bare_selector_takes_first_argument (rt := example_runtime)
                "u:#{username}" [JStr "alice"] "findUser"
                [KeyGenerator.Text "u"; KeyGenerator.Text ":"] [] "username"
                eq_refl eq_refl eq_refl)) "alice" eq_refl).
  - exact (proj1 (proj2
             (bare_selector_takes_first_argument (rt := example_runtime)
                "u:#{username}" [] "findUser"
                [KeyGenerator.Text "u"; KeyGenerator.Text ":"] [] "username"
                eq_refl eq_refl eq_refl)) eq_refl).
Defined.

(** C4 as written fails on a bare identifier: [user:#{username}] called
    with ['alice'] gives [user:alice], not [user:]. *)
Lemma bare_identifier_is_not_empty : ~ unknown_selector_gives_empty.
Proof.
  intros H.
  specialize (H example_runtime "user:#{username}" [JStr "alice"] "findUser"
                [KeyGenerator.Text "u"; KeyGenerator.Text "s";
                 KeyGenerator.Text "e"; KeyGenerator.Text "r";
                 KeyGenerator.Text ":"]
                [] "username" eq_refl eq_refl eq_refl).
  assert (Hne : "username" <> "result") by discriminate.
  specialize (H Hne). vm_compute in H. discriminate H.
Qed.

(** ** decorators/turbocache-evict.decorator.ts *)

Section EvictFacts.
Context {rt : JsRuntime} {S : Type} {A : ICacheAdapter.t S}.
Implicit Types (m : CacheManager.t S) (options : TurboCacheEvictOptions).


End EvictFacts.

Section EvictInMemory.
Context {rt : JsRuntime}.
Implicit Types (m : CacheManager.t MemoryAdapter.t).




End EvictInMemory.




(* ================================================================== *)
(** * Further properties of the code *)

(** ** adapters/memory-adapter.ts *)

Section MemoryStoreFacts.
Import MemoryAdapter.

Lemma existsb_eqb_in k ks : existsb (String.eqb k) ks = true <-> In k ks.
Proof.
  rewrite existsb_exists. split.
  - intros [x [Hin Hx]]. apply String.eqb_eq in Hx. now subst x.
  - intros Hin. exists k. split; [assumption | apply String.eqb_refl].
Qed.

Lemma get_none_iff {V} k (m : JsMap.t V) :
  JsMap.get k m = None <-> ~ In k (JsMap.keys m).
Proof.
  induction m as [|[k' v'] m IH]; simpl; [tauto|].
  destruct (String.eqb k k') eqn:E.
  - apply String.eqb_eq in E. subst k'. split; [discriminate | tauto].
  - apply String.eqb_neq in E. rewrite IH. split.
    + intros H [Heq | Hin]; [congruence | tauto].
    + tauto.
Qed.

Lemma delete_absent {V} k (m : JsMap.t V) :
  JsMap.get k m = None -> JsMap.delete k m = m.
Proof.
  unfold JsMap.delete. induction m as [|[k' v'] m IH]; simpl; [reflexivity|].
  destruct (String.eqb k k'); [discriminate|]. simpl.
  intros H. now rewrite IH.
Qed.

Lemma get_after_delete_all {V} ks : forall k (m : JsMap.t V),
  JsMap.get k (fold_left (fun c k0 => JsMap.delete k0 c) ks m)
  = if existsb (String.eqb k) ks then None else JsMap.get k m.
Proof.
  induction ks as [|k0 ks IH]; intros k m; simpl; [reflexivity|].
  rewrite IH. destruct (String.eqb k k0) eqn:E; simpl.
  - apply String.eqb_eq in E. subst k0. rewrite get_delete_same.
    now destruct (existsb (String.eqb k) ks).
  - apply String.eqb_neq in E.
    rewrite get_delete_other by congruence. reflexivity.
Qed.

Lemma with_cache_same s : with_cache (cache s) s = s.
Proof. now destruct s. Qed.

Lemma get_outcome k now s :
  outcome (MemoryAdapter.get k) now s
  = Resolved (match live_value k now s with Some v => v | None => JNull end).
Proof.
  unfold outcome, MemoryAdapter.get, live_value, entry_of.
  destruct (JsMap.get k (cache s)) as [entry|]; [|reflexivity].
  now destruct (expired entry now).
Qed.

Lemma has_outcome k now s :
  outcome (MemoryAdapter.has k) now s
  = Resolved (match live_value k now s with Some _ => true | None => false end).
Proof.
  unfold outcome, MemoryAdapter.has, live_value, entry_of.
  destruct (JsMap.get k (cache s)) as [entry|]; [|reflexivity].
  now destruct (expired entry now).
Qed.

Lemma live_after_set k v ttl t0 t s :
  (truthy_num ttl = true -> t <= t0 + num_coalesce ttl 0 * 1000) ->
  live_value k t (after (MemoryAdapter.set k v ttl) t0 s) = Some v.
Proof.
  intros Hlive. unfold live_value. rewrite entry_after_set.
  unfold expired. cbn [expiresAt value].
  destruct (truthy_num ttl); [|reflexivity].
  specialize (Hlive eq_refl).
  replace (t0 + num_coalesce ttl 0 * 1000 <? t) with false
    by (symmetry; apply Z.ltb_ge; lia).
  now rewrite Bool.andb_false_r.
Qed.

(** A read with the same clock reading does not change what is live. *)
Lemma live_after_get k key now s :
  live_value k now (after (MemoryAdapter.get key) now s) = live_value k now s.
Proof.
  unfold live_value, entry_of, after, MemoryAdapter.get.
  destruct (JsMap.get key (cache s)) as [entry|] eqn:E; cbn [snd];
    [|reflexivity].
  destruct (expired entry now) eqn:X; cbn [snd]; [|reflexivity].
  cbn [cache miss with_cache].
  destruct (string_dec key k) as [-> | Hne].
  - rewrite get_delete_same, E, X. reflexivity.
  - now rewrite get_delete_other.
Qed.
End MemoryStoreFacts.

(** X1. Round trip: what [set] stores, [get] returns and [has] confirms,
    at every clock reading up to and including the expiry instant, and
    at every clock reading when the ttl is absent or 0; the read is
    counted as a hit. *)
Theorem set_then_get_round_trip
  (s : MemoryAdapter.t) (k : string) (v : JsVal) (ttl : option Z) (t0 t : Z) :
  (truthy_num ttl = true -> t <= t0 + num_coalesce ttl 0 * 1000) ->
  let s1 := after (MemoryAdapter.set k v ttl) t0 s in
  outcome (MemoryAdapter.get k) t s1 = Resolved v
  /\ outcome (MemoryAdapter.has k) t s1 = Resolved true
  /\ counted_hit s1 (after (MemoryAdapter.get k) t s1).
Proof.
  intros Hlive s1.
  pose proof (live_after_set k v ttl t0 t s Hlive) as Hv. fold s1 in Hv.
  rewrite get_outcome, has_outcome, Hv. repeat split.
  - pose proof (get_counts k t s1) as Hc. cbv zeta in Hc.
    unfold live_value in Hv.
    destruct (entry_of k s1) as [entry|]; [|discriminate].
    destruct (MemoryAdapter.expired entry t); [discriminate|]. apply Hc.
  - pose proof (get_counts k t s1) as Hc. cbv zeta in Hc.
    unfold live_value in Hv.
    destruct (entry_of k s1) as [entry|]; [|discriminate].
    destruct (MemoryAdapter.expired entry t); [discriminate|]. apply Hc.
Qed.

Lemma set_then_get_round_trip_witness :
  outcome (MemoryAdapter.get "k") 61000
    (after (MemoryAdapter.set "k" (JStr "v") (Some 60)) 1000 store_max2)
  = Resolved (JStr "v").
Proof.
  apply (set_then_get_round_trip store_max2 "k" (JStr "v") (Some 60)
           1000 61000).
  intros _. vm_compute. discriminate.
Defined.

Lemma delete_removes_exactly_given_keys_aux
  (s : MemoryAdapter.t) (target : KeyArg) (now : Z) (k : string) :
  entry_of k (after (MemoryAdapter.delete target) now s)
  = (if existsb (String.eqb k) (keys_named target) then None
     else entry_of k s)
  /\ counted_nothing s (after (MemoryAdapter.delete target) now s).
Proof.
  unfold after, MemoryAdapter.delete, entry_of, counted_nothing.
  destruct target as [k0|ks]; cbn [snd keys_named].
  - cbn [MemoryAdapter.cache MemoryAdapter.with_cache MemoryAdapter.hits
         MemoryAdapter.misses existsb].
    rewrite Bool.orb_false_r. repeat split.
    destruct (String.eqb k k0) eqn:E.
    + apply String.eqb_eq in E. subst k0. apply get_delete_same.
    + apply String.eqb_neq in E. apply get_delete_other. congruence.
  - cbn [MemoryAdapter.cache MemoryAdapter.with_cache MemoryAdapter.hits
         MemoryAdapter.misses].
    repeat split. apply get_after_delete_all.
Qed.

(** X2. [delete] removes the keys it is given and no other entry, it
    counts neither a hit nor a miss, and deleting keys that are not
    there changes nothing at all. *)
Theorem delete_removes_exactly_given_keys
  (s : MemoryAdapter.t) (target : KeyArg) (now : Z) (k : string) :
  let s' := after (MemoryAdapter.delete target) now s in
  entry_of k s'
  = (if existsb (String.eqb k) (keys_named target) then None
     else entry_of k s)
  /\ counted_nothing s s'
  /\ ((forall k0, In k0 (keys_named target) -> entry_of k0 s = None) ->
      s' = s).
Proof.
  unfold after, MemoryAdapter.delete, entry_of, counted_nothing.
  destruct target as [k0|ks]; cbn [snd keys_named].
  - cbn [MemoryAdapter.cache MemoryAdapter.with_cache MemoryAdapter.hits
         MemoryAdapter.misses existsb].
    rewrite Bool.orb_false_r. repeat split.
    + destruct (String.eqb k k0) eqn:E.
      * apply String.eqb_eq in E. subst k0. apply get_delete_same.
      * apply String.eqb_neq in E. apply get_delete_other. congruence.
    + intros Habsent. rewrite delete_absent; [apply with_cache_same|].
      apply Habsent. now left.
  - cbn [MemoryAdapter.cache MemoryAdapter.with_cache MemoryAdapter.hits
         MemoryAdapter.misses].
    repeat split; [apply get_after_delete_all|].
    intros Habsent.
    assert (Hsame : fold_left (fun c k0 => JsMap.delete k0 c) ks
                      (MemoryAdapter.cache s) = MemoryAdapter.cache s).
    { revert Habsent. generalize (MemoryAdapter.cache s).
      induction ks as [|k0 ks IH]; intros c Habsent; simpl; [reflexivity|].
      rewrite (delete_absent k0 c) by (apply Habsent; now left).
      apply IH. intros k1 Hin. apply Habsent. now right. }
    rewrite Hsame. apply with_cache_same.
Qed.

Lemma delete_removes_exactly_given_keys_witness :
  after (MemoryAdapter.delete (ManyKeys ["x"; "y"])) 5 store_a_b = store_a_b.
Proof.
  apply (delete_removes_exactly_given_keys store_a_b (ManyKeys ["x"; "y"])
           5 "a").
  intros k0 [<- | [<- | []]]; reflexivity.
Defined.

(** X3. [has] agrees with [get] about expiry: both leave the same
    entries behind, a key [has] denies is one [get] answers null for,
    and a key [has] confirms is one [get] answers the stored value for.
    (The two part ways only on a stored null, which [has] confirms.) *)
Theorem has_agrees_with_get (s : MemoryAdapter.t) (k : string) (now : Z) :
  MemoryAdapter.cache (after (MemoryAdapter.has k) now s)
  = MemoryAdapter.cache (after (MemoryAdapter.get k) now s)
  /\ (outcome (MemoryAdapter.has k) now s = Resolved false ->
      outcome (MemoryAdapter.get k) now s = Resolved JNull)
  /\ (outcome (MemoryAdapter.has k) now s = Resolved true ->
      exists entry,
        entry_of k s = Some entry
        /\ outcome (MemoryAdapter.get k) now s
           = Resolved (MemoryAdapter.value entry)).
Proof.
  unfold after, outcome, MemoryAdapter.has, MemoryAdapter.get, entry_of.
  destruct (JsMap.get k (MemoryAdapter.cache s)) as [entry|].
  - destruct (MemoryAdapter.expired entry now); cbn [fst snd];
      repeat split; try discriminate; try reflexivity.
    intros _. now exists entry.
  - cbn [fst snd]. repeat split; try discriminate; reflexivity.
Qed.

Lemma has_agrees_with_get_witness :
  exists entry,
    entry_of "a" store_a_b = Some entry
    /\ outcome (MemoryAdapter.get "a") 9 store_a_b
       = Resolved (MemoryAdapter.value entry).
Proof.
  apply (has_agrees_with_get store_a_b "a" 9). reflexivity.
Defined.

Section EvictionFacts.
Import MemoryAdapter.

Lemma get_app_notin {V} k (m1 m2 : JsMap.t V) :
  JsMap.get k m1 = None -> JsMap.get k (m1 ++ m2)%list = JsMap.get k m2.
Proof.
  induction m1 as [|[k' v'] m1 IH]; simpl; [reflexivity|].
  destruct (String.eqb k k'); [discriminate | exact IH].
Qed.
End EvictionFacts.

(** X4. Eviction goes by insertion order, not by access: on a full store
    whose oldest key is not the empty string and has just been read
    with a hit, storing a new key still evicts that oldest key, and only
    it; the other entries keep their order and the new key comes last. *)
Theorem oldest_evicted_even_after_read
  (s : MemoryAdapter.t) (N : Z) (oldest : string)
  (e : MemoryAdapter.CacheEntry) (rest : JsMap.t MemoryAdapter.CacheEntry)
  (key : string) (v : JsVal) (ttl : option Z) (now now' : Z) :
  well_formed s ->
  MemoryAdapter.max (MemoryAdapter.options s) = Some N ->
  0 < N ->
  JsMap.size (MemoryAdapter.cache s) = N ->
  MemoryAdapter.cache s = (oldest, e) :: rest ->
  oldest <> EmptyString ->
  MemoryAdapter.expired e now = false ->
  JsMap.has key (MemoryAdapter.cache s) = false ->
  outcome (MemoryAdapter.get oldest) now s = Resolved (MemoryAdapter.value e)
  /\ exists entry,
       MemoryAdapter.cache
         (after (MemoryAdapter.set key v ttl) now'
            (after (MemoryAdapter.get oldest) now s))
       = (rest ++ [(key, entry)])%list
       /\ MemoryAdapter.value entry = v
       /\ entry_of oldest
            (after (MemoryAdapter.set key v ttl) now'
               (after (MemoryAdapter.get oldest) now s))
          = None.
Proof.
  intros Hwf Hmax HN Hsize Hc Hold Hlive Hnew.
  assert (Hget : MemoryAdapter.get oldest now s
                 = (Resolved (MemoryAdapter.value e), MemoryAdapter.hit s)).
  { unfold MemoryAdapter.get. rewrite Hc. simpl.
    rewrite String.eqb_refl, Hlive. reflexivity. }
  unfold outcome, after at 2 4. rewrite Hget. cbn [fst snd].
  split; [reflexivity|].
  destruct (full_store_evicts_oldest key v ttl now' (MemoryAdapter.hit s)
              N oldest e rest Hwf Hmax HN Hsize Hc Hold Hnew)
    as [entry [Hcache Hvalue]].
  exists entry. split; [exact Hcache | split; [exact Hvalue|]].
  unfold entry_of. rewrite Hcache.
  unfold well_formed in Hwf. rewrite Hc in Hwf.
  inversion Hwf as [|? ? Hnotin _]; subst.
  rewrite get_app_notin by (now apply get_none_iff). simpl.
  destruct (String.eqb oldest key) eqn:E; [|reflexivity].
  apply String.eqb_eq in E. subst key.
  rewrite Hc in Hnew. unfold JsMap.has in Hnew. simpl in Hnew.
  rewrite String.eqb_refl in Hnew. discriminate Hnew.
Qed.

Lemma oldest_evicted_even_after_read_witness :
  outcome (MemoryAdapter.has "a") 9
    (after (MemoryAdapter.set "c" (JNum 3) None) 8
       (after (MemoryAdapter.get "a") 7 store_a_b))
  = Resolved false.
Proof.
  destruct (oldest_evicted_even_after_read store_a_b 2 "a"
              (MemoryAdapter.mkEntry (JNum 1) 0)
              [("b", MemoryAdapter.mkEntry (JNum 2) 1002)]
              "c" (JNum 3) None 7 8)
    as [_ [entry [_ [_ Hgone]]]].
  - unfold well_formed. vm_compute.
    repeat constructor; simpl; intuition discriminate.
  - reflexivity.
  - lia.
  - reflexivity.
  - reflexivity.
  - discriminate.
  - reflexivity.
  - reflexivity.
  - unfold outcome, MemoryAdapter.has. unfold entry_of in Hgone.
    rewrite Hgone. reflexivity.
Defined.

(** X5. The sweep removes exactly the expired entries: afterwards a key
    has its entry if that entry had not expired, and none otherwise;
    the counters are not touched. *)
Theorem cleanup_removes_exactly_expired
  (s : MemoryAdapter.t) (now : Z) (k : string) :
  well_formed s ->
  entry_of k (MemoryAdapter.cleanup now s)
  = match entry_of k s with
    | Some entry =>
        if MemoryAdapter.expired entry now then None else Some entry
    | None => None
    end
  /\ counted_nothing s (MemoryAdapter.cleanup now s).
Proof.
  intros Hwf. split; [|now split].
  unfold entry_of, MemoryAdapter.cleanup.
  cbn [MemoryAdapter.cache MemoryAdapter.with_cache].
  rewrite get_after_delete_all.
  set (m := MemoryAdapter.cache s) in *.
  set (ks := JsMap.keys
               (filter (fun p => MemoryAdapter.expired (snd p) now) m)).
  assert (Hks : In k ks
                <-> exists entry, JsMap.get k m = Some entry
                                  /\ MemoryAdapter.expired entry now = true).
  { unfold ks, JsMap.keys. rewrite in_map_iff. split.
    - intros [p [Hk Hin]]. destruct p as [k' entry]. simpl in Hk. subst k'.
      apply filter_In in Hin. destruct Hin as [Hin Hexp].
      exists entry. split; [now apply in_get_nodup | exact Hexp].
    - intros [entry [Hget Hexp]]. exists (k, entry). split; [reflexivity|].
      apply filter_In. split; [now apply get_some_in | exact Hexp]. }
  destruct (existsb (String.eqb k) ks) eqn:E.
  - apply existsb_eqb_in, Hks in E. destruct E as [entry [Hget Hexp]].
    now rewrite Hget, Hexp.
  - destruct (JsMap.get k m) as [entry|] eqn:Hget; [|reflexivity].
    destruct (MemoryAdapter.expired entry now) eqn:Hexp; [|reflexivity].
    assert (Hin : In k ks) by (apply Hks; now exists entry).
    apply existsb_eqb_in in Hin. congruence.
Qed.

Lemma cleanup_removes_exactly_expired_witness :
  entry_of "b" (MemoryAdapter.cleanup 5000 store_a_b) = None
  /\ entry_of "a" (MemoryAdapter.cleanup 5000 store_a_b)
     = Some (MemoryAdapter.mkEntry (JNum 1) 0).
Proof.
  assert (Hwf : well_formed store_a_b).
  { unfold store_a_b. apply well_formed_run, well_formed_constructor. }
  split.
  - exact (proj1 (cleanup_removes_exactly_expired store_a_b 5000 "b" Hwf)).
  - exact (proj1 (cleanup_removes_exactly_expired store_a_b 5000 "a" Hwf)).
Defined.

Section MgetFacts.
Import MemoryAdapter.

Lemma mget_loop_reports k now : forall ks results s,
  exists found,
    outcome (mget_loop ks results) now s = Resolved found
    /\ JsMap.get k found
       = match (if existsb (String.eqb k) ks
                then reported_value k now s else None) with
         | Some v => Some v
         | None => JsMap.get k results
         end.
Proof.
  induction ks as [|key ks IH]; intros results s.
  - exists results. split; reflexivity.
  - unfold outcome. rewrite mget_loop_step.
    rewrite get_outcome.
    set (v := match live_value key now s with Some v => v | None => JNull end).
    set (results' := if not_null v then JsMap.set key v results else results).
    destruct (IH results' (after (MemoryAdapter.get key) now s))
      as [found [Hfound Hget]].
    exists found. split; [exact Hfound|].
    rewrite Hget. unfold reported_value. rewrite live_after_get.
    cbn [existsb].
    destruct (String.eqb k key) eqn:E.
    + apply String.eqb_eq in E. subst key. cbn [orb].
      unfold results', v.
      destruct (live_value k now s) as [w|].
      * destruct (not_null w) eqn:Hw.
        -- now destruct (existsb (String.eqb k) ks); rewrite ?get_set_same.
        -- now destruct (existsb (String.eqb k) ks).
      * cbn [not_null]. now destruct (existsb (String.eqb k) ks).
    + cbn [orb]. apply String.eqb_neq in E.
      assert (Hres : JsMap.get k results' = JsMap.get k results).
      { unfold results'. destruct (not_null v); [|reflexivity].
        apply get_set_other. congruence. }
      now rewrite Hres.
Qed.
End MgetFacts.

(** X6. [mget] answers exactly the requested keys that hold a live value
    other than null: for every key, the answer maps it to that value
    when it was asked for and is live, and does not mention it
    otherwise. *)
Theorem mget_returns_present_keys
  (s : MemoryAdapter.t) (keys : list string) (now : Z) (k : string) :
  exists found,
    outcome (MemoryAdapter.mget keys) now s = Resolved found
    /\ JsMap.get k found
       = (if existsb (String.eqb k) keys then reported_value k now s
          else None).
Proof.
  destruct (mget_loop_reports k now keys JsMap.empty s) as [found [H1 H2]].
  exists found. split; [exact H1|]. rewrite H2.
  now destruct (if existsb (String.eqb k) keys
                then reported_value k now s else None).
Qed.

Section GlobFacts.
Import MemoryAdapter.

Lemma any_run_alone k :
  regex_test [AnyRun] k = no_line_terminator k.
Proof.
  induction k as [|d k IH]; [reflexivity|].
  simpl in *. rewrite IH. reflexivity.
Qed.

Lemma literal_pattern pre : forall k,
  has_char "*" pre = false ->
  regex_test (patternToRegex pre) k = String.eqb pre k.
Proof.
  induction pre as [|c pre IH]; intros k Hstar.
  - simpl. destruct k; reflexivity.
  - cbn [has_char] in Hstar. apply Bool.orb_false_elim in Hstar.
    destruct Hstar as [Hc Hpre].
    rewrite Ascii.eqb_sym in Hc. cbn [patternToRegex]. rewrite Hc.
    cbn [regex_test String.eqb].
    destruct k as [|d k]; [reflexivity|].
    rewrite (IH k Hpre). reflexivity.
Qed.

Lemma prefix_pattern pre : forall k,
  has_char "*" pre = false ->
  regex_test (patternToRegex (pre ++ "*")) k = true
  <-> exists rest, k = (pre ++ rest)%string /\ no_line_terminator rest = true.
Proof.
  induction pre as [|c pre IH]; intros k Hstar.
  - change (patternToRegex ("" ++ "*")) with [AnyRun].
    rewrite any_run_alone. split.
    + intros H. now exists k.
    + intros [rest [-> H]]. exact H.
  - cbn [has_char] in Hstar. apply Bool.orb_false_elim in Hstar.
    destruct Hstar as [Hc Hpre].
    rewrite Ascii.eqb_sym in Hc.
    cbn [append patternToRegex]. rewrite Hc. cbn [regex_test].
    destruct k as [|d k].
    + split; [discriminate|]. intros [rest [H _]]. discriminate H.
    + rewrite Bool.andb_true_iff, (IH k Hpre), Ascii.eqb_eq. split.
      * intros [-> [rest [-> H]]]. now exists rest.
      * intros [rest [Heq H]]. injection Heq as -> ->.
        split; [reflexivity | now exists rest].
Qed.
End GlobFacts.

(** X7. The glob of [clear] and [keys] is anchored at both ends. A
    pattern without [*] matches the one key equal to it, whatever
    characters it holds (a dot or a bracket stands for itself); a
    pattern that ends in its only [*] matches the keys that start with
    what comes before the [*] and go on without a line break. *)
Theorem glob_matches_whole_key (pre k : string) :
  has_char "*" pre = false ->
  MemoryAdapter.regex_test (MemoryAdapter.patternToRegex pre) k
  = String.eqb pre k
  /\ (MemoryAdapter.regex_test (MemoryAdapter.patternToRegex (pre ++ "*")) k
      = true
      <-> exists rest,
            k = (pre ++ rest)%string /\ no_line_terminator rest = true).
Proof.
  intros Hstar. split.
  - now apply literal_pattern.
  - now apply prefix_pattern.
Qed.

Lemma glob_matches_whole_key_witness :
  MemoryAdapter.regex_test (MemoryAdapter.patternToRegex "user.1") "userX1"
  = String.eqb "user.1" "userX1".
Proof.
  apply (glob_matches_whole_key "user.1" "userX1"). reflexivity.
Defined.

Lemma clear_removes_matching_entries_aux
  (s : MemoryAdapter.t) (p : string) (now : Z) (k : string) :
  p <> EmptyString ->
  entry_of k (after (MemoryAdapter.clear (Some p)) now s)
  = (if MemoryAdapter.regex_test (MemoryAdapter.patternToRegex p) k
     then None else entry_of k s)
  /\ counted_nothing s (after (MemoryAdapter.clear (Some p)) now s).
Proof.
  intros Hp. apply String.eqb_neq in Hp.
  unfold after, MemoryAdapter.clear, entry_of, counted_nothing, truthy_str.
  rewrite Hp. cbn [negb snd].
  cbn [MemoryAdapter.cache MemoryAdapter.with_cache MemoryAdapter.hits
       MemoryAdapter.misses].
  split; [|now split].
  rewrite get_after_delete_all.
  set (test := MemoryAdapter.regex_test (MemoryAdapter.patternToRegex p)).
  destruct (existsb (String.eqb k)
              (filter test (JsMap.keys (MemoryAdapter.cache s)))) eqn:E.
  - apply existsb_eqb_in, filter_In in E. destruct E as [_ E].
    now rewrite E.
  - destruct (test k) eqn:T; [|reflexivity].
    destruct (JsMap.get k (MemoryAdapter.cache s)) eqn:G; [|reflexivity].
    assert (Hin : In k (filter test (JsMap.keys (MemoryAdapter.cache s)))).
    { apply filter_In. split; [|exact T].
      destruct (in_dec string_dec k (JsMap.keys (MemoryAdapter.cache s)))
        as [Hin | Hnin]; [exact Hin|].
      apply get_none_iff in Hnin. congruence. }
    apply existsb_eqb_in in Hin. congruence.
Qed.

(** X8. [clear] with a pattern removes the entries whose keys the pattern
    matches and leaves every other entry as it was; with no pattern, or
    with the empty pattern, it removes every entry. It never touches
    the counters or the options. *)
Theorem clear_removes_matching_entries
  (s : MemoryAdapter.t) (pattern : option string) (now : Z) (k : string) :
  let s' := after (MemoryAdapter.clear pattern) now s in
  entry_of k s'
  = (match pattern with
     | Some p =>
         if String.eqb p "" then None
         else if MemoryAdapter.regex_test (MemoryAdapter.patternToRegex p) k
              then None else entry_of k s
     | None => None
     end)
  /\ counted_nothing s s'
  /\ MemoryAdapter.options s' = MemoryAdapter.options s.
Proof.
  destruct pattern as [p|]; [|now repeat split].
  destruct (String.eqb p "") eqn:Hp.
  - apply String.eqb_eq in Hp. subst p. now repeat split.
  - apply String.eqb_neq in Hp.
    destruct (clear_removes_matching_entries_aux s p now k Hp) as [H1 H2].
    split; [exact H1 | split; [exact H2|]].
    unfold after, MemoryAdapter.clear, truthy_str.
    apply String.eqb_neq in Hp. now rewrite Hp.
Qed.

(** X9. [keys] lists what is stored, expired or not, and removes
    nothing: an entry past its expiry is still listed by [keys()] at
    the very clock reading at which [has] denies it. *)
Theorem keys_lists_expired_entries
  (s : MemoryAdapter.t) (k : string) (entry : MemoryAdapter.CacheEntry)
  (now : Z) :
  entry_of k s = Some entry ->
  MemoryAdapter.expired entry now = true ->
  exists listed,
    MemoryAdapter.keys None now s = (Resolved listed, s)
    /\ In k listed
    /\ outcome (MemoryAdapter.has k) now s = Resolved false.
Proof.
  intros Hentry Hexp. exists (JsMap.keys (MemoryAdapter.cache s)).
  split; [reflexivity | split].
  - destruct (in_dec string_dec k (JsMap.keys (MemoryAdapter.cache s)))
      as [Hin | Hnin]; [exact Hin|].
    apply get_none_iff in Hnin. unfold entry_of in Hentry. congruence.
  - rewrite has_outcome. unfold live_value. now rewrite Hentry, Hexp.
Qed.

Lemma keys_lists_expired_entries_witness :
  exists listed,
    MemoryAdapter.keys None 5000 store_a_b = (Resolved listed, store_a_b)
    /\ In "b" listed
    /\ outcome (MemoryAdapter.has "b") 5000 store_a_b = Resolved false.
Proof.
  apply (keys_lists_expired_entries store_a_b "b"
           (MemoryAdapter.mkEntry (JNum 2) 1002) 5000); reflexivity.
Defined.

Section StatsFacts.
Context {rt : JsRuntime}.
Import MemoryAdapter.

Lemma delete_all_is_filter {V} ks : forall (m : JsMap.t V),
  fold_left (fun c k0 => JsMap.delete k0 c) ks m
  = filter (fun p => negb (existsb (String.eqb (fst p)) ks)) m.
Proof.
  induction ks as [|k0 ks IH]; intros m; simpl.
  - induction m as [|p m IHm]; simpl; [reflexivity | now rewrite <- IHm].
  - rewrite IH. unfold JsMap.delete.
    induction m as [|p m IHm]; simpl; [reflexivity|].
    rewrite (String.eqb_sym (fst p) k0).
    destruct (String.eqb k0 (fst p)); simpl.
    + exact IHm.
    + destruct (existsb (String.eqb (fst p)) ks); simpl;
        [exact IHm | now rewrite IHm].
Qed.

Lemma cleanup_keeps_unexpired now s :
  well_formed s ->
  cache (cleanup now s)
  = filter (fun p => negb (expired (snd p) now)) (cache s).
Proof.
  intros Hwf. unfold cleanup. cbn [cache with_cache].
  rewrite delete_all_is_filter. apply filter_ext_in.
  intros [k entry] Hin. cbn [fst snd]. f_equal.
  set (ks := JsMap.keys (filter (fun p => expired (snd p) now) (cache s))).
  destruct (expired entry now) eqn:Hexp.
  - apply existsb_eqb_in. unfold ks, JsMap.keys. apply in_map_iff.
    exists (k, entry). split; [reflexivity|]. apply filter_In. now split.
  - destruct (existsb (String.eqb k) ks) eqn:E; [|reflexivity].
    apply existsb_eqb_in in E. unfold ks, JsMap.keys in E.
    apply in_map_iff in E. destruct E as [p [Hk Hp]].
    destruct p as [k' entry']. simpl in Hk. subst k'.
    apply filter_In in Hp. destruct Hp as [Hp Hexp']. simpl in Hexp'.
    apply (in_get_nodup k entry' (cache s) Hwf) in Hp.
    apply (in_get_nodup k entry (cache s) Hwf) in Hin. congruence.
Qed.

Lemma estimate_resolves : forall (c : JsMap.t CacheEntry) acc,
  (forall k entry, In (k, entry) c -> JSON_stringify (value entry) <> None) ->
  exists mem,
    estimateMemoryUsage c acc = Resolved mem
    /\ acc + 16 * Z.of_nat (List.length c) <= mem.
Proof.
  induction c as [|[k entry] c IH]; intros acc Hjson.
  - exists acc. simpl. split; [reflexivity | lia].
  - cbn [estimateMemoryUsage].
    destruct (JSON_stringify (value entry)) as [valueStr|] eqn:E.
    + destruct (IH (acc + Z.of_nat (String.length k) * 2
                        + Z.of_nat (String.length valueStr) * 2 + 16))
        as [mem [Hmem Hle]].
      { intros k' entry' Hin. apply (Hjson k' entry'). now right. }
      exists mem. split; [exact Hmem|].
      rewrite length_cons, Nat2Z.inj_succ. lia.
    + exfalso. apply (Hjson k entry); [now left | exact E].
Qed.

Lemma estimate_rejects : forall (c : JsMap.t CacheEntry) acc k entry,
  In (k, entry) c ->
  JSON_stringify (value entry) = None ->
  exists err, estimateMemoryUsage c acc = Rejected err.
Proof.
  induction c as [|[k' entry'] c IH]; intros acc k entry Hin Hjson;
    [contradiction|].
  cbn [estimateMemoryUsage].
  destruct (JSON_stringify (value entry')) as [valueStr|] eqn:E.
  - destruct Hin as [Heq | Hin]; [injection Heq as -> ->; congruence|].
    now apply (IH _ k entry).
  - now exists (Thrown "TypeError").
Qed.
End StatsFacts.

(** X10. [stats()] first sweeps, then reports on what is left. When every
    entry left has a JSON text, it answers with the number of entries
    that had not expired, the time since construction, and a memory
    estimate of at least 16 bytes an entry. When [JSON.stringify] has
    no text for the value of an entry left, as for [undefined], the
    call is rejected; the sweep has been done all the same. *)
Theorem stats_reports_live_entries
  {rt : JsRuntime} (s : MemoryAdapter.t) (now : Z) :
  well_formed s ->
  let live :=
    filter (fun p => negb (MemoryAdapter.expired (snd p) now))
           (MemoryAdapter.cache s) in
  ((forall k entry,
       In (k, entry) live ->
       JSON_stringify (MemoryAdapter.value entry) <> None) ->
   exists st,
     MemoryAdapter.stats now s = (Resolved st, MemoryAdapter.cleanup now s)
     /\ CacheStats.keys st = Z.of_nat (List.length live)
     /\ CacheStats.uptime st = now - MemoryAdapter.startTime s
     /\ 16 * CacheStats.keys st <= CacheStats.memory st)
  /\ (forall k entry,
         In (k, entry) live ->
         JSON_stringify (MemoryAdapter.value entry) = None ->
         exists err,
           MemoryAdapter.stats now s
           = (Rejected err, MemoryAdapter.cleanup now s)).
Proof.
  intros Hwf live.
  pose proof (cleanup_keeps_unexpired now s Hwf) as Hlive. fold live in Hlive.
  unfold MemoryAdapter.stats. rewrite Hlive. split.
  - intros Hjson.
    destruct (estimate_resolves live 0 Hjson) as [mem [Hmem Hle]].
    rewrite Hmem. eexists. split; [reflexivity|].
    cbn [CacheStats.keys CacheStats.uptime CacheStats.memory].
    unfold JsMap.size. repeat split. lia.
  - intros k entry Hin Hjson.
    destruct (estimate_rejects live 0 k entry Hin Hjson) as [err Herr].
    rewrite Herr. now exists err.
Qed.

Lemma stats_reports_live_entries_witness :
  exists st,
    MemoryAdapter.stats (rt := scalar_runtime) 5000 store_a_b
    = (Resolved st, MemoryAdapter.cleanup 5000 store_a_b)
    /\ CacheStats.keys st = 1
    /\ CacheStats.uptime st = 5000 - 0
    /\ 16 * CacheStats.keys st <= CacheStats.memory st.
Proof.
  assert (Hwf : well_formed store_a_b).
  { unfold store_a_b. apply well_formed_run, well_formed_constructor. }
  apply (proj1 (stats_reports_live_entries (rt := scalar_runtime)
                  store_a_b 5000 Hwf)).
  intros k entry [Heq | []]. injection Heq as <- <-. discriminate.
Defined.



(** ** adapters/multi-tier-adapter.ts *)

Section TieredGetFacts.
Context {S1 S2 : Type} {A1 : ICacheAdapter.t S1} {A2 : ICacheAdapter.t S2}.
Import MultiTierAdapter.

Lemma tiered_get_hot_hit key now (s : MultiTierAdapter.t S1 S2) v s1' :
  ICacheAdapter.get key now (l1 s) = (Resolved v, s1') ->
  not_null v = true ->
  MultiTierAdapter.get key now s
  = (Resolved v, mk s1' (l2 s) (l1TTL s) (l2TTL s)).
Proof.
  intros H1 Hv. unfold MultiTierAdapter.get, bind, on_l1.
  rewrite H1, Hv. reflexivity.
Qed.

Lemma tiered_get_hot_rejects key now (s : MultiTierAdapter.t S1 S2) e s1' :
  ICacheAdapter.get key now (l1 s) = (Rejected e, s1') ->
  MultiTierAdapter.get key now s
  = (Rejected e, mk s1' (l2 s) (l1TTL s) (l2TTL s)).
Proof.
  intros H1. unfold MultiTierAdapter.get, bind, on_l1.
  rewrite H1. reflexivity.
Qed.

Lemma tiered_get_backfills key now (s : MultiTierAdapter.t S1 S2) v s1' s2' :
  ICacheAdapter.get key now (l1 s) = (Resolved JNull, s1') ->
  ICacheAdapter.get key now (l2 s) = (Resolved v, s2') ->
  not_null v = true ->
  MultiTierAdapter.get key now s
  = (Resolved v,
     mk (after (ICacheAdapter.set key v (Some (l1TTL s))) now s1') s2'
        (l1TTL s) (l2TTL s)).
Proof.
  intros H1 H2 Hv.
  unfold MultiTierAdapter.get, bind, on_l1, on_l2, fire_and_forget, after.
  rewrite H1. cbn [not_null l1 l2 l1TTL l2TTL]. rewrite H2, Hv.
  cbn [l1 l2 l1TTL l2TTL snd].
  destruct (ICacheAdapter.set key v (Some (l1TTL s)) now s1') as [r s1''].
  reflexivity.
Qed.

Lemma tiered_get_both_miss key now (s : MultiTierAdapter.t S1 S2) s1' s2' :
  ICacheAdapter.get key now (l1 s) = (Resolved JNull, s1') ->
  ICacheAdapter.get key now (l2 s) = (Resolved JNull, s2') ->
  MultiTierAdapter.get key now s
  = (Resolved JNull, mk s1' s2' (l1TTL s) (l2TTL s)).
Proof.
  intros H1 H2. unfold MultiTierAdapter.get, bind, on_l1, on_l2.
  rewrite H1. cbn [not_null l1 l2 l1TTL l2TTL]. rewrite H2. reflexivity.
Qed.

Lemma tiered_has_answer key now (s : MultiTierAdapter.t S1 S2) :
  MultiTierAdapter.has key now s
  = match ICacheAdapter.has key now (l1 s) with
    | (Resolved true, s1') =>
        (Resolved true, mk s1' (l2 s) (l1TTL s) (l2TTL s))
    | (Resolved false, s1') =>
        (fst (ICacheAdapter.has key now (l2 s)),
         mk s1' (snd (ICacheAdapter.has key now (l2 s))) (l1TTL s) (l2TTL s))
    | (Rejected e, s1') =>
        (Rejected e, mk s1' (l2 s) (l1TTL s) (l2TTL s))
    end.
Proof.
  unfold MultiTierAdapter.has, bind, on_l1, on_l2.
  destruct (ICacheAdapter.has key now (l1 s)) as [[[|]|e] s1'];
    try reflexivity.
  cbn [l1 l2 l1TTL l2TTL].
  destruct (ICacheAdapter.has key now (l2 s)) as [r s2']. reflexivity.
Qed.

Lemma tiered_set_runs_both key v ttl now (s : MultiTierAdapter.t S1 S2) :
  l1 (after (MultiTierAdapter.set key v ttl) now s)
  = after (ICacheAdapter.set key v (Some (num_or ttl (l1TTL s)))) now (l1 s)
  /\ l2 (after (MultiTierAdapter.set key v ttl) now s)
     = after (ICacheAdapter.set key v (Some (num_or ttl (l2TTL s)))) now (l2 s)
  /\ l1TTL (after (MultiTierAdapter.set key v ttl) now s) = l1TTL s
  /\ l2TTL (after (MultiTierAdapter.set key v ttl) now s) = l2TTL s.
Proof.
  unfold after, MultiTierAdapter.set, bind, promise_all, on_l1, on_l2.
  destruct (ICacheAdapter.set key v (Some (num_or ttl (l1TTL s))) now (l1 s))
    as [r1 s1'].
  cbn [l1 l2 l1TTL l2TTL].
  destruct (ICacheAdapter.set key v (Some (num_or ttl (l2TTL s))) now (l2 s))
    as [r2 s2'].
  destruct r1 as [[]|e1], r2 as [[]|e2]; cbn; repeat split.
Qed.

Lemma tiered_set_outcome key v ttl now (s : MultiTierAdapter.t S1 S2) :
  outcome (MultiTierAdapter.set key v ttl) now s
  = match outcome (ICacheAdapter.set key v (Some (num_or ttl (l1TTL s))))
            now (l1 s),
          outcome (ICacheAdapter.set key v (Some (num_or ttl (l2TTL s))))
            now (l2 s) with
    | Resolved _, Resolved _ => Resolved tt
    | Rejected e, _ => Rejected e
    | Resolved _, Rejected e => Rejected e
    end.
Proof.
  unfold outcome, MultiTierAdapter.set, bind, promise_all, on_l1, on_l2.
  destruct (ICacheAdapter.set key v (Some (num_or ttl (l1TTL s))) now (l1 s))
    as [r1 s1'].
  cbn [l1 l2 l1TTL l2TTL].
  destruct (ICacheAdapter.set key v (Some (num_or ttl (l2TTL s))) now (l2 s))
    as [r2 s2'].
  destruct r1 as [[]|e1], r2 as [[]|e2]; reflexivity.
Qed.
End TieredGetFacts.

(** X12. The read policy of the tiered store, for any two adapters. A
    value found in the hot tier is returned and the cold tier is not
    asked. After a hot miss, a value found in the cold tier is returned
    and written to the hot tier at the hot tier's TTL; what that write
    answers, failure included, does not reach the caller. When both
    tiers miss the answer is null and nothing is written. A hot tier
    that fails the lookup fails the call, and the cold tier is not
    asked. *)
Theorem tiered_get_policy
  {S1 S2 : Type} {A1 : ICacheAdapter.t S1} {A2 : ICacheAdapter.t S2}
  (s : MultiTierAdapter.t S1 S2) (key : string) (now : Z)
  (r1 : Completion JsVal) (s1' : S1) :
  ICacheAdapter.get key now (MultiTierAdapter.l1 s) = (r1, s1') ->
  match r1 with
  | Rejected e =>
      MultiTierAdapter.get key now s
      = (Rejected e,
         MultiTierAdapter.mk s1' (MultiTierAdapter.l2 s)
           (MultiTierAdapter.l1TTL s) (MultiTierAdapter.l2TTL s))
  | Resolved v1 =>
      if not_null v1 then
        MultiTierAdapter.get key now s
        = (Resolved v1,
           MultiTierAdapter.mk s1' (MultiTierAdapter.l2 s)
             (MultiTierAdapter.l1TTL s) (MultiTierAdapter.l2TTL s))
      else
        forall v2 s2',
          ICacheAdapter.get key now (MultiTierAdapter.l2 s)
          = (Resolved v2, s2') ->
          MultiTierAdapter.get key now s
          = (Resolved v2,
             MultiTierAdapter.mk
               (if not_null v2
                then after (ICacheAdapter.set key v2
                              (Some (MultiTierAdapter.l1TTL s))) now s1'
                else s1')
               s2' (MultiTierAdapter.l1TTL s) (MultiTierAdapter.l2TTL s))
  end.
Proof.
  intros H1. destruct r1 as [v1|e].
  - destruct (not_null v1) eqn:Hv1.
    + exact (tiered_get_hot_hit (A1 := A1) (A2 := A2) key now s v1 s1' H1 Hv1).
    + destruct v1; try discriminate Hv1.
      intros v2 s2' H2. destruct (not_null v2) eqn:Hv2.
      * exact (tiered_get_backfills (A1 := A1) (A2 := A2) key now s v2 s1' s2' H1 H2 Hv2).
      * destruct v2; try discriminate Hv2.
        exact (tiered_get_both_miss (A1 := A1) (A2 := A2) key now s s1' s2' H1 H2).
  - exact (tiered_get_hot_rejects (A1 := A1) (A2 := A2) key now s e s1' H1).
Qed.

Lemma tiered_get_policy_witness :
  MultiTierAdapter.get (A1 := StubAdapter.adapter) (A2 := memory_tier)
    "user:1" 5 failing_hot_tier
  = (Resolved (JStr "Alice"),
     MultiTierAdapter.mk
       (after (StubAdapter.set "user:1" (JStr "Alice") (Some 300)) 5
          (MultiTierAdapter.l1 failing_hot_tier))
       (after (MemoryAdapter.get "user:1") 5
          (MultiTierAdapter.l2 failing_hot_tier))
       300 3600).
Proof.
  exact (tiered_get_policy (A1 := StubAdapter.adapter) (A2 := memory_tier)
           failing_hot_tier "user:1" 5 (Resolved JNull)
           (MultiTierAdapter.l1 failing_hot_tier) eq_refl
           (JStr "Alice")
           (after (MemoryAdapter.get "user:1") 5
              (MultiTierAdapter.l2 failing_hot_tier))
           eq_refl).
Defined.

Section TieredMemoryFacts.
Context {rt : JsRuntime}.
Import MultiTierAdapter.

Lemma memory_get_pair k now (s : MemoryAdapter.t) :
  ICacheAdapter.get k now s
  = (outcome (MemoryAdapter.get k) now s, after (MemoryAdapter.get k) now s).
Proof.
  unfold outcome, after. cbn [ICacheAdapter.get MemoryAdapter.adapter].
  now destruct (MemoryAdapter.get k now s).
Qed.

Lemma get_after_expiry k v ttl t0 t (s : MemoryAdapter.t) :
  ttl <> 0 ->
  t0 + ttl * 1000 <> 0 ->
  t0 + ttl * 1000 < t ->
  live_value k t (after (MemoryAdapter.set k v (Some ttl)) t0 s) = None.
Proof.
  intros Httl Hinstant Hpast. unfold live_value. rewrite entry_after_set.
  cbn [truthy_num num_coalesce]. apply Z.eqb_neq in Httl. rewrite Httl.
  cbn [negb]. unfold MemoryAdapter.expired.
  cbn [MemoryAdapter.expiresAt MemoryAdapter.value].
  apply Z.eqb_neq in Hinstant. rewrite Hinstant.
  apply Z.ltb_lt in Hpast. now rewrite Hpast.
Qed.

Lemma reported_is_live k now (s : MemoryAdapter.t) v :
  reported_value k now s = Some v ->
  live_value k now s = Some v /\ not_null v = true.
Proof.
  unfold reported_value. destruct (live_value k now s) as [w|]; [|discriminate].
  destruct (not_null w) eqn:E; [|discriminate]. intros [= ->]. now split.
Qed.
End TieredMemoryFacts.

(** X13. Backfill, on memory tiers. When the hot tier has nothing live
    under a key and the cold tier has a live value that is not null,
    the tiered [get] answers that value, and from then on the hot tier
    answers it by itself for as long as the hot tier's TTL lasts. *)
Theorem tiered_backfill_serves_hot_tier
  {rt : JsRuntime}
  (s : MultiTierAdapter.t MemoryAdapter.t MemoryAdapter.t)
  (key : string) (v : JsVal) (now t : Z) :
  live_value key now (MultiTierAdapter.l1 s) = None ->
  reported_value key now (MultiTierAdapter.l2 s) = Some v ->
  (MultiTierAdapter.l1TTL s <> 0 ->
   t <= now + MultiTierAdapter.l1TTL s * 1000) ->
  outcome (MultiTierAdapter.get key) now s = Resolved v
  /\ outcome (MemoryAdapter.get key) t
       (MultiTierAdapter.l1 (after (MultiTierAdapter.get key) now s))
     = Resolved v.
Proof.
  intros Hhot Hcold Hwindow.
  destruct (reported_is_live key now _ v Hcold) as [Hlive Hv].
  pose proof (memory_get_pair key now (MultiTierAdapter.l1 s)) as H1.
  pose proof (memory_get_pair key now (MultiTierAdapter.l2 s)) as H2.
  rewrite get_outcome, Hhot in H1. rewrite get_outcome, Hlive in H2.
  pose proof (tiered_get_backfills key now s v _ _ H1 H2 Hv) as Hget.
  unfold outcome at 1, after at 1. rewrite Hget. cbn [fst snd MultiTierAdapter.l1].
  split; [reflexivity|].
  change (ICacheAdapter.set key v (Some (MultiTierAdapter.l1TTL s)))
    with (MemoryAdapter.set key v (Some (MultiTierAdapter.l1TTL s))).
  rewrite get_outcome, live_after_set; [reflexivity|].
  cbn [truthy_num num_coalesce]. intros Httl. apply Hwindow.
  apply Bool.negb_true_iff, Z.eqb_neq in Httl. exact Httl.
Qed.

Lemma tiered_backfill_serves_hot_tier_witness :
  outcome (MultiTierAdapter.get (A1 := memory_tier) (A2 := memory_tier)
             "user:1") 5 cold_user1
  = Resolved (JStr "Alice")
  /\ outcome (MemoryAdapter.get "user:1") 300005
       (MultiTierAdapter.l1
          (after (MultiTierAdapter.get (A1 := memory_tier) (A2 := memory_tier)
                    "user:1") 5 cold_user1))
     = Resolved (JStr "Alice").
Proof.
  apply (tiered_backfill_serves_hot_tier (rt := example_runtime)
           cold_user1 "user:1" (JStr "Alice") 5 300005);
    [reflexivity | reflexivity | intros _; vm_compute; discriminate].
Defined.

(** X14. A tiered [set] writes both tiers, each at the explicit ttl when
    that is given and not 0 and at its own TTL otherwise. Both writes
    are made whatever either of them answers: the call is rejected with
    the first rejection, and the tier that took the write keeps it. *)
Theorem tiered_set_writes_both_tiers
  {S1 S2 : Type} {A1 : ICacheAdapter.t S1} {A2 : ICacheAdapter.t S2}
  (s : MultiTierAdapter.t S1 S2) (key : string) (v : JsVal)
  (ttl : option Z) (now : Z) :
  let write1 :=
    ICacheAdapter.set key v (Some (num_or ttl (MultiTierAdapter.l1TTL s))) in
  let write2 :=
    ICacheAdapter.set key v (Some (num_or ttl (MultiTierAdapter.l2TTL s))) in
  MultiTierAdapter.l1 (after (MultiTierAdapter.set key v ttl) now s)
  = after write1 now (MultiTierAdapter.l1 s)
  /\ MultiTierAdapter.l2 (after (MultiTierAdapter.set key v ttl) now s)
     = after write2 now (MultiTierAdapter.l2 s)
  /\ outcome (MultiTierAdapter.set key v ttl) now s
     = match outcome write1 now (MultiTierAdapter.l1 s),
             outcome write2 now (MultiTierAdapter.l2 s) with
       | Resolved _, Resolved _ => Resolved tt
       | Rejected e, _ => Rejected e
       | Resolved _, Rejected e => Rejected e
       end.
Proof.
  cbv zeta.
  destruct (tiered_set_runs_both (A1 := A1) (A2 := A2) key v ttl now s)
    as [H1 [H2 _]].
  split; [exact H1 | split; [exact H2|]].
  apply tiered_set_outcome.
Qed.

(** X15. Through the tiered store a ttl of 0, like an absent ttl, is
    replaced by each tier's own TTL: on memory tiers the entry expires,
    and once the clock is past both tiers' expiry instants the tiered
    [get] answers null again. *)
Theorem tiered_zero_ttl_uses_tier_ttl
  {rt : JsRuntime}
  (s : MultiTierAdapter.t MemoryAdapter.t MemoryAdapter.t)
  (key : string) (v : JsVal) (ttl : option Z) (t0 t : Z) :
  truthy_num ttl = false ->
  MultiTierAdapter.l1TTL s <> 0 ->
  MultiTierAdapter.l2TTL s <> 0 ->
  t0 + MultiTierAdapter.l1TTL s * 1000 <> 0 ->
  t0 + MultiTierAdapter.l2TTL s * 1000 <> 0 ->
  t0 + MultiTierAdapter.l1TTL s * 1000 < t ->
  t0 + MultiTierAdapter.l2TTL s * 1000 < t ->
  outcome (MultiTierAdapter.get key) t
    (after (MultiTierAdapter.set key v ttl) t0 s)
  = Resolved JNull.
Proof.
  intros Httl H1 H2 Hi1 Hi2 Hp1 Hp2.
  assert (Hor : forall d, num_or ttl d = d).
  { intros d. unfold num_or. destruct ttl as [z|]; [|reflexivity].
    simpl in Httl. apply Bool.negb_false_iff in Httl. now rewrite Httl. }
  destruct (tiered_set_runs_both (A1 := MemoryAdapter.adapter)
              (A2 := MemoryAdapter.adapter) key v ttl t0 s)
    as [E1 [E2 _]].
  rewrite !Hor in E1, E2.
  set (s' := after (MultiTierAdapter.set key v ttl) t0 s) in *.
  pose proof (memory_get_pair key t (MultiTierAdapter.l1 s')) as G1.
  pose proof (memory_get_pair key t (MultiTierAdapter.l2 s')) as G2.
  assert (X1 : outcome (MemoryAdapter.get key) t (MultiTierAdapter.l1 s')
               = Resolved JNull).
  { rewrite E1, get_outcome.
    now rewrite (get_after_expiry key v _ t0 t _ H1 Hi1 Hp1). }
  assert (X2 : outcome (MemoryAdapter.get key) t (MultiTierAdapter.l2 s')
               = Resolved JNull).
  { rewrite E2, get_outcome.
    now rewrite (get_after_expiry key v _ t0 t _ H2 Hi2 Hp2). }
  rewrite X1 in G1. rewrite X2 in G2.
  unfold outcome.
  now rewrite (tiered_get_both_miss key t s' _ _ G1 G2).
Qed.

Lemma tiered_zero_ttl_uses_tier_ttl_witness :
  outcome (MultiTierAdapter.get (A1 := memory_tier) (A2 := memory_tier) "k")
    3600011
    (after (MultiTierAdapter.set (A1 := memory_tier) (A2 := memory_tier)
              "k" (JStr "v") (Some 0)) 10 cold_user1)
  = Resolved JNull.
Proof.
  apply (tiered_zero_ttl_uses_tier_ttl (rt := example_runtime)
           cold_user1 "k" (JStr "v") (Some 0) 10 3600011);
    try reflexivity; vm_compute; discriminate.
Defined.

(** X16. On memory tiers a tiered [delete] leaves the keys it names in
    neither tier: afterwards the tiered [get] answers null for them and
    the tiered [has] answers false, at every clock reading. *)
Theorem tiered_delete_clears_both_tiers
  {rt : JsRuntime}
  (s : MultiTierAdapter.t MemoryAdapter.t MemoryAdapter.t)
  (target : KeyArg) (k : string) (now t : Z) :
  In k (keys_named target) ->
  let s' := after (MultiTierAdapter.delete target) now s in
  entry_of k (MultiTierAdapter.l1 s') = None
  /\ entry_of k (MultiTierAdapter.l2 s') = None
  /\ outcome (MultiTierAdapter.get k) t s' = Resolved JNull
  /\ outcome (MultiTierAdapter.has k) t s' = Resolved false.
Proof.
  intros Hin s'.
  pose proof (promise_all_runs_both (ICacheAdapter.delete target)
                (ICacheAdapter.delete target) now s) as [E1 E2].
  assert (D1 : MultiTierAdapter.l1 s'
               = after (MemoryAdapter.delete target) now (MultiTierAdapter.l1 s)).
  { unfold s', after, MultiTierAdapter.delete, bind in *.
    destruct (MultiTierAdapter.promise_all _ _ now s) as [[r|e] s0]; exact E1. }
  assert (D2 : MultiTierAdapter.l2 s'
               = after (MemoryAdapter.delete target) now (MultiTierAdapter.l2 s)).
  { unfold s', after, MultiTierAdapter.delete, bind in *.
    destruct (MultiTierAdapter.promise_all _ _ now s) as [[r|e] s0]; exact E2. }
  apply existsb_eqb_in in Hin.
  assert (N1 : entry_of k (MultiTierAdapter.l1 s') = None).
  { rewrite D1.
    rewrite (proj1 (delete_removes_exactly_given_keys_aux
                      (MultiTierAdapter.l1 s) target now k)).
    now rewrite Hin. }
  assert (N2 : entry_of k (MultiTierAdapter.l2 s') = None).
  { rewrite D2.
    rewrite (proj1 (delete_removes_exactly_given_keys_aux
                      (MultiTierAdapter.l2 s) target now k)).
    now rewrite Hin. }
  split; [exact N1 | split; [exact N2|]].
  assert (L1 : live_value k t (MultiTierAdapter.l1 s') = None)
    by (unfold live_value; now rewrite N1).
  assert (L2 : live_value k t (MultiTierAdapter.l2 s') = None)
    by (unfold live_value; now rewrite N2).
  split.
  - pose proof (memory_get_pair k t (MultiTierAdapter.l1 s')) as G1.
    pose proof (memory_get_pair k t (MultiTierAdapter.l2 s')) as G2.
    rewrite get_outcome, L1 in G1. rewrite get_outcome, L2 in G2.
    unfold outcome. now rewrite (tiered_get_both_miss k t s' _ _ G1 G2).
  - unfold outcome. rewrite tiered_has_answer.
    cbn [ICacheAdapter.has MemoryAdapter.adapter].
    pose proof (has_outcome k t (MultiTierAdapter.l1 s')) as O1.
    pose proof (has_outcome k t (MultiTierAdapter.l2 s')) as O2.
    rewrite L1 in O1. rewrite L2 in O2. unfold outcome in O1, O2.
    destruct (MemoryAdapter.has k t (MultiTierAdapter.l1 s')) as [r1 s1'].
    simpl in O1. subst r1. cbn [fst]. exact O2.
Qed.

Lemma tiered_delete_clears_both_tiers_witness :
  outcome (MultiTierAdapter.get (A1 := memory_tier) (A2 := memory_tier)
             "user:1") 9
    (after (MultiTierAdapter.delete (A1 := memory_tier) (A2 := memory_tier)
              (OneKey "user:1")) 8 cold_user1)
  = Resolved JNull.
Proof.
  apply (tiered_delete_clears_both_tiers (rt := example_runtime)
           cold_user1 (OneKey "user:1") "user:1" 8 9).
  now left.
Defined.


(** ** core/cache-manager.ts *)

Section StringFacts.

Lemma append_left_cancel (p a b : string) :
  (p ++ a)%string = (p ++ b)%string -> a = b.
Proof.
  induction p as [|c p IH]; simpl; [trivial|].
  intros [= H]. now apply IH.
Qed.

Lemma length_append (a b : string) :
  String.length (a ++ b) = (String.length a + String.length b)%nat.
Proof. induction a as [|c a IH]; simpl; [reflexivity | now rewrite IH]. Qed.

Lemma append_right_cancel (a b c : string) :
  (a ++ c)%string = (b ++ c)%string -> a = b.
Proof.
  revert b. induction a as [|x a IH]; intros b H.
  - destruct b as [|y b]; [reflexivity|].
    apply (f_equal String.length) in H.
    rewrite !length_append in H. simpl in H. lia.
  - destruct b as [|y b].
    + apply (f_equal String.length) in H.
      rewrite !length_append in H. simpl in H. lia.
    + simpl in H. injection H as -> H. f_equal. now apply IH.
Qed.

Lemma prefix_append (p k : string) : String.prefix p (p ++ k) = true.
Proof.
  induction p as [|c p IH]; simpl.
  - now destruct k.
  - destruct (ascii_dec c c); [exact IH | congruence].
Qed.

Lemma substring_whole (k : string) :
  String.substring 0 (String.length k) k = k.
Proof. induction k as [|c k IH]; simpl; [reflexivity | now rewrite IH]. Qed.

Lemma substring_after_prefix (p k : string) :
  String.substring (String.length p)
    (String.length (p ++ k) - String.length p) (p ++ k)
  = k.
Proof.
  induction p as [|c p IH]; simpl.
  - rewrite Nat.sub_0_r. apply substring_whole.
  - exact IH.
Qed.

Lemma append_nonempty_right (a b : string) :
  b <> EmptyString -> (a ++ b)%string <> EmptyString.
Proof. destruct a; simpl; [trivial | discriminate]. Qed.
End StringFacts.

(** X17. Namespacing is lossless: stripping the namespace from a key the
    manager has built gives the key back, and two keys are built into
    the same full key only when they are the same key. *)
Theorem namespace_round_trip
  {S : Type} (m : CacheManager.t S) (k k' : string) :
  CacheManager.removeNamespace m (CacheManager.buildKey m k) = k
  /\ (CacheManager.buildKey m k = CacheManager.buildKey m k' <-> k = k').
Proof.
  unfold CacheManager.removeNamespace, CacheManager.buildKey.
  destruct (String.eqb (CacheManager.namespace m) "") eqn:E.
  - split; [reflexivity | tauto].
  - split.
    + replace (CacheManager.namespace m ++ ":" ++ k)%string
        with ((CacheManager.namespace m ++ ":") ++ k)%string
        by apply append_assoc.
      rewrite prefix_append. apply substring_after_prefix.
    + split; [|now intros ->].
      intros H. apply append_left_cancel in H.
      now apply append_left_cancel in H.
Qed.

Section ManagerMemoryFacts.
Context {rt : JsRuntime}.

Lemma manager_get_pair key now (m : CacheManager.t MemoryAdapter.t) :
  CacheManager.get key now m
  = (outcome (MemoryAdapter.get (CacheManager.buildKey m key)) now
       (CacheManager.adapter m),
     CacheManager.mk
       (after (MemoryAdapter.get (CacheManager.buildKey m key)) now
          (CacheManager.adapter m))
       (CacheManager.namespace m) (CacheManager.defaultTTL m)
       (CacheManager.enableMetrics m)).
Proof.
  unfold CacheManager.get, CacheManager.on_adapter, outcome, after.
  cbn [ICacheAdapter.get MemoryAdapter.adapter].
  now destruct (MemoryAdapter.get (CacheManager.buildKey m key) now
                  (CacheManager.adapter m)).
Qed.

Lemma manager_set_pair key v ttl now (m : CacheManager.t MemoryAdapter.t) :
  CacheManager.set key v ttl now m
  = (Resolved tt,
     CacheManager.mk
       (after (MemoryAdapter.set (CacheManager.buildKey m key) v
                 (Some (effective_ttl ttl m))) now (CacheManager.adapter m))
       (CacheManager.namespace m) (CacheManager.defaultTTL m)
       (CacheManager.enableMetrics m)).
Proof. reflexivity. Qed.

Lemma manager_has_pair key now (m : CacheManager.t MemoryAdapter.t) :
  outcome (CacheManager.has key) now m
  = outcome (MemoryAdapter.has (CacheManager.buildKey m key)) now
      (CacheManager.adapter m).
Proof.
  unfold CacheManager.has, CacheManager.on_adapter, outcome.
  cbn [ICacheAdapter.has MemoryAdapter.adapter].
  now destruct (MemoryAdapter.has (CacheManager.buildKey m key) now
                  (CacheManager.adapter m)).
Qed.

Lemma live_after_set_some k v d t0 t (s : MemoryAdapter.t) :
  (d <> 0 -> t <= t0 + d * 1000) ->
  live_value k t (after (MemoryAdapter.set k v (Some d)) t0 s) = Some v.
Proof.
  intros Hwin. apply live_after_set. cbn [truthy_num num_coalesce].
  intros Hd. apply Hwin. now apply Bool.negb_true_iff, Z.eqb_neq in Hd.
Qed.
End ManagerMemoryFacts.

Lemma colon_free_prefix (a b x y : string) :
  has_char ":" a = false ->
  has_char ":" b = false ->
  (a ++ ":" ++ x)%string = (b ++ ":" ++ y)%string ->
  a = b.
Proof.
  revert b. induction a as [|c a IH]; intros [|d b] Ha Hb H.
  - reflexivity.
  - simpl in H. injection H as Hd _. subst d.
    cbn [has_char] in Hb. rewrite Ascii.eqb_refl in Hb. discriminate Hb.
  - simpl in H. injection H as Hc _. subst c.
    cbn [has_char] in Ha. rewrite Ascii.eqb_refl in Ha. discriminate Ha.
  - simpl in H. injection H as Hcd Hrest. subst d.
    cbn [has_char] in Ha, Hb.
    apply Bool.orb_false_elim in Ha. apply Bool.orb_false_elim in Hb.
    f_equal. apply (IH b); tauto.
Qed.

(** X18. Two managers that share a memory adapter under different
    namespaces. One and the same key is built into two different full
    keys; storing it through one manager creates no entry under the
    other's full key for it; and deleting it through one manager leaves
    the other's entry for it unchanged. When both namespaces are
    non-empty and hold no colon, no key of one manager is built into the
    full key of any key of the other. Without that proviso two
    different keys can meet: namespace [a] with key [b:k] and namespace
    [a:b] with key [k] are both built into [a:b:k]. *)
Theorem namespaces_do_not_share_a_key
  {rt : JsRuntime} (a : MemoryAdapter.t) (ns1 ns2 k : string)
  (v : JsVal) (ttl : option Z) (now : Z) :
  ns1 <> ns2 ->
  let m1 := manager_in ns1 a in
  let m2 := manager_in ns2 a in
  CacheManager.buildKey m1 k <> CacheManager.buildKey m2 k
  /\ (entry_of (CacheManager.buildKey m2 k) a = None ->
      entry_of (CacheManager.buildKey m2 k)
        (CacheManager.adapter (after (CacheManager.set k v ttl) now m1))
      = None)
  /\ entry_of (CacheManager.buildKey m2 k)
       (CacheManager.adapter
          (after (CacheManager.delete (OneKey k)) now m1))
     = entry_of (CacheManager.buildKey m2 k) a
  /\ (ns1 <> EmptyString -> ns2 <> EmptyString ->
      has_char ":" ns1 = false -> has_char ":" ns2 = false ->
      forall k1 k2,
        CacheManager.buildKey m1 k1 <> CacheManager.buildKey m2 k2)
  /\ CacheManager.buildKey (manager_in "a" a) "b:k"
     = CacheManager.buildKey (manager_in "a:b" a) "k".
Proof.
  intros Hns m1 m2.
  assert (Hkeys : CacheManager.buildKey m1 k <> CacheManager.buildKey m2 k).
  { unfold CacheManager.buildKey, m1, m2, manager_in.
    cbn [CacheManager.namespace].
    destruct (String.eqb ns1 "") eqn:E1, (String.eqb ns2 "") eqn:E2.
    - apply String.eqb_eq in E1, E2. congruence.
    - intros H. apply (f_equal String.length) in H.
      rewrite !length_append in H. simpl in H. lia.
    - intros H. apply (f_equal String.length) in H.
      rewrite !length_append in H. simpl in H. lia.
    - intros H.
      replace (ns1 ++ ":" ++ k)%string with ((ns1 ++ ":") ++ k)%string in H
        by apply append_assoc.
      replace (ns2 ++ ":" ++ k)%string with ((ns2 ++ ":") ++ k)%string in H
        by apply append_assoc.
      apply append_right_cancel in H. apply append_right_cancel in H.
      congruence. }
  split; [exact Hkeys | split; [|split; [|split; [|reflexivity]]]].
  - intros Hnone.
    assert (E : CacheManager.adapter (after (CacheManager.set k v ttl) now m1)
                = after (MemoryAdapter.set (CacheManager.buildKey m1 k) v
                           (Some (effective_ttl ttl m1))) now a)
      by reflexivity.
    rewrite E.
    destruct (set_kept_or_gone (CacheManager.buildKey m2 k)
                (CacheManager.buildKey m1 k) v
                (Some (effective_ttl ttl m1)) now a Hkeys) as [H | H].
    + now rewrite H.
    + exact H.
  - assert (E : CacheManager.adapter
                  (after (CacheManager.delete (OneKey k)) now m1)
                = after (MemoryAdapter.delete
                           (OneKey (CacheManager.buildKey m1 k))) now a)
      by reflexivity.
    rewrite E.
    rewrite (proj1 (delete_removes_exactly_given_keys_aux a
                      (OneKey (CacheManager.buildKey m1 k)) now
                      (CacheManager.buildKey m2 k))).
    cbn [keys_named existsb]. rewrite Bool.orb_false_r.
    apply not_eq_sym, String.eqb_neq in Hkeys. now rewrite Hkeys.
  - intros Hne1 Hne2 Hc1 Hc2 k1 k2 Hmeet.
    unfold CacheManager.buildKey, m1, m2, manager_in in Hmeet.
    cbn [CacheManager.namespace] in Hmeet.
    apply String.eqb_neq in Hne1, Hne2. rewrite Hne1, Hne2 in Hmeet.
    exact (Hns (colon_free_prefix ns1 ns2 k1 k2 Hc1 Hc2 Hmeet)).
Qed.

Lemma namespaces_do_not_share_a_key_witness :
  entry_of "billing:user:1"
    (CacheManager.adapter
       (after (CacheManager.delete (A := memory_tier) (OneKey "user:1")) 5
          (manager_in "orders" store_a_b)))
  = entry_of "billing:user:1" store_a_b.
Proof.
  apply (namespaces_do_not_share_a_key (rt := example_runtime) store_a_b
           "orders" "billing" "user:1" JNull None 5).
  discriminate.
Defined.

(** X19. A value stored through the manager without a ttl lives for the
    default TTL: the configured one, or 3600 seconds when none is
    configured or the configured one is 0. It is read back up to and
    including the expiry instant and is gone after it. *)
Theorem manager_set_uses_default_ttl
  {rt : JsRuntime} (a : MemoryAdapter.t) (cfg : CacheManager.CacheConfig)
  (key : string) (v : JsVal) (t0 t : Z) :
  let m := CacheManager.constructor a cfg in
  let d := num_or (CacheManager.cfg_defaultTTL cfg) 3600 in
  d <> 0
  /\ (t <= t0 + d * 1000 ->
      outcome (CacheManager.get key) t
        (after (CacheManager.set key v None) t0 m)
      = Resolved v)
  /\ (t0 + d * 1000 <> 0 ->
      t0 + d * 1000 < t ->
      outcome (CacheManager.get key) t
        (after (CacheManager.set key v None) t0 m)
      = Resolved JNull).
Proof.
  intros m d.
  assert (Hd : d <> 0).
  { unfold d, num_or. destruct (CacheManager.cfg_defaultTTL cfg) as [z|];
      [|discriminate].
    destruct (z =? 0) eqn:E; [discriminate | now apply Z.eqb_neq]. }
  assert (E : forall (m' := after (CacheManager.set key v None) t0 m),
             outcome (CacheManager.get key) t m'
             = outcome (MemoryAdapter.get (CacheManager.buildKey m key)) t
                 (after (MemoryAdapter.set (CacheManager.buildKey m key) v
                           (Some d)) t0 a)).
  { intros m'. unfold outcome at 1. rewrite manager_get_pair. reflexivity. }
  cbv zeta in E. rewrite E, get_outcome.
  split; [exact Hd | split].
  - intros Hwin. rewrite live_after_set_some; [reflexivity | auto].
  - intros Hinstant Hpast.
    now rewrite (get_after_expiry _ v d t0 t a Hd Hinstant Hpast).
Qed.

Lemma manager_set_uses_default_ttl_witness :
  outcome (CacheManager.get (A := memory_tier) "k") 3600005
    (after (CacheManager.set (A := memory_tier) "k" (JStr "v") None) 5
       (CacheManager.constructor store_max2
          (CacheManager.mkConfig (Some "app") (Some 0) None)))
  = Resolved (JStr "v")
  /\ outcome (CacheManager.get (A := memory_tier) "k") 3600006
       (after (CacheManager.set (A := memory_tier) "k" (JStr "v") None) 5
          (CacheManager.constructor store_max2
             (CacheManager.mkConfig (Some "app") (Some 0) None)))
     = Resolved JNull.
Proof.
  split.
  - apply (manager_set_uses_default_ttl (rt := example_runtime) store_max2
             (CacheManager.mkConfig (Some "app") (Some 0) None)
             "k" (JStr "v") 5 3600005).
    vm_compute. discriminate.
  - apply (manager_set_uses_default_ttl (rt := example_runtime) store_max2
             (CacheManager.mkConfig (Some "app") (Some 0) None)
             "k" (JStr "v") 5 3600006);
      vm_compute; [discriminate | reflexivity].
Defined.

Section WrapMemoryFacts.
Context {rt : JsRuntime}.

Lemma wrap_serves_cached key factory options now
      (m m1 : CacheManager.t MemoryAdapter.t) cached :
  CacheManager.get key now m = (Resolved cached, m1) ->
  not_null cached = true ->
  CacheManager.wrap key factory options now m = (Resolved cached, m1).
Proof.
  intros Hget Hv. unfold CacheManager.wrap, bind. now rewrite Hget, Hv.
Qed.

Lemma wrap_first_call key factory options now
      (m m1 m2 : CacheManager.t MemoryAdapter.t) v :
  CacheManager.get key now m = (Resolved JNull, m1) ->
  factory now m1 = (Resolved v, m2) ->
  outcome (CacheManager.shouldCache options v) now m2 = Resolved true ->
  CacheManager.wrap key factory options now m
  = (Resolved v,
     CacheManager.mk
       (after (MemoryAdapter.set (CacheManager.buildKey m2 key) v
                 (Some (effective_ttl (ttl_of options) m2))) now
          (CacheManager.adapter m2))
       (CacheManager.namespace m2) (CacheManager.defaultTTL m2)
       (CacheManager.enableMetrics m2)).
Proof.
  intros Hget Hfactory Hshould.
  rewrite (wrap_after_miss key factory options now m m1 Hget), Hfactory.
  pose proof (shouldCache_keeps_state options v now m2) as Hstate.
  unfold outcome in Hshould.
  destruct (CacheManager.shouldCache options v now m2) as [r m3].
  simpl in Hshould, Hstate. subst r m3.
  now rewrite manager_set_pair.
Qed.
End WrapMemoryFacts.

(** X20. Fetch-or-compute is idempotent on a memory adapter. After a
    first call that missed, computed a value other than null and stored
    it, a second call for the same key made while the entry lives
    answers that value whatever compute function and options it is
    given, so without running the compute function, and leaves the
    cache as a plain [get] does. *)
Theorem wrap_second_call_served_from_cache
  {rt : JsRuntime} (m m1 m2 : CacheManager.t MemoryAdapter.t)
  (key : string) (factory factory2 : Async (CacheManager.t MemoryAdapter.t) JsVal)
  (options options2 : option WrapOptions) (now t2 : Z) (v : JsVal) :
  CacheManager.get key now m = (Resolved JNull, m1) ->
  factory now m1 = (Resolved v, m2) ->
  not_null v = true ->
  outcome (CacheManager.shouldCache options v) now m2 = Resolved true ->
  (effective_ttl (ttl_of options) m2 <> 0 ->
   t2 <= now + effective_ttl (ttl_of options) m2 * 1000) ->
  let m3 := after (CacheManager.wrap key factory options) now m in
  outcome (CacheManager.wrap key factory options) now m = Resolved v
  /\ CacheManager.wrap key factory2 options2 t2 m3
     = (Resolved v, after (CacheManager.get key) t2 m3).
Proof.
  intros Hget Hfactory Hv Hshould Hwin m3.
  pose proof (wrap_first_call key factory options now m m1 m2 v
                Hget Hfactory Hshould) as Hfirst.
  unfold outcome at 1. rewrite Hfirst. split; [reflexivity|].
  assert (Hm3 : m3 = CacheManager.mk
                       (after (MemoryAdapter.set (CacheManager.buildKey m2 key) v
                                 (Some (effective_ttl (ttl_of options) m2))) now
                          (CacheManager.adapter m2))
                       (CacheManager.namespace m2) (CacheManager.defaultTTL m2)
                       (CacheManager.enableMetrics m2)).
  { unfold m3, after. now rewrite Hfirst. }
  pose proof (manager_get_pair key t2 m3) as Hget2.
  assert (Hout : outcome (MemoryAdapter.get (CacheManager.buildKey m3 key)) t2
                   (CacheManager.adapter m3) = Resolved v).
  { rewrite Hm3. unfold CacheManager.buildKey at 1.
    cbn [CacheManager.namespace CacheManager.adapter].
    fold (CacheManager.buildKey m2 key).
    rewrite get_outcome, live_after_set_some; [reflexivity | exact Hwin]. }
  rewrite Hout in Hget2.
  rewrite (wrap_serves_cached key factory2 options2 t2 m3 _ v Hget2 Hv).
  f_equal. unfold after. rewrite Hget2. reflexivity.
Qed.

Lemma wrap_second_call_served_from_cache_witness :
  CacheManager.wrap (A := memory_tier) "k" (throw (Thrown "down")) None 900
    (after (CacheManager.wrap (A := memory_tier) "k" (ret (JStr "v"))
              None) 5 manager_in_memory)
  = (Resolved (JStr "v"),
     after (CacheManager.get (A := memory_tier) "k") 900
       (after (CacheManager.wrap (A := memory_tier) "k" (ret (JStr "v"))
                 None) 5 manager_in_memory)).
Proof.
  apply (wrap_second_call_served_from_cache (rt := example_runtime)
           manager_in_memory manager_after_miss manager_after_miss
           "k" (ret (JStr "v")) (throw (Thrown "down")) None None 5 900
           (JStr "v"));
    try reflexivity.
  intros _. vm_compute. discriminate.
Defined.

(** X21. A computed null is stored but never served: after a first call
    whose compute function returned null, [has] confirms the key while
    the entry lives, yet [get] answers null, and the next call, whatever
    its options, runs its compute function again and, when that
    succeeds and the call's condition answers without raising, answers
    what the compute function returned. *)
Theorem wrap_recomputes_after_null
  {rt : JsRuntime} (m m1 m2 m4 : CacheManager.t MemoryAdapter.t)
  (key : string) (factory factory2 : Async (CacheManager.t MemoryAdapter.t) JsVal)
  (options options2 : option WrapOptions) (now t2 : Z) (u : JsVal)
  (should2 : bool) :
  CacheManager.get key now m = (Resolved JNull, m1) ->
  factory now m1 = (Resolved JNull, m2) ->
  outcome (CacheManager.shouldCache options JNull) now m2 = Resolved true ->
  (effective_ttl (ttl_of options) m2 <> 0 ->
   t2 <= now + effective_ttl (ttl_of options) m2 * 1000) ->
  let m3 := after (CacheManager.wrap key factory options) now m in
  factory2 t2 (after (CacheManager.get key) t2 m3) = (Resolved u, m4) ->
  outcome (CacheManager.shouldCache options2 u) t2 m4 = Resolved should2 ->
  outcome (CacheManager.has key) t2 m3 = Resolved true
  /\ outcome (CacheManager.get key) t2 m3 = Resolved JNull
  /\ outcome (CacheManager.wrap key factory2 options2) t2 m3 = Resolved u.
Proof.
  intros Hget Hfactory Hshould Hwin m3 Hfactory2 Hshould2.
  pose proof (wrap_first_call key factory options now m m1 m2 JNull
                Hget Hfactory Hshould) as Hfirst.
  assert (Hm3 : m3 = CacheManager.mk
                       (after (MemoryAdapter.set (CacheManager.buildKey m2 key)
                                 JNull
                                 (Some (effective_ttl (ttl_of options) m2))) now
                          (CacheManager.adapter m2))
                       (CacheManager.namespace m2) (CacheManager.defaultTTL m2)
                       (CacheManager.enableMetrics m2)).
  { unfold m3, after. now rewrite Hfirst. }
  assert (Hlive : live_value (CacheManager.buildKey m3 key) t2
                    (CacheManager.adapter m3) = Some JNull).
  { rewrite Hm3. unfold CacheManager.buildKey at 1.
    cbn [CacheManager.namespace CacheManager.adapter].
    fold (CacheManager.buildKey m2 key).
    apply live_after_set_some. exact Hwin. }
  pose proof (manager_get_pair key t2 m3) as Hget2.
  rewrite get_outcome, Hlive in Hget2.
  split; [|split].
  - rewrite manager_has_pair, has_outcome, Hlive. reflexivity.
  - unfold outcome. now rewrite Hget2.
  - unfold outcome.
    rewrite (wrap_after_miss key factory2 options2 t2 m3 _ Hget2).
    unfold after in Hfactory2. rewrite Hget2 in Hfactory2.
    cbn [snd] in Hfactory2. rewrite Hfactory2.
    pose proof (shouldCache_keeps_state options2 u t2 m4) as Hstate.
    unfold outcome in Hshould2.
    destruct (CacheManager.shouldCache options2 u t2 m4) as [r m5].
    simpl in Hshould2, Hstate. subst r m5.
    destruct should2; [|reflexivity].
    now rewrite manager_set_pair.
Qed.

Lemma wrap_recomputes_after_null_witness :
  outcome (CacheManager.has (A := memory_tier) "k") 900
    (after (CacheManager.wrap (A := memory_tier) "k" (ret JNull) None) 5
       manager_in_memory)
  = Resolved true
  /\ outcome (CacheManager.get (A := memory_tier) "k") 900
       (after (CacheManager.wrap (A := memory_tier) "k" (ret JNull) None) 5
          manager_in_memory)
     = Resolved JNull
  /\ outcome (CacheManager.wrap (A := memory_tier) "k" (ret (JStr "again"))
                None) 900
       (after (CacheManager.wrap (A := memory_tier) "k" (ret JNull) None) 5
          manager_in_memory)
     = Resolved (JStr "again").
Proof.
  apply (wrap_recomputes_after_null (rt := example_runtime)
           manager_in_memory manager_after_miss manager_after_miss
           (after (CacheManager.get (A := memory_tier) "k") 900
              (after (CacheManager.wrap (A := memory_tier) "k" (ret JNull)
                        None) 5 manager_in_memory))
           "k" (ret JNull) (ret (JStr "again")) None None 5 900 (JStr "again")
           true);
    try reflexivity.
  intros _. vm_compute. discriminate.
Defined.

Lemma manager_clear_on_memory
  {rt : JsRuntime} (m : CacheManager.t MemoryAdapter.t)
  (pattern : option string) (now : Z) :
  CacheManager.adapter (after (CacheManager.clear pattern) now m)
  = after (MemoryAdapter.clear
             (match pattern with
              | Some p =>
                  if truthy_str pattern then Some (CacheManager.buildKey m p)
                  else None
              | None => None
              end)) now (CacheManager.adapter m).
Proof.
  unfold CacheManager.clear, CacheManager.on_adapter, after.
  cbn [ICacheAdapter.clear MemoryAdapter.adapter].
  now destruct (MemoryAdapter.clear _ now (CacheManager.adapter m)).
Qed.

Lemma buildKey_nonempty {S : Type} (m : CacheManager.t S) (p : string) :
  p <> EmptyString -> CacheManager.buildKey m p <> EmptyString.
Proof.
  intros Hp. unfold CacheManager.buildKey.
  destruct (String.eqb (CacheManager.namespace m) "").
  - exact Hp.
  - apply append_nonempty_right. discriminate.
Qed.

(** X22. [clear] on the manager is not confined to the manager's
    namespace when it is given no pattern, or the empty one: the
    adapter is asked to clear everything, and on a memory adapter no
    entry of any namespace is left. With a pattern, the entries removed
    are those whose full key matches the namespaced pattern, and every
    other entry stays as it was. *)
Theorem manager_clear_reach
  {rt : JsRuntime} (m : CacheManager.t MemoryAdapter.t)
  (pattern : option string) (now : Z) (k : string) :
  let a' := CacheManager.adapter (after (CacheManager.clear pattern) now m) in
  match pattern with
  | Some p =>
      if String.eqb p "" then MemoryAdapter.cache a' = []
      else
        entry_of k a'
        = (if MemoryAdapter.regex_test
                (MemoryAdapter.patternToRegex (CacheManager.buildKey m p)) k
           then None else entry_of k (CacheManager.adapter m))
  | None => MemoryAdapter.cache a' = []
  end.
Proof.
  intros a'. subst a'. rewrite manager_clear_on_memory.
  destruct pattern as [p|]; [|reflexivity].
  unfold truthy_str. destruct (String.eqb p "") eqn:Hp; cbn [negb].
  - reflexivity.
  - apply String.eqb_neq in Hp.
    exact (proj1 (clear_removes_matching_entries_aux
                    (CacheManager.adapter m) (CacheManager.buildKey m p)
                    now k (buildKey_nonempty m p Hp))).
Qed.

(** ** utils/key-generator.ts *)

Section SelectorFacts.
Context {rt : JsRuntime}.
Import KeyGenerator.

Lemma render_texts args p : render args (texts p) = p.
Proof.
  unfold render. induction p as [|c p IH]; simpl; [reflexivity|].
  now rewrite IH.
Qed.

Lemma read_selector_needs_brace s :
  has_char "}" s = false -> read_selector s = None.
Proof.
  induction s as [|c s IH]; [reflexivity|].
  cbn [has_char read_selector]. intros H.
  apply Bool.orb_false_elim in H. destruct H as [Hc Hs].
  rewrite Ascii.eqb_sym in Hc. rewrite Hc, (IH Hs). reflexivity.
Qed.

Lemma match_token_needs_both s :
  has_char "#" s = false \/ has_char "}" s = false ->
  match_token s = None.
Proof.
  intros H. unfold match_token.
  destruct s as [|c1 [|c2 rest]]; try reflexivity.
  destruct (Ascii.eqb c1 "#") eqn:E1; [|reflexivity].
  destruct (Ascii.eqb c2 "{") eqn:E2; [|reflexivity].
  cbn [andb]. destruct H as [H | H].
  - cbn [has_char] in H. rewrite Ascii.eqb_sym, E1 in H. discriminate H.
  - cbn [has_char] in H.
    apply Bool.orb_false_elim in H. destruct H as [_ H].
    apply Bool.orb_false_elim in H. destruct H as [_ H].
    now rewrite (read_selector_needs_brace rest H).
Qed.

Lemma scan_without_tokens p :
  has_char "#" p = false \/ has_char "}" p = false ->
  scan O p = texts p.
Proof.
  induction p as [|c p IH]; intros H; [reflexivity|].
  cbn [scan texts]. rewrite (match_token_needs_both _ H). f_equal.
  apply IH. cbn [has_char] in H.
  destruct H as [H | H]; apply Bool.orb_false_elim in H; tauto.
Qed.

Lemma evaluate_index expr args :
  is_index expr = true ->
  evaluateExpression expr args = stringify (arg_at args (parseInt expr)).
Proof. unfold evaluateExpression. now intros ->. Qed.

Lemma arg_beyond_end args n :
  (List.length args <= n)%nat -> stringify (arg_at args n) = EmptyString.
Proof. intros H. unfold arg_at. now rewrite nth_overflow. Qed.

Lemma navigate_nullish v parts :
  nullish v = true -> navigate v parts = EmptyString.
Proof.
  intros Hv. destruct parts as [|prop parts]; simpl.
  - now destruct v.
  - now rewrite Hv.
Qed.

Lemma evaluate_dotted_index expr args :
  includes_dot expr = true ->
  is_index (fst (split_dot expr)) = true ->
  evaluateExpression expr args
  = navigate (arg_at args (parseInt (fst (split_dot expr))))
      (snd (split_dot expr)).
Proof.
  intros Hdot Hfirst. unfold evaluateExpression, evaluatePropertyAccess.
  rewrite (dotted_is_not_index expr Hdot), Hdot.
  destruct (split_dot expr) as [first others]. simpl in *. now rewrite Hfirst.
Qed.
End SelectorFacts.

(** X23. Index selectors. A token [#{n}] is replaced by argument [n] made
    a string, and by the empty string when the call has no argument
    [n]. A token [#{n.path}] is replaced by what walking the path from
    argument [n] gives, and by the empty string when that argument is
    missing, null or undefined: the walk never raises. *)
Theorem index_selector_takes_that_argument
  {rt : JsRuntime} (pattern : string) (args : list JsVal)
  (methodName : string)
  (before after : list KeyGenerator.Segment) (expr : string) :
  KeyGenerator.scan O pattern
  = (before ++ KeyGenerator.Token expr :: after)%list ->
  (KeyGenerator.is_index expr = true ->
   KeyGenerator.generate (Some pattern) args methodName
   = (KeyGenerator.render args before
      ++ KeyGenerator.stringify
           (KeyGenerator.arg_at args (KeyGenerator.parseInt expr))
      ++ KeyGenerator.render args after)%string
   /\ ((List.length args <= KeyGenerator.parseInt expr)%nat ->
       KeyGenerator.generate (Some pattern) args methodName
       = (KeyGenerator.render args before
          ++ KeyGenerator.render args after)%string))
  /\ (KeyGenerator.includes_dot expr = true ->
      KeyGenerator.is_index (fst (KeyGenerator.split_dot expr)) = true ->
      let arg :=
        KeyGenerator.arg_at args
          (KeyGenerator.parseInt (fst (KeyGenerator.split_dot expr))) in
      KeyGenerator.generate (Some pattern) args methodName
      = (KeyGenerator.render args before
         ++ KeyGenerator.navigate arg (snd (KeyGenerator.split_dot expr))
         ++ KeyGenerator.render args after)%string
      /\ (nullish arg = true ->
          KeyGenerator.generate (Some pattern) args methodName
          = (KeyGenerator.render args before
             ++ KeyGenerator.render args after)%string)).
Proof.
  intros Hscan.
  pose proof (scan_token_nonempty pattern before expr after Hscan) as Hne.
  rewrite (generate_with_pattern pattern args methodName Hne), Hscan,
    render_token.
  split.
  - intros Hindex. rewrite (evaluate_index expr args Hindex).
    split; [reflexivity|].
    intros Hlen. now rewrite (arg_beyond_end args _ Hlen).
  - intros Hdot Hfirst arg.
    rewrite (evaluate_dotted_index expr args Hdot Hfirst). fold arg.
    split; [reflexivity|].
    intros Hnull. now rewrite (navigate_nullish arg _ Hnull).
Qed.

Lemma index_selector_takes_that_argument_witness :
  KeyGenerator.generate (rt := example_runtime)
    (Some "o:#{0.id}") [JObj [("id", JStr "7")]] "findOrder"
  = (KeyGenerator.render (rt := example_runtime) [JObj [("id", JStr "7")]]
       [KeyGenerator.Text "o"; KeyGenerator.Text ":"]
     ++ KeyGenerator.navigate (rt := example_runtime)
          (KeyGenerator.arg_at [JObj [("id", JStr "7")]] 0) ["id"]
     ++ KeyGenerator.render (rt := example_runtime)
          [JObj [("id", JStr "7")]] [])%string.
Proof.
  apply (index_selector_takes_that_argument (rt := example_runtime)
           "o:#{0.id}" [JObj [("id", JStr "7")]] "findOrder"
           [KeyGenerator.Text "o"; KeyGenerator.Text ":"] [] "0.id");
    reflexivity.
Defined.

(** X24. A pattern that holds no [#], or no closing brace, holds no
    token, and is the key as it stands, whatever the arguments: an
    unclosed [#{] is kept as text, not reported. *)
Theorem pattern_without_tokens_is_the_key
  {rt : JsRuntime} (pattern : string) (args : list JsVal)
  (methodName : string) :
  pattern <> EmptyString ->
  has_char "#" pattern = false \/ has_char "}" pattern = false ->
  KeyGenerator.generate (Some pattern) args methodName = pattern.
Proof.
  intros Hne Hplain.
  rewrite (generate_with_pattern pattern args methodName Hne).
  rewrite (scan_without_tokens pattern Hplain). apply render_texts.
Qed.

Lemma pattern_without_tokens_is_the_key_witness :
  KeyGenerator.generate (rt := example_runtime)
    (Some "user:#{0") [JStr "42"] "findUser"
  = "user:#{0".
Proof.
  apply (pattern_without_tokens_is_the_key (rt := example_runtime)
           "user:#{0" [JStr "42"] "findUser");
    [discriminate | right; reflexivity].
Defined.

(** ** decorators/turbocache-evict.decorator.ts *)

(** X25. How the manager lookup, the eviction and the wrapped call
    compose, for any adapter. Without a manager the call fails before
    anything is evicted or run. Before timing: an eviction that fails
    fails the call and the wrapped method is not run; otherwise the
    call answers exactly what the method answers on the cache as the
    eviction left it, and nothing is evicted afterwards. After timing:
    the method runs first; when it succeeds the eviction runs with its
    result, and a failure of that eviction takes the place of the
    result although the method's effects stay. *)
Theorem eviction_composes_with_call
  {rt : JsRuntime} {S : Type} {A : ICacheAdapter.t S}
  (m : CacheManager.t S) (options : TurboCacheEvictOptions)
  (propertyKey : string)
  (method : list JsVal -> Async (CacheManager.t S) JsVal)
  (args : list JsVal) (now : Z) :
  let call := TurboCacheEvict.decorated options propertyKey method args in
  call now None = (Rejected CacheManagerAccessor.not_found, None)
  /\ (evict_beforeInvocation options = true ->
      match TurboCacheEvict.evictCache JNull args options propertyKey now m
      with
      | (Rejected e, m1) => call now (Some m) = (Rejected e, Some m1)
      | (Resolved _, m1) =>
          call now (Some m)
          = (outcome (method args) now m1, Some (after (method args) now m1))
      end)
  /\ (evict_beforeInvocation options = false ->
      match method args now m with
      | (Rejected e, m1) => call now (Some m) = (Rejected e, Some m1)
      | (Resolved result, m1) =>
          match TurboCacheEvict.evictCache result args options propertyKey
                  now m1 with
          | (Resolved _, m2) => call now (Some m) = (Resolved result, Some m2)
          | (Rejected e, m2) => call now (Some m) = (Rejected e, Some m2)
          end
      end).
Proof.
  intros call. split; [reflexivity|].
  split; intros Hbefore;
    unfold call, TurboCacheEvict.decorated, CacheManagerAccessor.located,
      bind, try_catch, outcome, after;
    rewrite Hbefore; cbn [negb ret].
  - destruct (TurboCacheEvict.evictCache JNull args options propertyKey now m)
      as [[[]|e] m1]; [|reflexivity].
    destruct (method args now m1) as [[result|e] m2]; reflexivity.
  - destruct (method args now m) as [[result|e] m1]; [|reflexivity].
    destruct (TurboCacheEvict.evictCache result args options propertyKey
                now m1) as [[[]|e] m2]; reflexivity.
Qed.

Lemma eviction_composes_with_call_witness :
  TurboCacheEvict.decorated (rt := example_runtime) (A := memory_tier)
    (mkEvictOptions (Some "user:#{0}") false false None None)
    "update" (fun _ => ret (JStr "updated")) [JNum 7] 9
    (Some manager_with_user7)
  = (Resolved (JStr "updated"), Some manager_in_memory).
Proof.
  exact (proj2 (proj2 (eviction_composes_with_call (rt := example_runtime)
                         (A := memory_tier) manager_with_user7
                         (mkEvictOptions (Some "user:#{0}") false false None
                            None)
                         "update" (fun _ => ret (JStr "updated")) [JNum 7] 9))
           eq_refl).
Defined.

(** X26. What [allEntries] evicts from a manager over a memory adapter,
    once the condition lets the call through. With no namespace option,
    or the empty one, every entry of the store goes, those of other
    namespaces too. With a namespace option, the option is used as a
    glob under the manager's own namespace: when it holds no [*], the
    one entry whose full key equals the namespaced option is removed
    and every other entry stays, the keys that start with it too. *)
Theorem all_entries_eviction_reach
  {rt : JsRuntime} (m : CacheManager.t MemoryAdapter.t)
  (options : TurboCacheEvictOptions) (propertyKey : string)
  (result : JsVal) (args : list JsVal) (now : Z) (k : string) :
  evict_allEntries options = true ->
  condition_accepts options result args ->
  let a' :=
    CacheManager.adapter
      (after (TurboCacheEvict.evictCache result args options propertyKey)
         now m) in
  match evict_namespace options with
  | Some ns =>
      if String.eqb ns "" then MemoryAdapter.cache a' = []
      else
        has_char "*" (CacheManager.buildKey m ns) = false ->
        entry_of k a'
        = (if String.eqb (CacheManager.buildKey m ns) k then None
           else entry_of k (CacheManager.adapter m))
  | None => MemoryAdapter.cache a' = []
  end.
Proof.
  intros Hall Hcond a'.
  assert (E : a' = CacheManager.adapter
                     (after (CacheManager.clear (evict_namespace options))
                        now m)).
  { subst a'. unfold after, TurboCacheEvict.evictCache, bind, ret.
    unfold condition_accepts in Hcond.
    destruct (evict_condition options) as [condition|].
    - rewrite Hcond. cbn [negb]. now rewrite Hall.
    - cbn [negb]. now rewrite Hall. }
  rewrite E, manager_clear_on_memory.
  destruct (evict_namespace options) as [ns|]; [|reflexivity].
  unfold truthy_str. destruct (String.eqb ns "") eqn:Hns; cbn [negb].
  - reflexivity.
  - intros Hstar. apply String.eqb_neq in Hns.
    rewrite (proj1 (clear_removes_matching_entries_aux
                      (CacheManager.adapter m) (CacheManager.buildKey m ns)
                      now k (buildKey_nonempty m ns Hns))).
    now rewrite (literal_pattern (CacheManager.buildKey m ns) k Hstar).
Qed.

Lemma all_entries_eviction_reach_witness :
  entry_of "app:users:7"
    (CacheManager.adapter
       (after (TurboCacheEvict.evictCache (rt := example_runtime)
                 (A := memory_tier) JNull []
                 (mkEvictOptions None true false (Some "users") None)
                 "removeAll")
          9 users_manager))
  = (if String.eqb (CacheManager.buildKey users_manager "users") "app:users:7"
     then None
     else entry_of "app:users:7" (CacheManager.adapter users_manager)).
Proof.
  apply (all_entries_eviction_reach (rt := example_runtime) users_manager
           (mkEvictOptions None true false (Some "users") None)
           "removeAll" JNull [] 9 "app:users:7");
    [reflexivity | exact I | reflexivity].
Defined.

(** ** decorators/turbocache-put.decorator.ts *)

(** X27. A put never changes what the wrapped method answers, for any
    adapter. The method always runs. Its failure is the call's failure
    and nothing is stored. When it succeeds and the condition lets the
    result through, the result is stored under the generated key and
    the call answers the result even when that store fails; when the
    condition refuses, nothing is stored; an error raised by the
    condition is the call's failure. Without a manager the call fails
    before the method is run. *)
Theorem put_keeps_method_outcome
  {rt : JsRuntime} {S : Type} {A : ICacheAdapter.t S}
  (m : CacheManager.t S) (options : TurboCachePutOptions)
  (propertyKey : string)
  (method : list JsVal -> Async (CacheManager.t S) JsVal)
  (args : list JsVal) (now : Z) :
  match method args now m with
  | (Rejected e, m1) =>
      TurboCachePut.decorated options propertyKey method args now (Some m)
      = (Rejected e, Some m1)
  | (Resolved result, m1) =>
      match put_condition_answer options result args with
      | Resolved true =>
          TurboCachePut.decorated options propertyKey method args now (Some m)
          = (Resolved result,
             Some (after
                     (CacheManager.set
                        (TurboCachePut.generateKeyWithResult
                           (put_key options) args result propertyKey)
                        result (put_ttl options))
                     now m1))
      | Resolved false =>
          TurboCachePut.decorated options propertyKey method args now (Some m)
          = (Resolved result, Some m1)
      | Rejected e =>
          TurboCachePut.decorated options propertyKey method args now (Some m)
          = (Rejected e, Some m1)
      end
  end
  /\ TurboCachePut.decorated options propertyKey method args now None
     = (Rejected CacheManagerAccessor.not_found, None).
Proof.
  split; [|reflexivity].
  unfold TurboCachePut.decorated, CacheManagerAccessor.located, try_catch,
    bind, put_condition_answer.
  destruct (method args now m) as [[result|e] m1]; [|reflexivity].
  destruct (put_condition options) as [condition|].
  - destruct (condition result args) as [[|]|e]; reflexivity.
  - reflexivity.
Qed.

Section ResultSelectorFacts.
Context {rt : JsRuntime}.
Import TurboCachePut.

Lemma has_char_app c (s1 s2 : string) :
  has_char c (s1 ++ s2) = has_char c s1 || has_char c s2.
Proof.
  induction s1 as [|d s1 IH]; simpl; [reflexivity|].
  now rewrite IH, Bool.orb_assoc.
Qed.

Lemma append_empty_right (s : string) : (s ++ "")%string = s.
Proof. induction s as [|c s IH]; simpl; [reflexivity | now rewrite IH]. Qed.

Lemma prefix_needs_head p c rest :
  Ascii.eqb "#" c = false ->
  String.prefix (String "#" p) (String c rest) = false.
Proof.
  intros H. cbn [String.prefix].
  destruct (ascii_dec "#" c) as [<-|]; [discriminate H | reflexivity].
Qed.

Lemma match_result_path_needs_hash c rest :
  Ascii.eqb "#" c = false -> match_result_path (String c rest) = None.
Proof.
  intros H. unfold match_result_path.
  change "#{result." with (String "#" "{result.").
  now rewrite (prefix_needs_head _ c rest H).
Qed.

Lemma replace_paths_app result pre s :
  has_char "#" pre = false ->
  replace_result_paths result O (pre ++ s)
  = (pre ++ replace_result_paths result O s)%string.
Proof.
  induction pre as [|c pre IH]; intros H; [reflexivity|].
  cbn [has_char] in H. apply Bool.orb_false_elim in H. destruct H as [Hc Hpre].
  change ((String c pre ++ s)%string) with (String c (pre ++ s)).
  cbn [replace_result_paths].
  rewrite (match_result_path_needs_hash c (pre ++ s) Hc), (IH Hpre).
  reflexivity.
Qed.

Lemma replace_paths_plain result s :
  has_char "#" s = false -> replace_result_paths result O s = s.
Proof.
  intros H. rewrite <- (append_empty_right s) at 1.
  rewrite (replace_paths_app result s "" H). apply append_empty_right.
Qed.

Lemma replace_paths_skip result t post :
  replace_result_paths result (String.length t) (t ++ post)
  = replace_result_paths result O post.
Proof.
  induction t as [|c t IH]; [reflexivity|]. exact IH.
Qed.

Lemma read_selector_closed path post :
  has_char "}" path = false ->
  KeyGenerator.read_selector (path ++ "}" ++ post) = Some path.
Proof.
  induction path as [|c path IH]; intros H; [reflexivity|].
  cbn [has_char] in H. apply Bool.orb_false_elim in H. destruct H as [Hc Hp].
  rewrite Ascii.eqb_sym in Hc.
  change ((String c path ++ "}" ++ post)%string)
    with (String c (path ++ "}" ++ post)).
  cbn [KeyGenerator.read_selector]. now rewrite Hc, (IH Hp).
Qed.

Lemma match_result_path_token path post :
  path <> EmptyString ->
  has_char "}" path = false ->
  match_result_path ("#{result." ++ path ++ "}" ++ post) = Some path.
Proof.
  intros Hne Hbrace. unfold match_result_path.
  rewrite prefix_append.
  change (string_drop 9 ("#{result." ++ path ++ "}" ++ post))
    with (path ++ "}" ++ post)%string.
  rewrite (read_selector_closed path post Hbrace).
  apply String.eqb_neq in Hne. now rewrite Hne.
Qed.

Lemma replace_paths_token result path post :
  path <> EmptyString ->
  has_char "}" path = false ->
  has_char "#" post = false ->
  replace_result_paths result O ("#{result." ++ path ++ "}" ++ post)
  = (string_or_empty (getNestedProperty result path) ++ post)%string.
Proof.
  intros Hne Hbrace Hpost.
  pose proof (match_result_path_token path post Hne Hbrace) as Hmatch.
  change ("#{result." ++ path ++ "}" ++ post)%string
    with (String "#" ("{result." ++ path ++ "}" ++ post)) in *.
  cbn [replace_result_paths]. rewrite Hmatch. f_equal.
  replace ("{result." ++ path ++ "}" ++ post)%string
    with (("{result." ++ path ++ "}") ++ post)%string.
  - replace (String.length path + 9)%nat
      with (String.length ("{result." ++ path ++ "}")).
    + rewrite replace_paths_skip. now apply replace_paths_plain.
    + rewrite !length_append. simpl. lia.
  - now rewrite !append_assoc.
Qed.

Lemma replace_paths_whole_token result post :
  has_char "#" post = false ->
  replace_result_paths result O ("#{result}" ++ post)
  = ("#{result}" ++ post)%string.
Proof.
  intros Hpost.
  change ("#{result}" ++ post)%string with (String "#" ("{result}" ++ post)).
  cbn [replace_result_paths].
  assert (Hmatch : match_result_path (String "#" ("{result}" ++ post)) = None)
    by reflexivity.
  rewrite Hmatch. f_equal. apply replace_paths_plain.
  rewrite has_char_app. now rewrite Hpost.
Qed.

Lemma replace_whole_plain r s : forall b,
  has_char "#" s = false -> replace_result_whole r b O s = s.
Proof.
  induction s as [|c s IH]; intros b H; [reflexivity|].
  cbn [has_char] in H. apply Bool.orb_false_elim in H. destruct H as [Hc Hs].
  cbn [replace_result_whole].
  change "#{result}" with (String "#" "{result}").
  rewrite (prefix_needs_head _ c s Hc). now rewrite (IH _ Hs).
Qed.

Lemma replace_whole_app r pre : forall b s,
  has_char "#" pre = false ->
  replace_result_whole r b O (pre ++ s)
  = (pre ++ replace_result_whole r (b ++ pre) O s)%string.
Proof.
  induction pre as [|c pre IH]; intros b s H.
  - now rewrite append_empty_right.
  - cbn [has_char] in H. apply Bool.orb_false_elim in H.
    destruct H as [Hc Hpre].
    change ((String c pre ++ s)%string) with (String c (pre ++ s)).
    cbn [replace_result_whole].
    change "#{result}" with (String "#" "{result}").
    rewrite (prefix_needs_head _ c (pre ++ s) Hc), (IH _ s Hpre).
    now rewrite append_assoc.
Qed.

Lemma replace_whole_skip r t post :
  has_char "#" post = false ->
  forall b,
    replace_result_whole r b (String.length t) (t ++ post) = post.
Proof.
  intros Hpost. induction t as [|c t IH]; intros b.
  - now apply replace_whole_plain.
  - apply IH.
Qed.

Lemma replace_whole_token r b post :
  has_char "#" post = false ->
  replace_result_whole r b O ("#{result}" ++ post)
  = (expand r "#{result}" b post ++ post)%string.
Proof.
  intros Hpost.
  change ("#{result}" ++ post)%string with (String "#" ("{result}" ++ post)).
  cbn [replace_result_whole].
  assert (Hprefix : String.prefix "#{result}" (String "#" ("{result}" ++ post))
                    = true) by apply (prefix_append "#{result}" post).
  rewrite Hprefix.
  change (string_drop 8 ("{result}" ++ post)) with post. f_equal.
  exact (replace_whole_skip r "{result}" post Hpost _).
Qed.

Lemma plain_pattern_is_key pattern args methodName :
  pattern <> EmptyString ->
  has_char "#" pattern = false ->
  KeyGenerator.generate (Some pattern) args methodName = pattern.
Proof.
  intros Hne Hplain.
  rewrite (generate_with_pattern pattern args methodName Hne).
  rewrite (scan_without_tokens pattern (or_introl Hplain)).
  apply render_texts.
Qed.
End ResultSelectorFacts.

(** X28. Result selectors of a put key, where the text around the
    selector holds no [#]. [#{result.path}] is replaced by what the
    path leads to in the method's result, made a string, and by
    nothing when that is null or undefined. [#{result}] is replaced by the result made a string, read
    as a replacement string: a [$&] in it stands for the selector
    itself, a [$`] for the text before the selector, a [$'] for the
    text after it and [$$] for one dollar sign. *)
Theorem result_selectors_read_the_result
  {rt : JsRuntime} (pre post : string) (args : list JsVal)
  (result : JsVal) (methodName : string) :
  has_char "#" pre = false ->
  has_char "#" post = false ->
  (forall path,
     path <> EmptyString ->
     has_char "}" path = false ->
     let text :=
       string_or_empty (TurboCachePut.getNestedProperty result path) in
     has_char "#" text = false ->
     (pre ++ text ++ post)%string <> EmptyString ->
     TurboCachePut.generateKeyWithResult
       (pre ++ "#{result." ++ path ++ "}" ++ post) args result methodName
     = (pre ++ text ++ post)%string)
  /\ (let text := expand (string_or_empty result) "#{result}" pre post in
      has_char "#" text = false ->
      (pre ++ text ++ post)%string <> EmptyString ->
      TurboCachePut.generateKeyWithResult
        (pre ++ "#{result}" ++ post) args result methodName
      = (pre ++ text ++ post)%string).
Proof.
  intros Hpre Hpost. split.
  - intros path Hne Hbrace text Htext Hkey.
    unfold TurboCachePut.generateKeyWithResult.
    rewrite (replace_paths_app result pre _ Hpre).
    rewrite (replace_paths_token result path post Hne Hbrace Hpost).
    fold text.
    assert (Hplain : has_char "#" (pre ++ text ++ post) = false)
      by now rewrite !has_char_app, Hpre, Htext, Hpost.
    rewrite (replace_whole_plain _ _ "" Hplain).
    now apply plain_pattern_is_key.
  - intros text Htext Hkey.
    unfold TurboCachePut.generateKeyWithResult.
    rewrite (replace_paths_app result pre _ Hpre).
    rewrite (replace_paths_whole_token result post Hpost).
    rewrite (replace_whole_app _ pre "" _ Hpre).
    rewrite (replace_whole_token _ _ post Hpost).
    change ("" ++ pre)%string with pre. fold text.
    assert (Hplain : has_char "#" (pre ++ text ++ post) = false)
      by now rewrite !has_char_app, Hpre, Htext, Hpost.
    now apply plain_pattern_is_key.
Qed.

Lemma result_selectors_read_the_result_witness :
  TurboCachePut.generateKeyWithResult (rt := example_runtime)
    ("user:" ++ "#{result." ++ "id" ++ "}" ++ ":v1") [] 
    (JObj [("id", JStr "7")]) "createUser"
  = "user:7:v1"
  /\ TurboCachePut.generateKeyWithResult (rt := example_runtime)
       ("tag:" ++ "#{result}" ++ "!") [] (JStr "a$$b$'") "tagOf"
     = "tag:a$b!!".
Proof.
  split.
  - apply (proj1 (result_selectors_read_the_result (rt := example_runtime)
                    "user:" ":v1" [] (JObj [("id", JStr "7")]) "createUser"
                    eq_refl eq_refl) "id");
      [discriminate | reflexivity | reflexivity | discriminate].
  - apply (proj2 (result_selectors_read_the_result (rt := example_runtime)
                    "tag:" "!" [] (JStr "a$$b$'") "tagOf" eq_refl eq_refl)).
    + reflexivity.
    + discriminate.
Defined.

(** ** decorators/turbocache.decorator.ts *)

Section CachedMethodFacts.
Context {rt : JsRuntime} {S : Type} {A : ICacheAdapter.t S}.
Variable assign_to_copy : list JsVal -> string -> JsVal -> Completion JsVal.

Lemma cached_method_hit options propertyKey method args now
      (m m1 : CacheManager.t S) cached :
  CacheManager.get
    (KeyGenerator.generate (cache_key options) args propertyKey) now m
  = (Resolved cached, m1) ->
  not_null cached = true ->
  cache_includeMetadata options = false ->
  TurboCache.decorated assign_to_copy options propertyKey method args now
    (Some m)
  = (Resolved cached, Some m1).
Proof.
  intros Hget Hcached Hplain.
  unfold TurboCache.decorated, try_catch, CacheManagerAccessor.located, bind.
  rewrite Hget, Hcached. unfold TurboCache.reply. now rewrite Hplain.
Qed.

Lemma cached_method_miss options propertyKey method args now
      (m m1 m2 : CacheManager.t S) result (store : bool) :
  CacheManager.get
    (KeyGenerator.generate (cache_key options) args propertyKey) now m
  = (Resolved JNull, m1) ->
  method args now m1 = (Resolved result, m2) ->
  TurboCache.checkCachingConditions result args options = Resolved store ->
  cache_includeMetadata options = false ->
  TurboCache.decorated assign_to_copy options propertyKey method args now
    (Some m)
  = (Resolved result,
     Some (if store
           then after
                  (CacheManager.set
                     (KeyGenerator.generate (cache_key options) args
                        propertyKey)
                     result (cache_ttl options)) now m2
           else m2)).
Proof.
  intros Hget Hmethod Hcheck Hplain.
  unfold TurboCache.decorated, try_catch, CacheManagerAccessor.located, bind.
  rewrite Hget. cbn [not_null]. rewrite Hmethod, Hcheck.
  unfold TurboCache.reply. rewrite Hplain.
  destruct store; reflexivity.
Qed.

Lemma cached_method_read_fails options propertyKey method args now
      (m m1 : CacheManager.t S) e :
  CacheManager.get
    (KeyGenerator.generate (cache_key options) args propertyKey) now m
  = (Rejected e, m1) ->
  TurboCache.decorated assign_to_copy options propertyKey method args now
    (Some m)
  = TurboCache.handle_fallback options e now (Some m1).
Proof.
  intros Hget.
  unfold TurboCache.decorated, try_catch, CacheManagerAccessor.located, bind.
  now rewrite Hget.
Qed.

Lemma cached_method_fails options propertyKey method args now
      (m m1 m2 : CacheManager.t S) e :
  CacheManager.get
    (KeyGenerator.generate (cache_key options) args propertyKey) now m
  = (Resolved JNull, m1) ->
  method args now m1 = (Rejected e, m2) ->
  TurboCache.decorated assign_to_copy options propertyKey method args now
    (Some m)
  = TurboCache.handle_fallback options e now (Some m2).
Proof.
  intros Hget Hmethod.
  unfold TurboCache.decorated, try_catch, CacheManagerAccessor.located, bind.
  rewrite Hget. cbn [not_null]. now rewrite Hmethod.
Qed.
End CachedMethodFacts.

(** X29. A cached method on a memory adapter. A first call that misses
    runs the method, answers its result and stores it as it is under
    the generated key when the conditions allow; a second call with the
    same arguments made while the entry lives answers that result
    whatever the method would now do, so without running it, and
    leaves the cache as a plain [get] does. *)
Theorem cached_method_second_call_skips_method
  {rt : JsRuntime}
  (assign_to_copy : list JsVal -> string -> JsVal -> Completion JsVal)
  (m m1 m2 : CacheManager.t MemoryAdapter.t)
  (options : TurboCacheOptions) (propertyKey : string)
  (method method2 :
     list JsVal -> Async (CacheManager.t MemoryAdapter.t) JsVal)
  (args : list JsVal) (now t2 : Z) (result : JsVal) :
  let key := KeyGenerator.generate (cache_key options) args propertyKey in
  CacheManager.get key now m = (Resolved JNull, m1) ->
  method args now m1 = (Resolved result, m2) ->
  not_null result = true ->
  TurboCache.checkCachingConditions result args options = Resolved true ->
  cache_includeMetadata options = false ->
  (effective_ttl (cache_ttl options) m2 <> 0 ->
   t2 <= now + effective_ttl (cache_ttl options) m2 * 1000) ->
  let w :=
    after (TurboCache.decorated assign_to_copy options propertyKey method args)
      now (Some m) in
  outcome (TurboCache.decorated assign_to_copy options propertyKey method args)
    now (Some m)
  = Resolved result
  /\ TurboCache.decorated assign_to_copy options propertyKey method2 args t2 w
     = (Resolved result,
        after (CacheManagerAccessor.located (CacheManager.get key)) t2 w).
Proof.
  intros key Hget Hmethod Hresult Hcheck Hplain Hwin w.
  pose proof (cached_method_miss assign_to_copy options propertyKey method
                args now m m1 m2 result true Hget Hmethod Hcheck Hplain)
    as Hfirst.
  fold key in Hfirst. unfold after in Hfirst.
  rewrite manager_set_pair in Hfirst. cbn [snd] in Hfirst.
  unfold outcome at 1. rewrite Hfirst. split; [reflexivity|].
  set (m3 := CacheManager.mk
               (after (MemoryAdapter.set (CacheManager.buildKey m2 key) result
                         (Some (effective_ttl (cache_ttl options) m2))) now
                  (CacheManager.adapter m2))
               (CacheManager.namespace m2) (CacheManager.defaultTTL m2)
               (CacheManager.enableMetrics m2)).
  assert (Hw : w = Some m3).
  { unfold w, after. rewrite Hfirst. unfold after. cbn [snd]. reflexivity. }
  pose proof (manager_get_pair key t2 m3) as Hget2.
  assert (Hout : outcome (MemoryAdapter.get (CacheManager.buildKey m3 key)) t2
                   (CacheManager.adapter m3) = Resolved result).
  { unfold m3 at 1 2. unfold CacheManager.buildKey at 1.
    cbn [CacheManager.namespace CacheManager.adapter].
    fold (CacheManager.buildKey m2 key).
    rewrite get_outcome, live_after_set_some; [reflexivity | exact Hwin]. }
  rewrite Hout in Hget2. rewrite Hw.
  rewrite (cached_method_hit assign_to_copy options propertyKey method2 args
             t2 m3 _ result Hget2 Hresult Hplain).
  f_equal. unfold after, CacheManagerAccessor.located.
  now rewrite Hget2.
Qed.

Lemma cached_method_second_call_skips_method_witness :
  TurboCache.decorated (rt := example_runtime) (A := memory_tier)
    no_array_host
    (mkCacheOptions (Some "k") None None None (FallbackValue JUndefined)
       false None)
    "findUser" (fun _ => throw (Thrown "down")) [] 900
    (after
       (TurboCache.decorated (rt := example_runtime) (A := memory_tier)
          no_array_host
          (mkCacheOptions (Some "k") None None None (FallbackValue JUndefined)
             false None)
          "findUser" (fun _ => ret (JStr "v")) [])
       5 (Some manager_in_memory))
  = (Resolved (JStr "v"),
     after (CacheManagerAccessor.located
              (CacheManager.get (A := memory_tier) "k")) 900
       (after
          (TurboCache.decorated (rt := example_runtime) (A := memory_tier)
             no_array_host
             (mkCacheOptions (Some "k") None None None
                (FallbackValue JUndefined) false None)
             "findUser" (fun _ => ret (JStr "v")) [])
          5 (Some manager_in_memory))).
Proof.
  apply (cached_method_second_call_skips_method (rt := example_runtime)
           no_array_host manager_in_memory manager_after_miss
           manager_after_miss
           (mkCacheOptions (Some "k") None None None
              (FallbackValue JUndefined) false None)
           "findUser" (fun _ => ret (JStr "v"))
           (fun _ => throw (Thrown "down")) [] 5 900 (JStr "v"));
    try reflexivity.
  intros _. vm_compute. discriminate.
Defined.

(** X30. The fallback function of a cached method is handed the error,
    for any adapter, and every failure inside the call reaches it: no
    manager to be found, a cache read that fails, a method that fails.
    The answer of the call is then what the fallback answers. A store
    that fails after the method succeeded does not reach it: the call
    answers the method's result. *)
Theorem cached_method_fallback_sees_error
  {rt : JsRuntime} {S : Type} {A : ICacheAdapter.t S}
  (assign_to_copy : list JsVal -> string -> JsVal -> Completion JsVal)
  (options : TurboCacheOptions) (propertyKey : string)
  (method : list JsVal -> Async (CacheManager.t S) JsVal)
  (args : list JsVal) (now : Z)
  (f : option JsError -> Completion JsVal) :
  cache_fallback options = FallbackFunction f ->
  let key := KeyGenerator.generate (cache_key options) args propertyKey in
  let call :=
    TurboCache.decorated assign_to_copy options propertyKey method args in
  call now None = (f (Some CacheManagerAccessor.not_found), None)
  /\ (forall m m1 e,
        CacheManager.get key now m = (Rejected e, m1) ->
        call now (Some m) = (f (Some e), Some m1))
  /\ (forall m m1 m2 e,
        CacheManager.get key now m = (Resolved JNull, m1) ->
        method args now m1 = (Rejected e, m2) ->
        call now (Some m) = (f (Some e), Some m2))
  /\ (forall m m1 m2 result e,
        CacheManager.get key now m = (Resolved JNull, m1) ->
        method args now m1 = (Resolved result, m2) ->
        TurboCache.checkCachingConditions result args options
        = Resolved true ->
        cache_includeMetadata options = false ->
        outcome (CacheManager.set key result (cache_ttl options)) now m2
        = Rejected e ->
        outcome call now (Some m) = Resolved result).
Proof.
  intros Hf key call.
  assert (Hhandle : forall (T : Type) e (w : T),
             TurboCache.handle_fallback options e now w = (f (Some e), w)).
  { intros T e w. unfold TurboCache.handle_fallback. now rewrite Hf. }
  repeat split.
  - unfold call, TurboCache.decorated, try_catch, CacheManagerAccessor.located.
    apply Hhandle.
  - intros m m1 e Hget. unfold call.
    rewrite (cached_method_read_fails assign_to_copy options propertyKey
               method args now m m1 e Hget).
    apply Hhandle.
  - intros m m1 m2 e Hget Hmethod. unfold call.
    rewrite (cached_method_fails assign_to_copy options propertyKey method
               args now m m1 m2 e Hget Hmethod).
    apply Hhandle.
  - intros m m1 m2 result e Hget Hmethod Hcheck Hplain _. unfold call, outcome.
    now rewrite (cached_method_miss assign_to_copy options propertyKey method
                   args now m m1 m2 result true Hget Hmethod Hcheck Hplain).
Qed.

Lemma cached_method_fallback_sees_error_witness :
  TurboCache.decorated (rt := example_runtime) (A := memory_tier)
    no_array_host
    (mkCacheOptions (Some "k") None None None
       (FallbackFunction describe_error) false None)
    "findUser" (fun _ => throw (Thrown "down")) [] 5 None
  = (describe_error (Some CacheManagerAccessor.not_found), None)
  /\ TurboCache.decorated (rt := example_runtime) (A := memory_tier)
       no_array_host
       (mkCacheOptions (Some "k") None None None
          (FallbackFunction describe_error) false None)
       "findUser" (fun _ => throw (Thrown "down")) [] 5
       (Some manager_in_memory)
     = (describe_error (Some (Thrown "down")), Some manager_after_miss).
Proof.
  pose proof (cached_method_fallback_sees_error (rt := example_runtime)
                (A := memory_tier) no_array_host
                (mkCacheOptions (Some "k") None None None
                   (FallbackFunction describe_error) false None)
                "findUser" (fun _ => throw (Thrown "down")) [] 5
                describe_error eq_refl) as H.
  split.
  - exact (proj1 H).
  - exact (proj1 (proj2 (proj2 H)) manager_in_memory manager_after_miss
             manager_after_miss (Thrown "down") eq_refl eq_refl).
Defined.
